(** * bob.extension: requirement parsing, flag assembly and two-phase build

    A shallow embedding of [bob/extension/__init__.py] and
    [bob/extension/utils.py], and the properties of the dependency
    resolution and flag assembly pipeline proved on it.

    Conventions of the embedding:
    - a Python [str] is a [string] whose characters are read as code
      points, the code points being those below 256; white space is what
      [str.isspace] and the class of white space of [re] accept among
      them, and [str.lower] is the one of these code points;
    - a Python list is a [list]; the [set] of [uniq] and of
      [check_packages] is a [gset]; the [dict] of [normalize_requirements],
      iterated in insertion order, is an association list;
    - a function that may raise returns a [result];
    - the list objects a caller hands to [Extension.__init__], and the
      target objects of [build_ext.run], live in a store and are referred
      to by their identity, because the code updates them in place;
    - what the code reads from its surroundings (the process environment,
      the filesystem, the platform, pkg-config, the Boost adapter, external
      processes) is a parameter of the functions that read it. *)

From Stdlib Require Import String Ascii.
From stdpp Require Import gmap strings list sorting.

Open Scope string_scope.
Open Scope list_scope.
Open Scope stdpp_scope.
Open Scope nat_scope.

(** ** Python runtime: exceptions and a few [str] methods *)

Module Py.

(** The exceptions the modelled functions raise.  The first five carry the
    names the specification gives them; the Python class is in the comment. *)
Inductive exn : Type :=
| MalformedRequirement (requirement : string)          (* RuntimeError, "cannot parse requirement" *)
| PackageNotFound (name : string)                      (* RuntimeError raised by the pkgconfig constructor *)
| UnsatisfiedRequirement (name op version : string)    (* AssertionError of the failed [assert] *)
| DuplicateRequirement                                 (* RuntimeError, "had already been requested" *)
| UnsupportedPlatform                                  (* RuntimeError, "supports only MacOSX and Linux builds" *)
| IndexError                                           (* list index out of range *)
| OSError (msg : string).                              (* failed external process *)

Inductive result (A : Type) : Type :=
| Ok (a : A)
| Raise (e : exn).
Arguments Ok {A} a.
Arguments Raise {A} e.

Definition bind {A B} (m : result A) (k : A → result B) : result B :=
  match m with
  | Ok a => k a
  | Raise e => Raise e
  end.

Definition is_ok {A} (m : result A) : bool :=
  match m with Ok _ => true | Raise _ => false end.

(** [assert cond, msg] *)
Definition assert (cond : bool) (e : exn) : result unit :=
  if cond then Ok tt else Raise e.

(** [s.startswith(prefix)] *)
Fixpoint startswith (pre s : string) : bool :=
  match pre, s with
  | EmptyString, _ => true
  | String a pre', String b s' => if decide (a = b) then startswith pre' s' else false
  | String _ _, EmptyString => false
  end.

(** [c.isspace()], which is also the class of white space of a [str]
    pattern of [re]: the six characters of [string.whitespace] (the code
    points 9 to 13 and 32), the separators U+001C to U+001F, U+0085 and
    U+00A0. *)
Definition is_space (c : ascii) : bool :=
  let n := nat_of_ascii c in
  ((9 <=? n) && (n <=? 13)) || ((28 <=? n) && (n <=? 32))
  || (n =? 133) || (n =? 160).

(** [s.lstrip()], [s.rstrip()] and [s.strip()]: they remove the characters
    that are white space. *)
Fixpoint lstrip (s : string) : string :=
  match s with
  | String c s' => if is_space c then lstrip s' else s
  | EmptyString => EmptyString
  end.

Fixpoint rstrip (s : string) : string :=
  match s with
  | String c s' =>
      match rstrip s' with
      | EmptyString => if is_space c then EmptyString else String c EmptyString
      | r => String c r
      end
  | EmptyString => EmptyString
  end.

Definition strip (s : string) : string := rstrip (lstrip s).

(** [s.lower()]: the letters A to Z, and the capital letters U+00C0 to
    U+00DE but for the sign U+00D7, are moved by 32; no other code point
    below 256 has another lower case. *)
Definition lower_char (c : ascii) : ascii :=
  let n := nat_of_ascii c in
  if ((65 <=? n) && (n <=? 90))
     || ((192 <=? n) && (n <=? 222) && negb (n =? 215))
  then ascii_of_nat (n + 32) else c.

Fixpoint lower (s : string) : string :=
  match s with
  | String c s' => String (lower_char c) (lower s')
  | EmptyString => EmptyString
  end.

(** [sep.join(parts)] *)
Fixpoint join (sep : string) (parts : list string) : string :=
  match parts with
  | [] => ""
  | [p] => p
  | p :: rest => p +:+ sep +:+ join sep rest
  end.

(** [s.split(sep)] for a one-character separator. *)
Fixpoint str_split (sep : ascii) (s : string) : list string :=
  match s with
  | EmptyString => [EmptyString]
  | String c s' =>
      if decide (c = sep) then EmptyString :: str_split sep s'
      else match str_split sep s' with
           | piece :: pieces => String c piece :: pieces
           | [] => [String c EmptyString]
           end
  end.

(** [l[i]], raising [IndexError] out of range. *)
Definition index {A} (l : list A) (i : nat) : result A :=
  match l !! i with
  | Some x => Ok x
  | None => Raise IndexError
  end.

End Py.

Import Py.

(** [result] is used through stdpp's monad notations [x ← m; k] and
    [m;; k]. *)
Global Instance result_ret : MRet result := @Ok.
Global Instance result_bind : MBind result := λ A B k m, Py.bind m k.

(** ** utils.py *)

Module Utils.

Section Uniq.
Context {A : Type} `{Countable A}.

(** [uniq(seq)]: the comprehension
    [[x for x in seq if x not in seen and not seen_add(x)]], with the
    set [seen] threaded through. *)
Fixpoint uniq_from (seen : gset A) (seq : list A) : list A :=
  match seq with
  | [] => []
  | x :: seq' =>
      if decide (x ∈ seen) then uniq_from seen seq'
      else x :: uniq_from ({[x]} ∪ seen) seq'
  end.

Definition uniq (seq : list A) : list A := uniq_from ∅ seq.
End Uniq.

End Utils.

Import Utils.

(** ** The requirement grammar: [re.split(r'\s*(?P<cmp>[<>=]+)\s*', s)] *)

Module Regex.

(** [[<>=]] *)
Definition is_cmp (c : ascii) : bool :=
  match c with
  | "<" | ">" | "=" => true
  | _ => false
  end%char.

(** The longest prefix of characters satisfying [p], and what follows it:
    a greedy [p*]. *)
Fixpoint span (p : ascii → bool) (s : string) : string * string :=
  match s with
  | String c s' =>
      if p c then let '(a, b) := span p s' in (String c a, b) else (EmptyString, s)
  | EmptyString => (EmptyString, EmptyString)
  end.

(** The pattern matched at the very start of [s]: greedy white space, a
    non-empty greedy run of comparator characters, greedy white space.
    Returns the captured group [cmp] and the text after the match. *)
Definition match_here (s : string) : option (string * string) :=
  let '(_, s1) := span Py.is_space s in
  match span is_cmp s1 with
  | (EmptyString, _) => None
  | (op, s2) => Some (op, snd (span Py.is_space s2))
  end.

(** [re.search]: the leftmost match.  Returns the text before the match,
    the captured group and the text after the match. *)
Fixpoint search (s : string) : option (string * string * string) :=
  match match_here s with
  | Some (op, rest) => Some (EmptyString, op, rest)
  | None =>
      match s with
      | String c s' =>
          match search s' with
          | Some (pre, op, rest) => Some (String c pre, op, rest)
          | None => None
          end
      | EmptyString => None
      end
  end.

(** [re.split] with one capturing group: the pieces between successive
    matches, interleaved with the captured groups.  Every match consumes at
    least one character, so [S (length s)] units of fuel are never
    exhausted (lemma [split_fuel_enough] below). *)
Fixpoint split_fuel (fuel : nat) (s : string) : list string :=
  match fuel with
  | O => [s]
  | S fuel' =>
      match search s with
      | Some (pre, op, rest) => pre :: op :: split_fuel fuel' rest
      | None => [s]
      end
  end.

Definition split (s : string) : list string :=
  split_fuel (S (String.length s)) s.

End Regex.

(** ** __init__.py: requirement normalisation *)

Section Normalize.

(** The dictionary [parsed]: package name to its list of
    [(op, version)] pairs, in insertion order. *)
Definition parsed_dict : Type := list (string * list (string * string)).

(** [parsed.setdefault(key, [])] followed by [.extend(more)] on the
    list it returns. *)
Fixpoint setdefault_extend (parsed : parsed_dict) (key : string)
         (more : list (string * string)) : parsed_dict :=
  match parsed with
  | [] => [(key, more)]
  | (k, v) :: parsed' =>
      if decide (k = key) then (k, v ++ more) :: parsed'
      else (k, v) :: setdefault_extend parsed' key more
  end.

(** The first loop of [normalize_requirements]. *)
Fixpoint parse_all (requirements : list string) (parsed : parsed_dict)
  : result parsed_dict :=
  match requirements with
  | [] => Ok parsed
  | requirement :: requirements' =>
      match Regex.split requirement with
      | [name] => parse_all requirements' (setdefault_extend parsed name [])
      | [name; op; version] =>
          parse_all requirements' (setdefault_extend parsed name [(op, version)])
      | _ => Raise (MalformedRequirement requirement)
      end
  end.

(** The second loop of [normalize_requirements]. *)
Fixpoint emit_all (parsed : parsed_dict) : list string :=
  match parsed with
  | [] => []
  | (key, value) :: parsed' =>
      match uniq value with
      | [] => key :: emit_all parsed'
      | value' =>
          map (fun v => join " " [key; v.1; v.2]) value' ++ emit_all parsed'
      end
  end.

Definition normalize_requirements (requirements : list string)
  : result (list string) :=
  parsed ← parse_all requirements [];
  Ok (emit_all parsed).

End Normalize.

(** ** The Package Query Adapter *)

Module PkgConfig.

(** Modelled from the spec: what the external package-metadata registry
    records of one package, the source of the fields of [pkgconfig]. *)
Record metadata : Type := Metadata {
  md_version : string;
  md_macros : list (string * string);
  md_include_dirs : list string;
  md_libraries : list string;
  md_library_dirs : list string }.

(** Modelled from the spec: the class [pkgconfig] of
    [bob/extension/pkgconfig.py], which is not among the sources.  It wraps
    one package-metadata query result and exposes the package's name (the
    name that was queried), version, macros, include directories, library
    names and library directories. *)
Record t : Type := Pkg {
  name : string;
  version : string;
  package_macros : list (string * string);
  include_directories : list string;
  libraries : list string;
  library_directories : list string }.

Global Instance t_eq_dec : EqDecision t.
Proof. solve_decision. Defined.

Section Query.
Context (registry : gmap string metadata).
Context (version_cmp : string → string → comparison).

(** Modelled from the spec: the constructor [pkgconfig(name)] fails with
    [PackageNotFound] if the metadata query cannot locate the name. *)
Definition pkgconfig (nm : string) : result t :=
  match registry !! nm with
  | Some md =>
      Ok (Pkg nm (md_version md) (md_macros md) (md_include_dirs md)
              (md_libraries md) (md_library_dirs md))
  | None => Raise (PackageNotFound nm)
  end.

(** Modelled from the spec: the ordering comparators between the resolved
    version and a version string.  All five are derived from one three-way
    comparison of versions, [version_cmp], the loose comparison.
    [p < v]: *)
Definition lt (p : t) (v : string) : bool :=
  match version_cmp (version p) v with Lt => true | _ => false end.

(** Modelled from the spec: [p <= v]. *)
Definition le (p : t) (v : string) : bool :=
  match version_cmp (version p) v with Gt => false | _ => true end.

(** Modelled from the spec: [p > v]. *)
Definition gt (p : t) (v : string) : bool :=
  match version_cmp (version p) v with Gt => true | _ => false end.

(** Modelled from the spec: [p >= v]. *)
Definition ge (p : t) (v : string) : bool :=
  match version_cmp (version p) v with Lt => false | _ => true end.

(** Modelled from the spec: [p == v]. *)
Definition eq (p : t) (v : string) : bool :=
  match version_cmp (version p) v with Eq => true | _ => false end.

End Query.

End PkgConfig.

(** ** Loose version comparison *)

Module LooseVersion.

(** Modelled from the spec: the value of a segment made of decimal digits
    only. *)
Fixpoint digits_value (acc : N) (s : string) : option N :=
  match s with
  | EmptyString => Some acc
  | String c s' =>
      match Ascii.is_nat c with
      | Some d => digits_value (10 * acc + N.of_nat d)%N s'
      | None => None
      end
  end.

(** Modelled from the spec: a segment is numeric or not. *)
Definition segment : Type := N + string.

(** Modelled from the spec: the reading of one dot-separated segment. *)
Definition parse_segment (s : string) : segment :=
  match s with
  | EmptyString => inr s
  | _ => match digits_value 0%N s with Some n => inl n | None => inr s end
  end.

(** Modelled from the spec: numeric segments compare numerically, other
    segments lexically; a numeric segment sorts before a non-numeric one. *)
Definition segment_cmp (a b : segment) : comparison :=
  match a, b with
  | inl m, inl n => (m ?= n)%N
  | inr s, inr t => String.compare s t
  | inl _, inr _ => Lt
  | inr _, inl _ => Gt
  end.

(** Modelled from the spec: the segment-wise comparison. *)
Fixpoint segments_cmp (a b : list segment) : comparison :=
  match a, b with
  | [], [] => Eq
  | [], _ :: _ => Lt
  | _ :: _, [] => Gt
  | x :: a', y :: b' =>
      match segment_cmp x y with
      | Eq => segments_cmp a' b'
      | c => c
      end
  end.

(** Modelled from the spec: the loose, dot-segment-wise comparison of two
    version strings (the comparison of [distutils.version.LooseVersion],
    which is not among the sources). *)
Definition compare (v w : string) : comparison :=
  segments_cmp (parse_segment <$> str_split "."%char v)
               (parse_segment <$> str_split "."%char w).

End LooseVersion.

(** ** __init__.py: [check_packages] *)

Section CheckPackages.
Context (registry : gmap string PkgConfig.metadata).
Context (version_cmp : string → string → comparison).
Import PkgConfig.

(** The body of the loop up to [retval.append(p)]: parse the requirement,
    resolve the package and assert the comparator.  The branch of ['=='] is
    the source's: it asserts [p <= splitreq[2]]. *)
Definition check_requirement (requirement : string) : result PkgConfig.t :=
  match Regex.split requirement with
  | [nm] => pkgconfig registry nm
  | [nm; op; ver] =>
      p ← pkgconfig registry nm;
      (if decide (op = ">") then
         assert (gt version_cmp p ver) (UnsatisfiedRequirement (name p) op ver)
       else if decide (op = ">=") then
         assert (ge version_cmp p ver) (UnsatisfiedRequirement (name p) op ver)
       else if decide (op = "<") then
         assert (lt version_cmp p ver) (UnsatisfiedRequirement (name p) op ver)
       else if decide (op = "<=") then
         assert (le version_cmp p ver) (UnsatisfiedRequirement (name p) op ver)
       else if decide (op = "==") then
         assert (le version_cmp p ver) (UnsatisfiedRequirement (name p) op ver)
       else Raise (MalformedRequirement requirement));;
      Ok p
  | _ => Raise (MalformedRequirement requirement)
  end.

(** The loop of [check_packages] over [uniq(packages)], with the set
    [used] and the list [retval]. *)
Fixpoint check_packages_loop (requirements : list string) (used : gset string)
         (retval : list PkgConfig.t) : result (list PkgConfig.t) :=
  match requirements with
  | [] => Ok retval
  | requirement :: requirements' =>
      p ← check_requirement requirement;
      let retval := retval ++ [p] in
      if decide (name p ∈ used) then Raise DuplicateRequirement
      else check_packages_loop requirements' ({[name p]} ∪ used) retval
  end.

Definition check_packages (packages : list string) : result (list PkgConfig.t) :=
  check_packages_loop (uniq packages) ∅ [].

End CheckPackages.

(** ** __init__.py: [generate_self_macros] *)

Section SelfMacros.
(** [sys.version_info[0]] *)
Context (python_major : nat).

(** The split of [s] at its last ['.'], if it has one. *)
Fixpoint rpartition_dot (s : string) : option (string * string) :=
  match s with
  | EmptyString => None
  | String c s' =>
      match rpartition_dot s' with
      | Some (a, b) => Some (String c a, b)
      | None => if decide (c = "."%char) then Some (EmptyString, s') else None
      end
  end.

(** [s.rsplit('.', 1)] *)
Definition rsplit_dot (s : string) : list string :=
  match rpartition_dot s with
  | Some (a, b) => [a; b]
  | None => [s]
  end.

(** ['"%s"' % s] *)
Definition quoted (s : string) : string :=
  String "034"%char (s +:+ String "034"%char EmptyString).

(** [version] is [None] when the caller gave no version. *)
Definition generate_self_macros (extname : string) (version : option string)
  : result (list (string * string)) :=
  match version with
  | None => Ok []
  | Some version =>
      let s := rsplit_dot extname in
      s0 ← index s 0;
      s1 ← index s 1;
      let retval := [("BOB_EXT_MODULE_PREFIX", quoted s0);
                     ("BOB_EXT_MODULE_NAME", quoted s1)] in
      let retval :=
        if (3 <=? python_major)%nat
        then retval ++ [("BOB_EXT_ENTRY_NAME", "PyInit_" +:+ s1)]
        else retval ++ [("BOB_EXT_ENTRY_NAME", "init" +:+ s1)] in
      let retval :=
        if decide (version = EmptyString) then retval
        else retval ++ [("BOB_EXT_MODULE_VERSION", quoted version)] in
      Ok retval
  end.

End SelfMacros.

(** ** __init__.py: [reorganize_isystem] *)

Section Isystem.

(** The scanning loop: [args] is what remains from index [i] on, [skip]
    the flag of the same name. *)
Fixpoint isystem_scan (args : list string) (skip : bool)
         (remainder includes : list string) : result (list string * list string) :=
  match args with
  | [] => Ok (remainder, includes)
  | arg :: args' =>
      if skip then isystem_scan args' false remainder includes
      else if decide (arg = "-isystem") then
        path ← index args' 0;
        isystem_scan args' true remainder (includes ++ [path])
      else isystem_scan args' false (remainder ++ [arg]) includes
  end.

(** The order of the sort key [(-len(item), item)]. *)
Definition isystem_key_le (a b : string) : Prop :=
  String.length b < String.length a ∨
  (String.length a = String.length b ∧ String.le a b).

Global Instance isystem_key_le_dec : RelDecision isystem_key_le.
Proof. intros a b. unfold isystem_key_le. apply _. Defined.

Definition reorganize_isystem (args : list string) : result (list string) :=
  '(remainder, includes) ← isystem_scan args false [] [];
  let includes := reverse (uniq (reverse includes)) in
  let includes := merge_sort isystem_key_le includes in
  Ok (remainder ++ concat ((λ k, ["-isystem"; k]) <$> includes)).

End Isystem.

(** ** utils.py: the filesystem probe *)

Module Probe.

(** The part of the process environment and of the filesystem the probe
    reads: [os.environ], [os.pathsep], [glob.glob], [os.path.exists],
    [sys.platform] and [platform.architecture()[0]]. *)
Record system : Type := System {
  environ : gmap string string;
  pathsep : ascii;
  glob : string → list string;
  path_exists : string → bool;
  sys_platform : string;
  architecture : string }.

Definition DEFAULT_PREFIXES : list string := ["/usr"; "/usr/local"; "/opt/local"].

(** [os.path.join(a, b)] of [posixpath]. *)
Fixpoint ends_with_slash (s : string) : bool :=
  match s with
  | EmptyString => false
  | String c EmptyString => bool_decide (c = "/"%char)
  | String _ s' => ends_with_slash s'
  end.

Definition path_join (a b : string) : string :=
  if startswith "/" b then b
  else if decide (a = EmptyString) then b
  else if ends_with_slash a then a +:+ b
  else a +:+ "/" +:+ b.

(** [os.path.dirname(p)] of [posixpath]: the text up to the last ['/'],
    without its trailing slashes unless it consists of slashes only. *)
Fixpoint dirname_head (p : string) : option string :=
  match p with
  | EmptyString => None
  | String c p' =>
      match dirname_head p' with
      | Some h => Some (String c h)
      | None => if decide (c = "/"%char) then Some (String c EmptyString) else None
      end
  end.

Fixpoint rstrip_slash (s : string) : string :=
  match s with
  | EmptyString => EmptyString
  | String c s' =>
      match rstrip_slash s' with
      | EmptyString => if decide (c = "/"%char) then EmptyString else String c EmptyString
      | r => String c r
      end
  end.

Definition dirname (p : string) : string :=
  match dirname_head p with
  | None => EmptyString
  | Some head =>
      match rstrip_slash head with
      | EmptyString => head
      | stripped => stripped
      end
  end.

Section Find.
Context (sys : system).

(** The value of [search] in [find_file] after [search = uniq(search)]:
    the prefixes to probe, before the combination with the subpaths and
    before the existence filter.  [prefixes] is [None] for the default. *)
Definition search_prefixes (prefixes : option (list string)) : list string :=
  let search := [] in
  let search :=
    match environ sys !! "BOB_PREFIX_PATH" with
    | Some value => search ++ str_split (pathsep sys) value
    | None => search
    end in
  let search :=
    match prefixes with
    | Some ((_ :: _) as prefixes) => search ++ prefixes
    | _ => search
    end in
  let search := search ++ DEFAULT_PREFIXES in
  uniq search.

Definition find_file (name : string) (subpaths prefixes : option (list string))
  : list string :=
  let search := search_prefixes prefixes in
  let search :=
    match subpaths with
    | Some ((_ :: _) as subpaths) =>
        concat ((λ s, (path_join s <$> subpaths) ++ [s]) <$> search)
    | _ => search
    end in
  let search := concat (glob sys <$> search) in
  filter (λ candidate, path_exists sys candidate = true)
         ((λ path, path_join path name) <$> search).

Definition find_header (name : string) (subpaths prefixes : option (list string))
  : list string :=
  let my_subpaths :=
    match subpaths with
    | Some ((_ :: _) as subpaths) => path_join "include" <$> subpaths
    | _ => ["include"]
    end in
  find_file name (Some my_subpaths) prefixes.

Definition find_library (name : string) (version : option string)
           (subpaths prefixes : option (list string)) (only_static : bool)
  : list string :=
  let libpaths := ["lib"] in
  let libpaths :=
    if decide (architecture sys = "32bit")
    then libpaths ++ [path_join "lib" "i386-linux-gnu"; "lib32"]
    else libpaths ++ [path_join "lib" "x86_64-linux-gnu"; "lib64"] in
  let my_subpaths :=
    match subpaths with
    | Some ((_ :: _) as subpaths) =>
        concat ((λ lp, path_join lp <$> subpaths) <$> libpaths)
    | _ => libpaths
    end in
  let extensions :=
    if only_static then [".a"]
    else if decide (sys_platform sys = "darwin") then [".dylib"; ".a"]
    else if decide (sys_platform sys = "win32") then [".dll"; ".a"]
    else [".so"; ".a"] in
  let versioned :=
    match version with
    | Some ((String _ _) as version) =>
        concat ((λ ext,
                  let libname :=
                    if decide (sys_platform sys = "darwin")
                    then "lib" +:+ name +:+ "." +:+ version +:+ ext
                    else "lib" +:+ name +:+ ext +:+ "." +:+ version in
                  find_file libname (Some my_subpaths) prefixes) <$> extensions)
    | _ => []
    end in
  versioned ++
  concat ((λ ext, find_file ("lib" +:+ name +:+ ext) (Some my_subpaths) prefixes)
            <$> extensions).

End Find.

End Probe.

(** ** The Boost adapter *)

Module Boost.

(** Modelled from the spec: the class [boost] of [bob/extension/boost.py],
    which is not among the sources: the resolved include directory, the
    macros encoding the resolved version, and [libconfig(modules)], which
    returns the library directories and the library names of the requested
    modules. *)
Record t : Type := {
  include_directory : string;
  macros : list (string * string);
  libconfig : list string → list string * list string }.

End Boost.

(** ** __init__.py: [get_bob_libraries] *)

Section BobLibraries.
Context (sys : Probe.system).
(** [pkg_resources.resource_filename] *)
Context (resource_filename : string → string → string).

(** [s.replace('.', '_')] *)
Fixpoint replace_dot (s : string) : string :=
  match s with
  | EmptyString => EmptyString
  | String c s' =>
      String (if decide (c = "."%char) then "_"%char else c) (replace_dot s')
  end.

(** The loop over the normalized packages, with the three lists it fills. *)
Fixpoint bob_libraries_loop (bob_packages : list string)
         (includes libraries library_directories : list string)
  : list string * list string * list string :=
  match bob_packages with
  | [] => (includes, libraries, library_directories)
  | package :: bob_packages' =>
      let includes := includes ++ [resource_filename package "include"] in
      let lib_name := replace_dot package in
      let libs :=
        Probe.find_library sys lib_name None None
                           (Some [resource_filename package "."]) false in
      match libs with
      | lib0 :: _ =>
          bob_libraries_loop bob_packages' includes (libraries ++ [lib_name])
                             (library_directories ++ [Probe.dirname lib0])
      | [] => bob_libraries_loop bob_packages' includes libraries library_directories
      end
  end.

Definition get_bob_libraries (bob_packages : option (list string))
  : result (list string * list string * list string) :=
  match bob_packages with
  | None => Ok ([], [], [])
  | Some bob_packages =>
      bob_packages ← normalize_requirements ((λ k, lower (strip k)) <$> bob_packages);
      Ok (bob_libraries_loop bob_packages [] [] [])
  end.

End BobLibraries.

(** ** Python list objects shared with the caller *)

Module Heap.

(** The identity of a list object, and the store of the list objects the
    caller passes in.  [Extension.__init__] appends to some of them in
    place, so they are modelled by reference. *)
Definition ref : Type := nat.
Abbreviation heap := (gmap ref (list string)).

(** Computations that read and update the store and may raise. *)
Definition M (A : Type) : Type := heap → result (A * heap).

Definition ret {A} (a : A) : M A := λ h, Ok (a, h).
Definition bind {A B} (m : M A) (k : A → M B) : M B :=
  λ h, match m h with
       | Ok (a, h') => k a h'
       | Raise e => Raise e
       end.
Definition lift {A} (r : result A) : M A :=
  λ h, match r with Ok a => Ok (a, h) | Raise e => Raise e end.

(** A new list object [list(l)]. *)
Definition new_list (l : list string) : M ref :=
  λ h, let r := fresh (dom h) in Ok (r, <[r := l]> h).

(** The present contents of a list object. *)
Definition read (r : ref) : M (list string) :=
  λ h, Ok (default [] (h !! r), h).

(** [r.extend(l)], [r += l] and, for a one-element [l], [r.append(x)]. *)
Definition extend (r : ref) (l : list string) : M unit :=
  λ h, Ok (tt, <[r := default [] (h !! r) ++ l]> h).

End Heap.

Global Instance heap_ret : MRet Heap.M := @Heap.ret.
Global Instance heap_bind : MBind Heap.M := λ A B k m, Heap.bind m k.

(** ** __init__.py: [Extension.__init__] *)

Module Extension.

Import Heap.

Definition macro : Type := string * string.

(** The keyword arguments of [Extension.__init__] that it reads.  A value
    that is a string or a list of strings is [inl] or [inr].  The three
    list arguments the constructor updates in place are references into
    the store; the others, which it only reads, are values. *)
Record kwargs : Type := Kwargs {
  kw_packages : option (string + list string);
  kw_bob_packages : option (list string);
  kw_system_include_dirs : option ref;
  kw_boost_modules : option (string + list string);
  kw_version : option string;
  kw_include_dirs : option ref;
  kw_define_macros : option (list macro);
  kw_extra_compile_args : option (list string);
  kw_library_dirs : option (list string);
  kw_libraries : option (list string);
  kw_runtime_library_dirs : option ref }.

(** The constructed object: the arguments handed to the constructor of the
    base class, and the attributes set on [self]. *)
Record t : Type := Ext {
  name : string;
  sources : list string;
  include_dirs : list string;
  library_dirs : list string;
  libraries : list string;
  runtime_library_dirs : option (list string);
  define_macros : list macro;
  extra_compile_args : list string;
  language : string;
  bob_packages : option (list string);
  pkg_includes : list string;
  pkg_libraries : list string;
  pkg_library_directories : list string;
  pkg_macros : list macro }.

(** The dictionary [parameters] and the [pkg_*] attributes while they are
    being filled. *)
Record params : Type := Params {
  p_define_macros : list macro;
  p_extra_compile_args : list string;
  p_library_dirs : list string;
  p_libraries : list string;
  p_pkg_includes : list string;
  p_pkg_libraries : list string;
  p_pkg_library_directories : list string;
  p_pkg_macros : list macro }.

(** The environment of the constructor. *)
Record world : Type := World {
  sys : Probe.system;
  platform_system : string;                        (* platform.system() *)
  python_major : nat;                              (* sys.version_info[0] *)
  resource_filename : string → string → string;    (* pkg_resources *)
  registry : gmap string PkgConfig.metadata;       (* pkg-config *)
  version_cmp : string → string → comparison;      (* LooseVersion *)
  boost : string → result Boost.t }.               (* the boost adapter *)

(** [l.extend(v)] on a fresh list, for an argument that is a string or a
    list: a string is appended, a list is copied. *)
Definition str_or_list (v : option (string + list string)) : list string :=
  match v with
  | None => []
  | Some (inl s) => [s]
  | Some (inr l) => l
  end.

(** The loop that extracts the Boost requirement: [i] is the index of the
    iteration, [packages] the list as deleted from so far.  The loop ends
    when [i] reaches the present length of the list; [fuel] bounds the
    number of iterations by the initial length. *)
Fixpoint extract_boost (fuel i : nat) (packages : list string) (boost_req : string)
  : string * list string :=
  match fuel with
  | O => (boost_req, packages)
  | S fuel' =>
      match packages !! i with
      | None => (boost_req, packages)
      | Some pkg =>
          if startswith "boost" pkg
          then extract_boost fuel' (S i) (delete i packages) pkg
          else extract_boost fuel' (S i) packages boost_req
      end
  end.

(** [s.replace(old, '')]: [skip] counts the characters of an occurrence of
    [old] still to be dropped. *)
Fixpoint remove_all (old : string) (skip : nat) (s : string) : string :=
  match s with
  | EmptyString => EmptyString
  | String c s' =>
      match skip with
      | S k => remove_all old k s'
      | O =>
          if startswith old s then remove_all old (String.length old - 1) s'
          else String c (remove_all old 0 s')
      end
  end.

Section Init.
Context (w : world).

(** The library names a resolved package contributes (lines 341 to 354):
    [pkg.name.find('bob-') == 0] holds when the name starts with [bob-]. *)
Definition package_libs (pkg : PkgConfig.t) : result (list string) :=
  if startswith "bob-" (PkgConfig.name pkg) then
    if decide (platform_system w = "Darwin") then
      Ok ((λ k, k +:+ "." +:+ PkgConfig.version pkg) <$> PkgConfig.libraries pkg)
    else if decide (platform_system w = "Linux") then
      Ok ((λ k, ":lib" +:+ k +:+ ".so." +:+ PkgConfig.version pkg)
            <$> PkgConfig.libraries pkg)
    else Raise UnsupportedPlatform
  else Ok (PkgConfig.libraries pkg).

(** The loop over the include directories of one package. *)
Fixpoint add_includes (dirs : list string) (user_includes system_includes : ref)
         (pkg_includes : list string) : M (list string) :=
  match dirs with
  | [] => mret pkg_includes
  | k :: dirs' =>
      user ← read user_includes;
      if decide (k ∈ user ∨ k ∈ pkg_includes)
      then add_includes dirs' user_includes system_includes pkg_includes
      else
        extend system_includes [k];;
        add_includes dirs' user_includes system_includes (pkg_includes ++ [k])
  end.

(** The loop over the resolved packages. *)
Fixpoint add_packages (pkgs : list PkgConfig.t) (user_includes system_includes : ref)
         (p : params) : M params :=
  match pkgs with
  | [] => mret p
  | pkg :: pkgs' =>
      let define_macros := p_define_macros p ++ PkgConfig.package_macros pkg in
      let pkg_macros := p_pkg_macros p ++ PkgConfig.package_macros pkg in
      pkg_includes ← add_includes (PkgConfig.include_directories pkg)
                                  user_includes system_includes (p_pkg_includes p);
      let library_dirs := p_library_dirs p ++ PkgConfig.library_directories pkg in
      let pkg_library_directories :=
        p_pkg_library_directories p ++ PkgConfig.library_directories pkg in
      libs ← lift (package_libs pkg);
      add_packages pkgs' user_includes system_includes
        (Params define_macros (p_extra_compile_args p) library_dirs
                (p_libraries p ++ libs) pkg_includes (p_pkg_libraries p ++ libs)
                pkg_library_directories pkg_macros)
  end.

(** The Boost block (lines 303 to 321). *)
Definition add_boost (boost_req : string) (boost_modules : list string)
           (user_includes system_includes : ref) (p : params) : M params :=
  if decide (boost_req = EmptyString) then mret p
  else
    boost_pkg ← lift (boost w (strip (remove_all "boost" 0 boost_req)));
    let define_macros := p_define_macros p ++ Boost.macros boost_pkg in
    user ← read user_includes;
    pkg_includes ←
      (if decide (Boost.include_directory boost_pkg ∈ user)
       then mret (p_pkg_includes p)
       else
         extend system_includes [Boost.include_directory boost_pkg];;
         mret (p_pkg_includes p ++ [Boost.include_directory boost_pkg]));
    let '(boost_libdirs, boost_libraries) :=
      match boost_modules with
      | [] => ([], [])
      | _ => Boost.libconfig boost_pkg boost_modules
      end in
    mret (Params define_macros (p_extra_compile_args p)
                 (p_library_dirs p ++ boost_libdirs)
                 (p_libraries p ++ boost_libraries) pkg_includes
                 (p_pkg_libraries p ++ boost_libraries)
                 (p_pkg_library_directories p ++ boost_libdirs) (p_pkg_macros p)).

(** [kwargs[key] = parameters[key] + kwargs[key]] when the key is present,
    [parameters[key]] otherwise. *)
Definition merged {A} (ours : list A) (theirs : option (list A)) : list A :=
  match theirs with
  | Some l => ours ++ l
  | None => ours
  end.

Definition init (name : string) (sources : list string) (kw : kwargs) : M t :=
  let packages := str_or_list (kw_packages kw) in
  packages ← lift (normalize_requirements ((λ k, lower (strip k)) <$> packages));
  let bob_packages := kw_bob_packages kw in
  '(bob_includes, bob_libraries, bob_library_dirs) ←
    lift (get_bob_libraries (sys w) (resource_filename w) bob_packages);
  system_includes ←
    match kw_system_include_dirs kw with
    | Some r => mret r
    | None => new_list []
    end;
  let '(boost_req, packages) := extract_boost (length packages) 0 packages "" in
  let boost_modules := str_or_list (kw_boost_modules kw) in
  let boost_req :=
    match boost_modules with
    | _ :: _ => if decide (boost_req = EmptyString) then "boost >= 1.0" else boost_req
    | [] => boost_req
    end in
  let version := kw_version kw in
  self_macros ← lift (generate_self_macros (python_major w) name version);
  let extra_compile_args :=
    if decide (platform_system w = "Darwin")
    then ["-std=c++0x"] ++ ["-Wno-#warnings"] else ["-std=c++0x"] in
  let parameters :=
    Params self_macros extra_compile_args [] bob_libraries [] [] [] [] in
  user_includes ←
    match kw_include_dirs kw with
    | Some r => mret r
    | None => new_list []
    end;
  parameters ← add_boost boost_req boost_modules user_includes system_includes parameters;
  pkgs ← lift (check_packages (registry w) (version_cmp w) packages);
  parameters ← add_packages pkgs user_includes system_includes parameters;
  isystem ← read system_includes;
  let extra_compile_args :=
    p_extra_compile_args parameters ++ concat ((λ k, ["-isystem"; k]) <$> isystem) in
  let define_macros := uniq (merged (p_define_macros parameters) (kw_define_macros kw)) in
  let extra_compile_args := merged extra_compile_args (kw_extra_compile_args kw) in
  let library_dirs := uniq (merged (p_library_dirs parameters) (kw_library_dirs kw)) in
  let libraries := uniq (merged (p_libraries parameters) (kw_libraries kw)) in
  let self_include_dir := resource_filename w "bob.extension" "include" in
  include_dirs ←
    match kw_include_dirs kw with
    | Some r => mret r
    | None => new_list []
    end;
  extend include_dirs [self_include_dir];;
  user ← read user_includes;
  own ← read include_dirs;
  let include_dirs := user ++ bob_includes ++ own in
  let include_dirs := uniq include_dirs in
  extra_compile_args ← lift (reorganize_isystem extra_compile_args);
  runtime_library_dirs ←
    (if decide (platform_system w = "Linux") then
       runtime ←
         match kw_runtime_library_dirs kw with
         | Some r => mret r
         | None => new_list []
         end;
       extend runtime library_dirs;;
       dirs ← read runtime;
       mret (Some (uniq dirs))
     else
       match kw_runtime_library_dirs kw with
       | Some r => dirs ← read r; mret (Some dirs)
       | None => mret None
       end);
  let library_dirs := library_dirs ++ bob_library_dirs in
  mret (Ext name sources include_dirs library_dirs libraries runtime_library_dirs
            define_macros extra_compile_args "c++" bob_packages
            (p_pkg_includes parameters) (p_pkg_libraries parameters)
            (p_pkg_library_directories parameters) (p_pkg_macros parameters)).

End Init.

End Extension.

(** ** __init__.py: [Library.compile] and [build_ext.run] *)

Module BuildExt.

(** The attributes of a [Library] that [compile] and [run] read. *)
Record library : Type := Lib {
  c_name : string;
  c_package_directory : string;
  c_target_directory : string;
  c_cmake : string }.

(** A build target: an [Extension] object, which is a [Library] exactly
    when [as_library] is set ([isinstance(ext, Library)]). *)
Record target : Type := Target {
  ext : Extension.t;
  as_library : option library }.

(** [self.extensions] is a list of target objects.  [run] assigns to the
    attributes of these objects, so the list holds their identities and the
    objects live in a store. *)
Abbreviation objects := (gmap Heap.ref target).

Definition is_library (objs : objects) (r : Heap.ref) : Prop :=
  ∃ t l, objs !! r = Some t ∧ as_library t = Some l.

Global Instance is_library_dec objs r : Decision (is_library objs r).
Proof.
  unfold is_library. destruct (objs !! r) as [[e [l|]]|] eqn:Hr.
  - left. eauto.
  - right. intros (t & l & [= <-] & ?). done.
  - right. intros (t & l & ? & ?). done.
Defined.

Section Run.
(** [self.build_lib], and the exit code of [subprocess.call(command, cwd)]. *)
Context (build_lib : string).
Context (call : list string → string → Z).

(** [Library.compile(build_directory)]: the descriptor file is written by
    the external generator; then the configure step and the build step run
    in turn. *)
Definition compile (l : library) (build_directory : string) : result unit :=
  let command := [c_cmake l; c_package_directory l] in
  if decide (call command build_directory ≠ 0%Z)
  then Raise (OSError "Could not generate makefiles with CMake")
  else if decide (call ["make"] build_directory ≠ 0%Z)
  then Raise (OSError "CMake compilation stopped with an error; stopping ...")
  else Ok tt.

(** The first loop of [run]: the libraries are compiled in the order of
    [self.extensions] and the three lists are filled. *)
Fixpoint build_libraries (extensions : list Heap.ref) (objs : objects)
         (libs lib_dirs include_dirs : list string)
  : result (list string * list string * list string) :=
  match extensions with
  | [] => Ok (libs, lib_dirs, include_dirs)
  | r :: extensions' =>
      match objs !! r with
      | Some (Target e (Some l)) =>
          let build_dir := Probe.path_join build_lib (Extension.name e) in
          compile l build_dir;;
          build_libraries extensions' objs
            (libs ++ [c_name l])
            (lib_dirs ++ [c_target_directory l])
            (include_dirs ++ [Probe.path_join (c_target_directory l) "include"])
      | _ => build_libraries extensions' objs libs lib_dirs include_dirs
      end
  end.

(** [x if x else []] *)
Definition or_empty (x : list string) : list string :=
  match x with
  | [] => []
  | _ => x
  end.

(** The three assignments to one extension object. *)
Definition set_defaults (libs lib_dirs include_dirs : list string) (t : target)
  : target :=
  let e := ext t in
  Target
    (Extension.Ext (Extension.name e) (Extension.sources e)
       (include_dirs ++ or_empty (Extension.include_dirs e))
       (lib_dirs ++ or_empty (Extension.library_dirs e))
       (libs ++ or_empty (Extension.libraries e))
       (Extension.runtime_library_dirs e) (Extension.define_macros e)
       (Extension.extra_compile_args e) (Extension.language e)
       (Extension.bob_packages e) (Extension.pkg_includes e)
       (Extension.pkg_libraries e) (Extension.pkg_library_directories e)
       (Extension.pkg_macros e))
    (as_library t).

(** The second loop of [run], over the remaining extensions. *)
Fixpoint propagate (extensions : list Heap.ref) (libs lib_dirs include_dirs : list string)
         (objs : objects) : objects :=
  match extensions with
  | [] => objs
  | r :: extensions' =>
      propagate extensions' libs lib_dirs include_dirs
                (alter (set_defaults libs lib_dirs include_dirs) r objs)
  end.

(** [run]: returns [self.extensions] and the objects as they are handed to
    the [run] of the base class. *)
Definition run (extensions : list Heap.ref) (objs : objects)
  : result (list Heap.ref * objects) :=
  '(libs, lib_dirs, include_dirs) ← build_libraries extensions objs [] [] [];
  let extensions := filter (λ r, ¬ is_library objs r) extensions in
  Ok (extensions, propagate extensions libs lib_dirs include_dirs objs).

End Run.

End BuildExt.

(** ** Predicates used in the statements *)

Section Predicates.
Import Regex.

Fixpoint all_chars (p : ascii → bool) (s : string) : bool :=
  match s with
  | String c s' => p c && all_chars p s'
  | EmptyString => true
  end.

(** The first character of [s], if any, satisfies [p]. *)
Definition head_is (p : ascii → bool) (s : string) : bool :=
  match s with
  | String c _ => p c
  | EmptyString => false
  end.

(** [s] is empty or its last character is not white space. *)
Fixpoint no_trailing_space (s : string) : bool :=
  match s with
  | EmptyString => true
  | String c EmptyString => negb (Py.is_space c)
  | String _ s' => no_trailing_space s'
  end.

Definition not_cmp (c : ascii) : bool := negb (is_cmp c).

(** What the grammar guarantees of a parsed [(op, version)] pair and of a
    dictionary entry. *)
Definition valid_constraint (v : string * string) : Prop :=
  v.1 ≠ "" ∧ all_chars is_cmp v.1 = true ∧
  head_is Py.is_space v.2 = false ∧ all_chars not_cmp v.2 = true.

Definition valid_entry (e : string * list (string * string)) : Prop :=
  all_chars not_cmp e.1 = true ∧
  (e.2 ≠ [] → no_trailing_space e.1 = true) ∧
  Forall valid_constraint e.2.

(** The package a requirement string names: the first piece of its split. *)
Definition requirement_name (requirement : string) : string :=
  match split requirement with
  | nm :: _ => nm
  | [] => requirement
  end.

(** A compiler-argument list read from left to right: each [-isystem]
    flag takes the argument after it as its path; [remainder] are the other
    arguments and [includes] the paths, both in order.  A list that ends in
    a flag without a path has no reading. *)
Inductive isystem_parse : list string → list string → list string → Prop :=
| isystem_parse_nil : isystem_parse [] [] []
| isystem_parse_pair path args remainder includes :
    isystem_parse args remainder includes →
    isystem_parse ("-isystem" :: path :: args) remainder (path :: includes)
| isystem_parse_other arg args remainder includes :
    arg ≠ "-isystem" →
    isystem_parse args remainder includes →
    isystem_parse (arg :: args) (arg :: remainder) includes.

(** The [-isystem] pairs of a list of paths. *)
Definition isystem_pairs (paths : list string) : list string :=
  concat ((λ k, ["-isystem"; k]) <$> paths).

Definition not_dot (c : ascii) : bool := negb (bool_decide (c = "."%char)).

(** The prefixes named by the environment variable [BOB_PREFIX_PATH]. *)
Definition env_prefixes (sys : Probe.system) : list string :=
  match Probe.environ sys !! "BOB_PREFIX_PATH" with
  | Some value => str_split (Probe.pathsep sys) value
  | None => []
  end.

(** The library targets among [extensions], in declaration order. *)
Definition library_targets (objs : BuildExt.objects) (extensions : list Heap.ref)
  : list (Extension.t * BuildExt.library) :=
  omap (λ r, match objs !! r with
             | Some (BuildExt.Target e (Some l)) => Some (e, l)
             | _ => None
             end) extensions.

(** How often the object [r] is listed. *)
Definition occurrences (r : Heap.ref) (extensions : list Heap.ref) : nat :=
  length (filter (λ x, x = r) extensions).

(** Every list object of [h] is still there in [h'], with its old
    contents as a prefix of the new ones. *)
Definition grows (h h' : gmap Heap.ref (list string)) : Prop :=
  ∀ r l, h !! r = Some l → ∃ l', h' !! r = Some (l ++ l').

(** The Boost loop read off the list from left to right: an entry that
    starts with [boost] becomes the requirement and is deleted, and the
    entry after it is stepped over and kept, whatever it is. *)
Fixpoint boost_scan (packages : list string) (boost_req : string)
  : string * list string :=
  match packages with
  | [] => (boost_req, [])
  | pkg :: packages' =>
      if startswith "boost" pkg then
        match packages' with
        | [] => (pkg, [])
        | next :: packages'' =>
            let '(req, kept) := boost_scan packages'' pkg in (req, next :: kept)
        end
      else
        let '(req, kept) := boost_scan packages' boost_req in (req, pkg :: kept)
  end.

(** No entry that starts with [boost] comes directly after another. *)
Fixpoint boost_isolated (packages : list string) : Prop :=
  match packages with
  | [] => True
  | pkg :: packages' =>
      (startswith "boost" pkg = true →
       ∀ next, head packages' = Some next → startswith "boost" next = false) ∧
      boost_isolated packages'
  end.

End Predicates.

(** ** Sample data for the concrete evaluations *)

Module Sample.

(** A registry in which [pkga] is installed at version 1.0 and the sibling
    package [bob-core] at version 2.1. *)
Definition registry : gmap string PkgConfig.metadata :=
  {[ "pkga" := PkgConfig.Metadata "1.0" [] ["/opt/pkga/include"] ["pkga"] ["/opt/pkga/lib"];
     "bob-core" := PkgConfig.Metadata "2.1" [] [] ["bob_core"] [] ]}.

Definition pkga : PkgConfig.t :=
  PkgConfig.Pkg "pkga" "1.0" [] ["/opt/pkga/include"] ["pkga"] ["/opt/pkga/lib"].

(** A filesystem on which nothing is found, a Boost adapter that resolves
    every requirement, and the worlds built from them for a given
    [platform.system()]. *)
Definition system : Probe.system :=
  Probe.System ∅ ":"%char (λ p, [p]) (λ _, false) "linux2" "64bit".

Definition resource_filename (package resource : string) : string :=
  "/site-packages/" +:+ package +:+ "/" +:+ resource.

Definition boost_pkg : Boost.t :=
  {| Boost.include_directory := "/usr/include/boost";
     Boost.macros := [("BOOST_VERSION", "1.55.0")];
     Boost.libconfig := λ modules, (["/usr/lib"], (λ m, "boost_" +:+ m) <$> modules) |}.

Definition world (platform : string) : Extension.world :=
  Extension.World system platform 3 resource_filename registry
                  LooseVersion.compare (λ _, Ok boost_pkg).


(** The caller's list object [include_dirs], at reference 0. *)
Definition caller_heap : Heap.heap := {[ 0 := ["/my/include"] ]}.

Definition with_include_dirs : Extension.kwargs :=
  Extension.Kwargs None None None None None (Some 0) None None None None None.

Definition with_packages (packages : list string) : Extension.kwargs :=
  Extension.Kwargs (Some (inr packages)) None None None None None None None None None None.

(** One library target, at reference 0, and one extension target without
    libraries of its own, at reference 1. *)
Definition extension_of (name : string) (libraries : list string) : Extension.t :=
  Extension.Ext name [] [] [] libraries None [] [] "c++" None [] [] [] [].

Definition targets : BuildExt.objects :=
  {[ 0 := BuildExt.Target (extension_of "bob.example.bob_example" [])
            (Some (BuildExt.Lib "bob_example" "/src" "/src/bob/example" "/usr/bin/cmake"));
     1 := BuildExt.Target (extension_of "bob.example._library" []) None ]}.

End Sample.

(** ** Further predicates *)

Section MorePredicates.

(** The reading of one requirement string: its name alone, or its name
    with an [(op, version)] pair; [None] when the split has neither one
    nor three pieces. *)
Definition parse_requirement (requirement : string)
  : option (string * option (string * string)) :=
  match Regex.split requirement with
  | [nm] => Some (nm, None)
  | [nm; op; ver] => Some (nm, Some (op, ver))
  | _ => None
  end.

(** A requirement string that has a reading. *)
Definition well_formed (requirement : string) : Prop :=
  is_Some (parse_requirement requirement).

(** The [(op, version)] pairs the requirements of [R] give for the package
    [nm], in the order of [R]. *)
Definition constraints_of (nm : string) (R : list string) : list (string * string) :=
  omap (λ r, match parse_requirement r with
             | Some (n, Some c) => if decide (n = nm) then Some c else None
             | _ => None
             end) R.

(** The value the dictionary [parsed] holds for a key, the empty list when
    the key is missing. *)
Fixpoint dict_values (parsed : parsed_dict) (key : string) : list (string * string) :=
  match parsed with
  | [] => []
  | (k, v) :: parsed' => if decide (k = key) then v else dict_values parsed' key
  end.

(** The strings [emit_all] prints for one entry of the dictionary. *)
Definition emit_group (e : string * list (string * string)) : list string :=
  match uniq e.2 with
  | [] => [e.1]
  | value' => map (λ v, join " " [e.1; v.1; v.2]) value'
  end.

(** The test [check_packages] makes for a comparator token: the token
    ['=='] is tested with [<=], and a token outside the five has none. *)
Definition comparator (version_cmp : string → string → comparison) (op : string)
  : option (PkgConfig.t → string → bool) :=
  if decide (op = ">") then Some (PkgConfig.gt version_cmp)
  else if decide (op = ">=") then Some (PkgConfig.ge version_cmp)
  else if decide (op = "<") then Some (PkgConfig.lt version_cmp)
  else if decide (op = "<=") then Some (PkgConfig.le version_cmp)
  else if decide (op = "==") then Some (PkgConfig.le version_cmp)
  else None.

(** [suffix] ends the string [s]. *)
Definition ends_with (suffix s : string) : Prop := ∃ pre, s = pre +:+ suffix.

(** The extension of a shared library on the platform. *)
Definition shared_extension (sys : Probe.system) : string :=
  if decide (Probe.sys_platform sys = "darwin") then ".dylib"
  else if decide (Probe.sys_platform sys = "win32") then ".dll"
  else ".so".

(** The file name of a library with a version, by platform. *)
Definition versioned_name (sys : Probe.system) (name version ext : string) : string :=
  if decide (Probe.sys_platform sys = "darwin")
  then "lib" +:+ name +:+ "." +:+ version +:+ ext
  else "lib" +:+ name +:+ ext +:+ "." +:+ version.


(** Two build targets that differ at most in the three lists [run]
    assigns to: the libraries, the library directories and the include
    directories. *)
Definition same_but_search_lists (t t' : BuildExt.target) : Prop :=
  BuildExt.as_library t' = BuildExt.as_library t ∧
  Extension.name (BuildExt.ext t') = Extension.name (BuildExt.ext t) ∧
  Extension.sources (BuildExt.ext t') = Extension.sources (BuildExt.ext t) ∧
  Extension.runtime_library_dirs (BuildExt.ext t')
  = Extension.runtime_library_dirs (BuildExt.ext t) ∧
  Extension.define_macros (BuildExt.ext t') = Extension.define_macros (BuildExt.ext t) ∧
  Extension.extra_compile_args (BuildExt.ext t')
  = Extension.extra_compile_args (BuildExt.ext t) ∧
  Extension.language (BuildExt.ext t') = Extension.language (BuildExt.ext t) ∧
  Extension.bob_packages (BuildExt.ext t') = Extension.bob_packages (BuildExt.ext t) ∧
  Extension.pkg_includes (BuildExt.ext t') = Extension.pkg_includes (BuildExt.ext t) ∧
  Extension.pkg_libraries (BuildExt.ext t') = Extension.pkg_libraries (BuildExt.ext t) ∧
  Extension.pkg_library_directories (BuildExt.ext t')
  = Extension.pkg_library_directories (BuildExt.ext t) ∧
  Extension.pkg_macros (BuildExt.ext t') = Extension.pkg_macros (BuildExt.ext t).

(** The entries of the list object [r] in the store [h]. *)
Definition contents (h : Heap.heap) (r : Heap.ref) : list string :=
  default [] (h !! r).

(** The compile arguments [Extension.__init__] starts from. *)
Definition base_compile_args (w : Extension.world) : list string :=
  if decide (Extension.platform_system w = "Darwin")
  then ["-std=c++0x"; "-Wno-#warnings"] else ["-std=c++0x"].

(** The Boost requirement [Extension.__init__] works with (lines 261 to
    276): the one its loop leaves in [boost_req], or [boost >= 1.0] when
    the loop leaves none and Boost modules are asked for. *)
Definition boost_requirement (packages boost_modules : list string) : string :=
  let boost_req := (Extension.extract_boost (length packages) 0 packages "").1 in
  match boost_modules with
  | _ :: _ => if decide (boost_req = "") then "boost >= 1.0" else boost_req
  | [] => boost_req
  end.

(** What Boost gives to the parameters (lines 303 to 321): its macros,
    and the library directories and the libraries of the modules asked
    for; nothing at all without a Boost requirement. *)
Definition boost_contribution (w : Extension.world) (boost_req : string)
           (boost_modules : list string)
  : result (list Extension.macro * list string * list string) :=
  if decide (boost_req = "") then Ok ([], [], [])
  else
    boost_pkg ← Extension.boost w (strip (Extension.remove_all "boost" 0 boost_req));
    let '(boost_libdirs, boost_libraries) :=
      match boost_modules with
      | [] => ([], [])
      | _ => Boost.libconfig boost_pkg boost_modules
      end in
    Ok (Boost.macros boost_pkg, boost_libdirs, boost_libraries).

End MorePredicates.

(** ** A caller who passes three list objects *)

Module Caller.

(** The include directories at reference 0, the system include directories
    at reference 1, the runtime library directories at reference 2, and a
    list the constructor is not given at reference 3. *)
Definition lists : Heap.heap :=
  {[ 0 := ["/my/include"]; 1 := ["/sys/include"]; 2 := ["/my/lib"];
     3 := ["untouched"] ]}.

(** The package [pkga] is required, and /my/lib is also given as a library
    directory. *)
Definition kwargs : Extension.kwargs :=
  Extension.Kwargs (Some (inr ["pkga"])) None (Some 1) None None (Some 0)
                   None None (Some ["/my/lib"]) None (Some 2).

(** The package [pkga] and Boost with its module [system] are required,
    for the version 1.0 of the extension. *)
Definition with_boost : Extension.kwargs :=
  Extension.Kwargs (Some (inr ["pkga"; "boost >= 1.50"])) None None
                   (Some (inl "system")) (Some "1.0") None None None None None None.

End Caller.

(** ** __init__.py: [Library.__init__] *)

Module Library.

Import Heap.

(** What the constructor raises: its own [ValueError], or an error of the
    code it calls. *)
Inductive error : Type :=
| ValueError (msg : string)
| Raised (e : exn).

Inductive outcome (A : Type) : Type :=
| Built (a : A)
| Failed (e : error).
Arguments Built {A} a.
Arguments Failed {A} e.

(** The attributes the constructor sets, and [base], the attributes the
    constructor of [Extension] sets.  [c_system_include_directories] is
    the list object the constructor is given, not a copy of it; the other
    lists are new lists. *)
Record t : Type := Lib {
  base : Extension.t;
  c_name : string;
  c_package_directory : string;
  c_target_directory : string;
  c_sources : list string;
  c_version : string;
  c_include_directories : list string;
  c_system_include_directories : ref;
  c_libraries : list string;
  c_library_directories : list string;
  c_define_macros : list Extension.macro;
  c_cmake : string }.

(** The library as [build_ext.run] reads it. *)
Definition target (l : t) : BuildExt.target :=
  BuildExt.Target (base l)
    (Some (BuildExt.Lib (c_name l) (c_package_directory l) (c_target_directory l)
                        (c_cmake l))).

(** [os.path.join] of the parts of a list; the constructor calls it with
    at least one part. *)
Definition join_all (parts : list string) : string :=
  match parts with
  | [] => EmptyString
  | a :: rest => foldl Probe.path_join a rest
  end.

Section Init.
(** The environment of [Extension.__init__], the value of
    [os.path.realpath('.')], and [find_executable].  The last one is
    imported from utils.py and is not among the sources at hand; it is
    read as the constructor uses it, as a function that returns a list of
    paths. *)
Context (w : Extension.world).
Context (realpath_dot : string).
Context (find_executable : string → list string).

(** The keyword arguments the constructor passes to [Extension.__init__]. *)
Definition base_kwargs (packages boost_modules : string + list string)
  : Extension.kwargs :=
  Extension.Kwargs (Some packages) None None (Some boost_modules) None None
                   None None None None None.

(** [system_include_dirs] is the list object of the caller or, by default,
    the list object made when the function was defined, which is the same
    one in every call. *)
Definition init (name : string) (sources : list string) (version : string)
           (bob_packages : list string) (packages boost_modules : string + list string)
           (include_dirs : list string) (system_include_dirs : ref)
           (libraries library_dirs : list string)
           (define_macros : list Extension.macro)
  : heap → outcome (t * heap) :=
  λ h,
  let name_split := str_split "."%char name in
  if decide (length name_split ≤ 1) then
    Failed (ValueError
      "The name of the library must contain the package name, e.g., bob.core.bob_core")
  else
    let c_name := default EmptyString (last name_split) in
    let c_package_directory := realpath_dot in
    let c_target_directory :=
      Probe.path_join c_package_directory
        (join_all (take (length name_split - 1) name_split)) in
    let c_include_directories :=
      [Probe.path_join c_target_directory "include"] ++ include_dirs in
    match get_bob_libraries (Extension.sys w) (Extension.resource_filename w)
                            (Some bob_packages) with
    | Raise e => Failed (Raised e)
    | Ok (bob_includes, bob_libraries, bob_library_dirs) =>
        let c_include_directories := bob_includes ++ c_include_directories in
        let c_libraries := bob_libraries ++ libraries in
        let c_library_directories := bob_library_dirs ++ library_dirs in
        match find_executable "cmake" with
        | [] =>
            Failed (Raised (OSError
              "The Library class needs CMake version >= 2.8 to be installed, but CMake cannot be found"))
        | cmake0 :: _ =>
            match Extension.init w name sources
                    (base_kwargs packages boost_modules) h with
            | Raise e => Failed (Raised e)
            | Ok (self, h) =>
                match extend system_include_dirs (Extension.pkg_includes self) h with
                | Raise e => Failed (Raised e)
                | Ok (_, h) =>
                    Built (Lib self c_name c_package_directory c_target_directory
                               sources version c_include_directories
                               system_include_dirs
                               (c_libraries ++ Extension.pkg_libraries self)
                               (c_library_directories
                                ++ Extension.pkg_library_directories self)
                               (define_macros ++ Extension.pkg_macros self)
                               cmake0,
                           h)
                end
            end
        end
    end.

End Init.

End Library.

(** ** A library of the package bob.example *)

Module Example.

(** The system include directories of the caller, at reference 0. *)
Definition lists : Heap.heap := {[ 0 := ["/sys/include"] ]}.

Definition find_executable (name : string) : list string :=
  ["/usr/bin/" +:+ name].

(** The library bob.example.bob_example, built in /src with the package
    [pkga]. *)
Definition library : Heap.heap → Library.outcome (Library.t * Heap.heap) :=
  Library.init (Sample.world "Linux") "/src" find_executable
    "bob.example.bob_example" ["a.cpp"] "1.0" [] (inr ["pkga"]) (inr [])
    [] 0 [] [] [].

End Example.

(** * Properties *)

(** ** Strings *)

Section StringFacts.

Lemma string_app_nil_l (s : string) : "" +:+ s = s.
Proof. reflexivity. Qed.

Lemma string_app_cons (c : ascii) (s t : string) :
  String c s +:+ t = String c (s +:+ t).
Proof. reflexivity. Qed.

Lemma string_app_assoc (s t u : string) : (s +:+ t) +:+ u = s +:+ t +:+ u.
Proof. induction s as [|c s IH]; [done|]. by rewrite !string_app_cons, IH. Qed.

Lemma cmp_not_space c : Regex.is_cmp c = true → Py.is_space c = false.
Proof.
  destruct c as [[] [] [] [] [] [] [] []]; intros Hc;
    try discriminate Hc; reflexivity.
Qed.

Lemma span_spec p s a b :
  Regex.span p s = (a, b) →
  s = a +:+ b ∧ all_chars p a = true ∧ head_is p b = false.
Proof.
  revert a b. induction s as [|c s IH]; intros a b; simpl.
  - intros [= <- <-]. done.
  - destruct (p c) eqn:Hc.
    + destruct (Regex.span p s) as [a' b'] eqn:Hs. intros [= <- <-].
      destruct (IH _ _ eq_refl) as (-> & Ha & Hb).
      simpl. by rewrite Hc, Ha.
    + intros [= <- <-]. simpl. by rewrite Hc.
Qed.

Lemma span_app p a b :
  all_chars p a = true → head_is p b = false →
  Regex.span p (a +:+ b) = (a, b).
Proof.
  induction a as [|c a IH]; simpl; intros Ha Hb.
  - destruct b as [|c b]; simpl in *; [done|]. by rewrite Hb.
  - apply andb_true_iff in Ha as [Hc Ha]. by rewrite Hc, IH.
Qed.

Lemma all_chars_app p a b :
  all_chars p (a +:+ b) = all_chars p a && all_chars p b.
Proof.
  induction a as [|c a IH]; [done|].
  rewrite string_app_cons. simpl. by rewrite IH, andb_assoc.
Qed.

End StringFacts.

(** ** [uniq] *)

Lemma elem_of_concat {A} (ls : list (list A)) (x : A) :
  x ∈ concat ls ↔ ∃ l, l ∈ ls ∧ x ∈ l.
Proof.
  induction ls as [|l' ls IH]; simpl.
  - split; [by intros ?%elem_of_nil|]. by intros (l & ?%elem_of_nil & _).
  - rewrite elem_of_app, IH. split.
    + intros [?|(l & ? & ?)]; [exists l'|exists l]; split; try done;
        [by left|by right].
    + intros (l & [->|?]%elem_of_cons & ?); [by left|right; by exists l].
Qed.

Section UniqFacts.
Context {A : Type} `{Countable A}.
Implicit Types (l : list A) (seen : gset A).

Lemma elem_of_uniq_from seen l x :
  x ∈ uniq_from seen l ↔ x ∈ l ∧ x ∉ seen.
Proof.
  revert seen. induction l as [|y l IH]; intros seen; simpl.
  - split; [by intros ?%elem_of_nil|by intros [?%elem_of_nil _]].
  - destruct (decide (y ∈ seen)) as [Hy|Hy].
    + rewrite IH, elem_of_cons. naive_solver.
    + rewrite !elem_of_cons, IH, elem_of_union, elem_of_singleton.
      destruct (decide (x = y)); naive_solver.
Qed.

Lemma elem_of_uniq l x : x ∈ uniq l ↔ x ∈ l.
Proof. unfold uniq. rewrite elem_of_uniq_from. set_solver. Qed.

Lemma NoDup_uniq_from seen l : NoDup (uniq_from seen l).
Proof.
  revert seen. induction l as [|y l IH]; intros seen; simpl.
  - constructor.
  - case_decide; [done|]. constructor; [|done].
    rewrite elem_of_uniq_from. set_solver.
Qed.

Lemma NoDup_uniq l : NoDup (uniq l).
Proof. apply NoDup_uniq_from. Qed.

(** Nothing is dropped from a list that has no repetition and nothing
    in common with [seen]. *)
Lemma uniq_from_NoDup seen l :
  NoDup l → (∀ x, x ∈ l → x ∉ seen) → uniq_from seen l = l.
Proof.
  revert seen. induction l as [|y l IH]; intros seen Hnd Hseen; [done|].
  apply NoDup_cons in Hnd as [Hy Hnd]. simpl.
  rewrite decide_False by (apply Hseen; left).
  f_equal. apply IH; [done|]. intros x Hx. pose proof (Hseen x). set_solver.
Qed.

Lemma uniq_NoDup l : NoDup l → uniq l = l.
Proof. intros. apply uniq_from_NoDup; set_solver. Qed.

Lemma uniq_idemp l : uniq (uniq l) = uniq l.
Proof. apply uniq_NoDup, NoDup_uniq. Qed.

(** Elements already seen are exactly the ones filtered out. *)
Lemma uniq_from_union s1 s2 l :
  uniq_from (s1 ∪ s2) l = filter (λ x, x ∉ s1) (uniq_from s2 l).
Proof.
  revert s2. induction l as [|y l IH]; intros s2; [done|]. simpl.
  destruct (decide (y ∈ s2)) as [Hy2|Hy2].
  - rewrite decide_True by set_solver. apply IH.
  - destruct (decide (y ∈ s1)) as [Hy1|Hy1].
    + rewrite decide_True by set_solver.
      rewrite filter_cons_False by (intros ?; done).
      rewrite <-IH. f_equal. set_solver.
    + rewrite decide_False by set_solver.
      rewrite filter_cons_True by done.
      rewrite <-IH. do 2 f_equal. set_solver.
Qed.

Lemma uniq_from_filter seen l :
  uniq_from seen l = filter (λ x, x ∉ seen) (uniq l).
Proof.
  unfold uniq. rewrite <-uniq_from_union. f_equal. set_solver.
Qed.

Lemma uniq_from_app seen l1 l2 :
  uniq_from seen (l1 ++ l2)
  = uniq_from seen l1 ++ uniq_from (list_to_set l1 ∪ seen) l2.
Proof.
  revert seen. induction l1 as [|y l1 IH]; intros seen; simpl.
  - f_equal. set_solver.
  - case_decide.
    + rewrite IH. do 2 f_equal. set_solver.
    + simpl. rewrite IH. do 3 f_equal. set_solver.
Qed.

Lemma uniq_app l1 l2 :
  uniq (l1 ++ l2) = uniq l1 ++ filter (λ x, x ∉ l1) (uniq l2).
Proof.
  unfold uniq at 1 2. rewrite uniq_from_app. f_equal.
  rewrite uniq_from_filter. apply list_filter_iff. set_solver.
Qed.

End UniqFacts.

(** ** The requirement grammar *)

Section RegexFacts.
Import Regex.

(** What [match_here] returns: a non-empty comparator run and a rest
    that does not start with white space. *)
Lemma match_here_Some s op rest :
  match_here s = Some (op, rest) →
  op ≠ "" ∧ all_chars is_cmp op = true ∧ head_is Py.is_space rest = false.
Proof.
  unfold match_here.
  destruct (span Py.is_space s) as [w s1] eqn:H1.
  destruct (span is_cmp s1) as [o s2] eqn:H2.
  destruct (span Py.is_space s2) as [w2 r] eqn:H3.
  destruct o as [|c o]; [done|]. simpl. intros [= <- <-].
  apply span_spec in H2 as (_ & Ho & _).
  apply span_spec in H3 as (_ & _ & Hr). done.
Qed.

(** A match starts at the head of [s] exactly when the first character
    after the leading white space is a comparator character. *)
Lemma match_here_None s :
  match_here s = None ↔ head_is is_cmp (lstrip s) = false.
Proof.
  unfold match_here.
  assert (Hsp : span Py.is_space s = (fst (span Py.is_space s), lstrip s)).
  { induction s as [|c s IH]; simpl; [done|].
    destruct (Py.is_space c); [|done].
    destruct (span Py.is_space s); simpl in *. by inversion IH. }
  rewrite Hsp. destruct (lstrip s) as [|c t]; simpl; [done|].
  destruct (is_cmp c); [|done].
  destruct (span is_cmp t). split; done.
Qed.

Lemma match_here_no_cmp s :
  all_chars not_cmp s = true → match_here s = None.
Proof.
  intros Hs. apply match_here_None.
  induction s as [|c s IH]; simpl in *; [done|].
  apply andb_true_iff in Hs as [Hc Hs].
  destruct (Py.is_space c); [by apply IH|].
  simpl. unfold not_cmp in Hc. by destruct (is_cmp c).
Qed.

(** [search] fails exactly on strings without comparator characters. *)
Lemma search_None s : search s = None ↔ all_chars not_cmp s = true.
Proof.
  split.
  - induction s as [|c s IH]; simpl; [done|].
    destruct (match_here (String c s)) as [[op rest]|] eqn:Hm; [done|].
    destruct (search s) as [[[pre op] rest]|] eqn:Hs; [done|]. intros _.
    rewrite IH by done. rewrite andb_true_r.
    apply match_here_None in Hm. simpl in Hm.
    unfold not_cmp. destruct (is_cmp c) eqn:Hc; [|done].
    by rewrite (cmp_not_space c Hc) in Hm; simpl in Hm; rewrite Hc in Hm.
  - intros Hs. induction s as [|c s IH].
    + done.
    + cbn [search]. rewrite (match_here_no_cmp _ Hs).
      simpl in Hs. apply andb_true_iff in Hs as [_ Hs].
      by rewrite IH.
Qed.

Lemma search_nil_pre s op rest :
  search s = Some ("", op, rest) → match_here s = Some (op, rest).
Proof.
  destruct s as [|c s]; cbn [search].
  - destruct (match_here "") as [[o r]|]; [by intros [= <- <-]|done].
  - destruct (match_here (String c s)) as [[o r]|]; [by intros [= <- <-]|].
    by destruct (search s) as [[[pre o] r]|].
Qed.

(** The text before the leftmost match has no comparator character and
    does not end in white space. *)
Lemma search_Some s pre op rest :
  search s = Some (pre, op, rest) →
  all_chars not_cmp pre = true ∧ no_trailing_space pre = true ∧
  ∃ t, s = pre +:+ t ∧ match_here t = Some (op, rest).
Proof.
  revert pre. induction s as [|c s IH]; intros pre; cbn [search].
  - destruct (match_here "") as [[o r]|] eqn:Hm; [|done].
    intros [= <- <- <-]. repeat split; [done..|]. by exists "".
  - destruct (match_here (String c s)) as [[o r]|] eqn:Hm.
    { intros [= <- <- <-]. repeat split; [done..|]. by exists (String c s). }
    destruct (search s) as [[[pre' o] r]|] eqn:Hs; [|done].
    intros [= <- <- <-].
    destruct (IH _ eq_refl) as (Hpre & Hts & t & -> & Ht).
    apply match_here_None in Hm.
    assert (Hc : is_cmp c = false).
    { destruct (is_cmp c) eqn:Hc; [|done]. simpl in Hm.
      by rewrite (cmp_not_space c Hc) in Hm; simpl in Hm; rewrite Hc in Hm. }
    split; [|split].
    + simpl. unfold not_cmp at 1. by rewrite Hc, Hpre.
    + destruct pre' as [|c' pre']; [|done]. simpl.
      destruct (Py.is_space c) eqn:Hsp; [|done].
      simpl in Hm. rewrite Hsp in Hm. rewrite string_app_nil_l in Hm.
      apply match_here_None in Hm. congruence.
    + exists t. by rewrite string_app_cons.
Qed.

(** Conversely, such a text followed by a match is found by [search]. *)
Lemma match_here_pre pre t :
  all_chars not_cmp pre = true → no_trailing_space pre = true → pre ≠ "" →
  match_here (pre +:+ t) = None.
Proof.
  intros Hc Hs Hne. apply match_here_None.
  induction pre as [|c pre IH]; [done|].
  simpl in Hc. apply andb_true_iff in Hc as [Hc Hpre].
  rewrite string_app_cons. simpl.
  destruct (Py.is_space c) eqn:Hsp.
  - destruct pre as [|c' pre]; [by simpl in Hs; rewrite Hsp in Hs|].
    by apply IH.
  - simpl. unfold not_cmp in Hc. by destruct (is_cmp c).
Qed.

Lemma search_app pre t op rest :
  all_chars not_cmp pre = true → no_trailing_space pre = true →
  match_here t = Some (op, rest) →
  search (pre +:+ t) = Some (pre, op, rest).
Proof.
  intros Hc Hs Ht. induction pre as [|c pre IH].
  - rewrite string_app_nil_l. destruct t; cbn [search]; by rewrite Ht.
  - rewrite string_app_cons. cbn [search]. rewrite <-string_app_cons.
    rewrite match_here_pre by done. rewrite IH; [done|..].
    + simpl in Hc. by apply andb_true_iff in Hc as [_ ?].
    + by destruct pre.
Qed.

Lemma search_shorter s pre op rest :
  search s = Some (pre, op, rest) → String.length rest < String.length s.
Proof.
  assert (Happ : ∀ a b, String.length (a +:+ b) = String.length a + String.length b).
  { induction a as [|c a IH]; intros b; [done|]. rewrite string_app_cons. simpl. by rewrite IH. }
  intros Hs. destruct (search_Some _ _ _ _ Hs) as (_ & _ & t & -> & Ht).
  rewrite Happ. clear Hs.
  pose proof (match_here_Some _ _ _ Ht) as (Hop & _ & _).
  unfold match_here in Ht.
  destruct (span Py.is_space t) as [w s1] eqn:H1.
  destruct (span is_cmp s1) as [o s2] eqn:H2.
  destruct (span Py.is_space s2) as [w2 r] eqn:H3.
  apply span_spec in H1 as (-> & _ & _).
  apply span_spec in H2 as (-> & _ & _).
  apply span_spec in H3 as (-> & _ & _).
  destruct o as [|c o]; [done|]. simpl in Ht. injection Ht as <- <-.
  rewrite !Happ. simpl. lia.
Qed.

(** The fuel of [split] is never exhausted: more fuel changes nothing. *)
Lemma split_fuel_enough n m s :
  String.length s < n → String.length s < m → split_fuel n s = split_fuel m s.
Proof.
  revert m s. induction n as [|n IH]; intros m s Hn Hm; [lia|].
  destruct m as [|m]; [lia|]. simpl.
  destruct (search s) as [[[pre op] rest]|] eqn:Hs; [|done].
  apply search_shorter in Hs. do 2 f_equal. apply IH; lia.
Qed.

Lemma split_unfold s :
  split s = match search s with
            | Some (pre, op, rest) => pre :: op :: split rest
            | None => [s]
            end.
Proof.
  unfold split at 1. simpl.
  destruct (search s) as [[[pre op] rest]|] eqn:Hs; [|done].
  apply search_shorter in Hs. do 2 f_equal.
  apply split_fuel_enough; lia.
Qed.

(** The two accepted shapes of a requirement. *)
Lemma split_one s name : split s = [name] → name = s ∧ search s = None.
Proof.
  rewrite split_unfold.
  destruct (search s) as [[[pre op] rest]|]; [done|]. by intros [= <-].
Qed.

Lemma split_three s name op version :
  split s = [name; op; version] →
  search s = Some (name, op, version) ∧ search version = None.
Proof.
  rewrite split_unfold.
  destruct (search s) as [[[pre o] rest]|]; [|done].
  rewrite split_unfold.
  destruct (search rest) as [[[pre' o'] rest']|] eqn:Hr; [done|].
  by intros [= <- <- <-].
Qed.

End RegexFacts.

(** ** [normalize_requirements] *)

Section NormalizeFacts.
Import Regex.

Lemma split_bare name : all_chars not_cmp name = true → split name = [name].
Proof. intros Hn. rewrite split_unfold. by apply search_None in Hn as ->. Qed.

Lemma head_is_cmp_app op t :
  op ≠ "" → all_chars is_cmp op = true → head_is Py.is_space (op +:+ t) = false.
Proof.
  destruct op as [|c op]; [done|]. simpl. intros _ [Hc _]%andb_true_iff.
  by apply cmp_not_space.
Qed.

Lemma match_here_join op version :
  valid_constraint (op, version) →
  match_here (" " +:+ op +:+ " " +:+ version) = Some (op, version).
Proof.
  intros (Hne & Hop & Hv & _). simpl in *. unfold match_here.
  rewrite (span_app Py.is_space " ") by (by try apply head_is_cmp_app).
  rewrite (span_app is_cmp op) by done.
  rewrite (span_app Py.is_space " " version) by done.
  by destruct op.
Qed.

(** Parsing a printed requirement gives back its three parts. *)
Lemma split_join name op version :
  all_chars not_cmp name = true → no_trailing_space name = true →
  valid_constraint (op, version) →
  split (join " " [name; op; version]) = [name; op; version].
Proof.
  intros Hn Hs Hv. cbn [join].
  rewrite split_unfold.
  rewrite (search_app name _ op version) by auto using match_here_join.
  rewrite split_bare; [done|]. apply Hv.
Qed.

Lemma split_three_valid s name op version :
  split s = [name; op; version] →
  all_chars not_cmp name = true ∧ no_trailing_space name = true ∧
  valid_constraint (op, version).
Proof.
  intros [Hs Hv]%split_three.
  apply search_Some in Hs as (Hn & Ht & t & _ & Hm).
  apply match_here_Some in Hm as (? & ? & ?).
  apply search_None in Hv. done.
Qed.

(** *** The dictionary *)

Lemma setdefault_extend_fresh (parsed : parsed_dict) key more :
  key ∉ parsed.*1 → setdefault_extend parsed key more = parsed ++ [(key, more)].
Proof.
  induction parsed as [|[k v] parsed IH]; [done|]. simpl.
  intros Hk. rewrite decide_False by set_solver. f_equal. apply IH. set_solver.
Qed.

Lemma setdefault_extend_twice (parsed : parsed_dict) key a b :
  setdefault_extend (setdefault_extend parsed key a) key b
  = setdefault_extend parsed key (a ++ b).
Proof.
  induction parsed as [|[k v] parsed IH]; simpl.
  - by rewrite decide_True by done.
  - case_decide; simpl.
    + by rewrite decide_True, <-(assoc_L (++)) by done.
    + rewrite decide_False by done. by rewrite IH.
Qed.

Lemma setdefault_extend_keys (parsed : parsed_dict) key more :
  (setdefault_extend parsed key more).*1
  = if decide (key ∈ parsed.*1) then parsed.*1 else parsed.*1 ++ [key].
Proof.
  induction parsed as [|[k v] parsed IH].
  - cbn [setdefault_extend]. by rewrite decide_False by set_solver.
  - cbn [setdefault_extend]. destruct (decide (k = key)) as [->|Hne].
    + by rewrite decide_True by set_solver.
    + rewrite !fmap_cons, IH. cbn [fst].
      destruct (decide (key ∈ parsed.*1)).
      * by rewrite decide_True by set_solver.
      * by rewrite decide_False by set_solver.
Qed.

Lemma setdefault_extend_NoDup (parsed : parsed_dict) key more :
  NoDup (parsed.*1) → NoDup ((setdefault_extend parsed key more).*1).
Proof.
  intros Hnd. rewrite setdefault_extend_keys. case_decide; [done|].
  apply NoDup_app. split_and!; [done| |apply NoDup_singleton].
  intros x Hx ->%list_elem_of_singleton. done.
Qed.

Lemma setdefault_extend_valid (parsed : parsed_dict) key more :
  Forall valid_entry parsed → valid_entry (key, more) →
  Forall valid_entry (setdefault_extend parsed key more).
Proof.
  intros Hp (Hk & Hts & Hm). simpl in *.
  induction Hp as [|[k v] parsed (Hk' & Hts' & Hv) Hp IH]; simpl in *.
  - by repeat constructor.
  - case_decide as Heq; constructor; try done. subst k.
    split_and!; simpl; [done| |by apply Forall_app].
    intros Hne. destruct more as [|m more]; [|by apply Hts].
    rewrite app_nil_r in Hne. auto.
Qed.

(** The first loop keeps the distinct.*1 and every entry well formed. *)
Lemma parse_all_invariant requirements acc parsed :
  parse_all requirements acc = Ok parsed →
  NoDup (acc.*1) → Forall valid_entry acc →
  NoDup (parsed.*1) ∧ Forall valid_entry parsed.
Proof.
  revert acc. induction requirements as [|r requirements IH]; intros acc; simpl.
  - by intros [= <-].
  - destruct (split r) as [|name [|op [|version [|? ?]]]] eqn:Hr; try done.
    + intros Hp Hnd Hv. eapply IH; [done|by apply setdefault_extend_NoDup|].
      apply setdefault_extend_valid; [done|].
      apply split_one in Hr as [-> Hr]. apply search_None in Hr.
      by split_and!.
    + intros Hp Hnd Hv. eapply IH; [done|by apply setdefault_extend_NoDup|].
      apply setdefault_extend_valid; [done|].
      apply split_three_valid in Hr as (? & ? & ?).
      split_and!; simpl; auto.
Qed.

(** Parsing the strings printed for one key files them back under it. *)
Lemma parse_all_group key (vs : list (string * string)) rest acc :
  all_chars not_cmp key = true → no_trailing_space key = true →
  Forall valid_constraint vs → vs ≠ [] →
  parse_all (map (λ v, join " " [key; v.1; v.2]) vs ++ rest) acc
  = parse_all rest (setdefault_extend acc key vs).
Proof.
  intros Hk Hts Hvs. revert acc.
  induction Hvs as [|[op version] vs Hv Hvs IH]; intros acc Hne; [done|].
  cbn [map app parse_all fst snd]. rewrite split_join by done.
  destruct vs as [|v vs]; [done|].
  rewrite IH by done. by rewrite setdefault_extend_twice.
Qed.

(** The second pass: parsing what [emit_all] printed rebuilds the
    dictionary, with every value list made unique. *)
Lemma parse_all_emit (parsed acc : parsed_dict) :
  Forall valid_entry parsed → NoDup ((acc ++ parsed).*1) →
  parse_all (emit_all parsed) acc
  = Ok (acc ++ map (λ e, (e.1, uniq e.2)) parsed).
Proof.
  intros Hv. revert acc.
  induction Hv as [|[k v] parsed (Hk & Hts & Hvs) Hv IH]; intros acc Hnd.
  - simpl. by rewrite app_nil_r.
  - simpl in Hk, Hts, Hvs. cbn [emit_all map fst snd].
    assert (Hfresh : k ∉ acc.*1).
    { rewrite fmap_app in Hnd. apply NoDup_app in Hnd as (_ & Hd & _).
      intros Hin. apply (Hd k Hin). simpl. left. }
    assert (Hnd' : ∀ u, NoDup (((acc ++ [(k, u)]) ++ parsed).*1)).
    { intros u. rewrite <-(assoc_L (++)). simpl.
      by rewrite fmap_app in Hnd |- *. }
    destruct (uniq v) as [|v1 vs] eqn:Hu.
    + cbn [parse_all]. rewrite split_bare by done.
      rewrite setdefault_extend_fresh by done.
      rewrite IH by done. by rewrite <-(assoc_L (++)).
    + trans (parse_all (emit_all parsed) (setdefault_extend acc k (v1 :: vs))).
      { apply (parse_all_group k (v1 :: vs)); try done.
        - apply Hts. intros ->. done.
        - rewrite <-Hu. rewrite Forall_forall in Hvs |- *.
          intros x Hx. apply Hvs. by apply elem_of_uniq. }
      rewrite setdefault_extend_fresh by done.
      rewrite IH by done. by rewrite <-(assoc_L (++)).
Qed.

Lemma emit_all_uniq (parsed : parsed_dict) :
  emit_all (map (λ e, (e.1, uniq e.2)) parsed) = emit_all parsed.
Proof.
  induction parsed as [|[k v] parsed IH]; [done|].
  simpl. by rewrite uniq_idemp, IH.
Qed.

End NormalizeFacts.

Lemma normalize_requirements_fixpoint (R L : list string) :
  normalize_requirements R = Ok L → normalize_requirements L = Ok L.
Proof.
  unfold normalize_requirements, mbind, result_bind, Py.bind.
  destruct (parse_all R []) as [parsed|e] eqn:Hp; [|done].
  intros [= <-].
  apply parse_all_invariant in Hp as [Hnd Hv]; [|constructor..].
  rewrite (parse_all_emit parsed []) by done.
  simpl. by rewrite emit_all_uniq.
Qed.

(** C6: [normalize_requirements] is idempotent:
    normalize(normalize(R)) = normalize(R) for every sequence R of
    requirement strings.  When R is accepted, its normal form is accepted
    and returned unchanged; when R is rejected, the composition raises the
    same exception. *)
Theorem normalize_requirements_idempotent (R : list string) :
  normalize_requirements R ≫= normalize_requirements = normalize_requirements R.
Proof.
  destruct (normalize_requirements R) as [L|e] eqn:HR; [|done].
  exact (normalize_requirements_fixpoint R L HR).
Qed.

(** ** [check_packages] *)

Section CheckPackagesFacts.
Context (registry : gmap string PkgConfig.metadata).
Context (version_cmp : string → string → comparison).

Lemma pkgconfig_name nm p :
  PkgConfig.pkgconfig registry nm = Ok p → PkgConfig.name p = nm.
Proof.
  unfold PkgConfig.pkgconfig. destruct (registry !! nm); [|done].
  by intros [= <-].
Qed.

Lemma bind_Ok {A B} (m : result A) (k : A → result B) b :
  m ≫= k = Ok b → ∃ a, m = Ok a ∧ k a = Ok b.
Proof. destruct m as [a|e]; [|done]. intros Hk. by exists a. Qed.

(** A resolved package carries the name its requirement starts with. *)
Lemma check_requirement_name requirement p :
  check_requirement registry version_cmp requirement = Ok p →
  PkgConfig.name p = requirement_name requirement.
Proof.
  unfold check_requirement, requirement_name.
  destruct (Regex.split requirement) as [|nm [|op [|ver [|? ?]]]]; try done.
  - apply pkgconfig_name.
  - intros (q & Hq & Hk)%bind_Ok.
    apply bind_Ok in Hk as (_ & _ & [= <-]). by apply pkgconfig_name in Hq.
Qed.

(** A run of the loop that succeeds has met pairwise distinct names, none
    of them in [used]. *)
Lemma check_packages_loop_Ok requirements used retval pkgs :
  check_packages_loop registry version_cmp requirements used retval = Ok pkgs →
  NoDup (requirement_name <$> requirements) ∧
  ∀ r, r ∈ requirements → requirement_name r ∉ used.
Proof.
  revert used retval.
  induction requirements as [|r requirements IH]; intros used retval; simpl.
  - intros _. split; [constructor|]. by intros r ?%elem_of_nil.
  - intros (p & Hp & Hk)%bind_Ok. apply check_requirement_name in Hp.
    destruct (decide (PkgConfig.name p ∈ used)) as [|Hused]; [done|].
    apply IH in Hk as [Hnd Hk]. rewrite Hp in *. split.
    + constructor; [|done]. intros (r' & Heq & Hr')%list_elem_of_fmap.
      apply Hk in Hr'. rewrite <-Heq in Hr'. set_solver.
    + intros r' [->|Hr']%elem_of_cons; [done|].
      apply Hk in Hr'. set_solver.
Qed.

(** When every requirement passes on its own, the loop can only stop on a
    repeated name. *)
Lemma check_packages_loop_raise requirements used retval e :
  (∀ r, r ∈ requirements → is_ok (check_requirement registry version_cmp r) = true) →
  check_packages_loop registry version_cmp requirements used retval = Raise e →
  e = DuplicateRequirement.
Proof.
  revert used retval.
  induction requirements as [|r requirements IH]; intros used retval Hall; [done|].
  simpl. pose proof (Hall r ltac:(left)) as Hr.
  destruct (check_requirement registry version_cmp r) as [p|]; [|done]. simpl.
  case_decide; [by intros [= <-]|].
  apply IH. intros r' Hr'. apply Hall. by right.
Qed.

Lemma NoDup_fmap_eq {A B} (f : A → B) (l : list A) x y :
  NoDup (f <$> l) → x ∈ l → y ∈ l → f x = f y → x = y.
Proof.
  induction l as [|z l IH]; [by intros _ ?%elem_of_nil|].
  rewrite fmap_cons. intros [Hz Hnd]%NoDup_cons.
  intros [->|Hx]%elem_of_cons [->|Hy]%elem_of_cons Hf; [done|..].
  - exfalso. apply Hz. rewrite Hf. by apply list_elem_of_fmap_2.
  - exfalso. apply Hz. rewrite <-Hf. by apply list_elem_of_fmap_2.
  - by apply IH.
Qed.

(** The requirement [nm == ver] is decided by [<=]. *)
Lemma check_requirement_eq nm ver md :
  all_chars not_cmp nm = true → no_trailing_space nm = true →
  head_is Py.is_space ver = false → all_chars not_cmp ver = true →
  registry !! nm = Some md →
  let p := PkgConfig.Pkg nm (PkgConfig.md_version md) (PkgConfig.md_macros md)
             (PkgConfig.md_include_dirs md) (PkgConfig.md_libraries md)
             (PkgConfig.md_library_dirs md) in
  check_requirement registry version_cmp (join " " [nm; "=="; ver])
  = if PkgConfig.le version_cmp p ver then Ok p
    else Raise (UnsatisfiedRequirement nm "==" ver).
Proof.
  intros Hnm Hts Hv1 Hv2 Hreg p. unfold check_requirement.
  rewrite split_join by done. unfold PkgConfig.pkgconfig. rewrite Hreg.
  cbn. fold p. by destruct (PkgConfig.le version_cmp p ver).
Qed.

End CheckPackagesFacts.

(** C1: evaluation of [check_packages] on the requirement [pkga == 2.0]
    when [pkga] is installed at version 1.0.  The versions differ, and the
    call succeeds: the ['=='] branch asserts [p <= splitreq[2]]. *)
Theorem check_packages_eq_accepts_older :
  check_packages Sample.registry LooseVersion.compare ["pkga == 2.0"]
  = Ok [Sample.pkga] ∧
  PkgConfig.eq LooseVersion.compare Sample.pkga "2.0" = false.
Proof. split; vm_compute; reflexivity. Qed.

(** ** [reorganize_isystem] *)

Section IsystemFacts.

(** Reversing, dropping repetitions after their first occurrence and
    reversing back keeps the last occurrence of every element. *)
Lemma reverse_uniq_reverse {A} `{Countable A} (l : list A) :
  reverse (uniq (reverse l)) = remove_dups l.
Proof.
  induction l as [|x l IH]; [done|].
  rewrite reverse_cons, uniq_app, reverse_app, IH. simpl.
  unfold uniq. simpl. rewrite decide_False by set_solver.
  destruct (decide_rel elem_of x l) as [Hx|Hx].
  - rewrite filter_cons_False; [done|]. rewrite elem_of_reverse. tauto.
  - rewrite filter_cons_True; [done|]. by rewrite elem_of_reverse.
Qed.

Lemma isystem_scan_parse args remainder includes :
  isystem_parse args remainder includes →
  ∀ rem inc,
    isystem_scan args false rem inc = Ok (rem ++ remainder, inc ++ includes).
Proof.
  induction 1 as [|path args remainder includes _ IH
                  |arg args remainder includes Harg _ IH]; intros rem inc.
  - by rewrite !app_nil_r.
  - cbn. rewrite IH. by rewrite <-(assoc_L (++)).
  - cbn [isystem_scan]. rewrite decide_False by done.
    rewrite IH. by rewrite <-(assoc_L (++)).
Qed.

(** The scan stops with an error only on a flag without a path, and then
    the list has no reading. *)
Lemma isystem_scan_Ok_parse n args rem inc out :
  length args ≤ n →
  isystem_scan args false rem inc = Ok out →
  ∃ remainder includes, isystem_parse args remainder includes.
Proof.
  revert args rem inc out. induction n as [|n IH]; intros args rem inc out Hn.
  - destruct args; [|simpl in Hn; lia]. intros _. do 2 eexists. constructor.
  - destruct args as [|arg args]; [intros _; do 2 eexists; constructor|].
    cbn [isystem_scan]. destruct (decide (arg = "-isystem")) as [->|Harg].
    + destruct args as [|path args]; [done|]. cbn.
      intros (r & i & Hp)%IH; [|simpl in Hn; lia].
      do 2 eexists. by constructor.
    + intros (r & i & Hp)%IH; [|simpl in Hn; lia].
      do 2 eexists. by constructor.
Qed.

(** [reorganize_isystem] returns exactly on the lists that have a
    reading. *)
Lemma reorganize_isystem_Ok_iff args :
  (∃ out, reorganize_isystem args = Ok out)
  ↔ ∃ remainder includes, isystem_parse args remainder includes.
Proof.
  unfold reorganize_isystem. split.
  - intros [out Hout].
    destruct (isystem_scan args false [] []) as [[rem inc]|e] eqn:Hs; [|done].
    by eapply (isystem_scan_Ok_parse (length args)).
  - intros (remainder & includes & Hp).
    rewrite (isystem_scan_parse _ _ _ Hp [] []). by eexists.
Qed.

Global Instance isystem_key_le_total : Total isystem_key_le.
Proof.
  intros a b. unfold isystem_key_le.
  destruct (lt_eq_lt_dec (String.length a) (String.length b)) as [[?|Heq]|?];
    [right; by left| |left; by left].
  destruct (total String.le a b); [left|right]; right; done.
Qed.

Global Instance isystem_key_le_trans : Transitive isystem_key_le.
Proof.
  intros a b c [?|[? Hab]] [?|[? Hbc]]; unfold isystem_key_le;
    [left; lia..|]. right. split; [lia|]. by etrans.
Qed.

Global Instance isystem_key_le_antisymm : AntiSymm (=) isystem_key_le.
Proof.
  intros a b [?|[? Hab]] [?|[? Hba]]; try lia. by apply (anti_symm String.le).
Qed.

End IsystemFacts.

(** C3, as stated, fails: on a list that ends in an [-isystem] flag without
    a path, [args[i+1]] is out of range and nothing is returned. *)
Lemma reorganize_isystem_dangling_flag :
  reorganize_isystem ["-O2"; "-isystem"] = Raise IndexError ∧
  ¬ ∃ out, reorganize_isystem ["-O2"; "-isystem"] = Ok out.
Proof. split; [reflexivity|]. by intros [out Hout]. Qed.

(** C3, amended: for every compiler-argument list in which each
    [-isystem] flag, read from left to right, is followed by a path,
    [reorganize_isystem] returns the other arguments in their original
    order, followed by one [-isystem] pair per distinct path; the paths are
    those of the list with only the last occurrence of each kept (reverse,
    first-occurrence dedup, reverse back), sorted by descending length with
    ties broken by ascending lexical order.  For the system includes
    /usr/include, /usr/local/include, /opt/foo/include/special the longest
    path comes first and /usr/include last. *)
Theorem reorganize_isystem_spec (args remainder includes : list string) :
  isystem_parse args remainder includes →
  ∃ paths,
    reorganize_isystem args = Ok (remainder ++ isystem_pairs paths) ∧
    paths = merge_sort isystem_key_le (reverse (uniq (reverse includes))) ∧
    reverse (uniq (reverse includes)) = remove_dups includes ∧
    paths ≡ₚ remove_dups includes ∧
    NoDup paths ∧
    (∀ p, p ∈ paths ↔ p ∈ includes) ∧
    StronglySorted isystem_key_le paths ∧
    reorganize_isystem
      (isystem_pairs ["/usr/include"; "/usr/local/include"; "/opt/foo/include/special"])
    = Ok (isystem_pairs ["/opt/foo/include/special"; "/usr/local/include"; "/usr/include"]).
Proof.
  intros Hp. eexists. split_and!; [|reflexivity|..].
  - unfold reorganize_isystem.
    rewrite (isystem_scan_parse _ _ _ Hp [] []). reflexivity.
  - apply reverse_uniq_reverse.
  - by rewrite merge_sort_Permutation, reverse_uniq_reverse.
  - rewrite merge_sort_Permutation, reverse_uniq_reverse.
    apply NoDup_remove_dups.
  - intros p. rewrite merge_sort_Permutation, reverse_uniq_reverse.
    apply elem_of_remove_dups.
  - apply StronglySorted_merge_sort; apply _.
  - vm_compute. reflexivity.
Qed.

Lemma reorganize_isystem_spec_witness :
  ∃ paths,
    reorganize_isystem ["-O2"; "-isystem"; "/usr/include"; "-g"; "-isystem"; "/opt/x/include";
                        "-isystem"; "/usr/include"]
    = Ok (["-O2"; "-g"] ++ isystem_pairs paths) ∧
    paths ≡ₚ remove_dups ["/usr/include"; "/opt/x/include"; "/usr/include"].
Proof.
  destruct (reorganize_isystem_spec
              ["-O2"; "-isystem"; "/usr/include"; "-g"; "-isystem"; "/opt/x/include";
               "-isystem"; "/usr/include"]
              ["-O2"; "-g"] ["/usr/include"; "/opt/x/include"; "/usr/include"])
    as (paths & Hout & _ & _ & Hperm & _).
  - apply isystem_parse_other; [done|]. apply isystem_parse_pair.
    apply isystem_parse_other; [done|]. apply isystem_parse_pair.
    apply isystem_parse_pair. apply isystem_parse_nil.
  - exists paths. by split.
Defined.

(** ** The search prefixes of [find_file] *)

(** C7: the prefix list of the filesystem probe is assembled in strict
    priority order: the prefixes of [BOB_PREFIX_PATH], split on the path
    separator, then the prefixes of the caller, then the platform defaults
    /usr, /usr/local, /opt/local; it has no repetition, and of each prefix
    the first occurrence is the one kept.  With [BOB_PREFIX_PATH=/a:/b] and
    the explicit prefix /c the list is /a, /b, /c, /usr, /usr/local,
    /opt/local. *)
Theorem search_prefixes_priority (sys : Probe.system) (prefixes : option (list string)) :
  let env := env_prefixes sys in
  let explicit := default [] prefixes in
  Probe.search_prefixes sys prefixes
  = uniq env
    ++ filter (λ x, x ∉ env) (uniq explicit)
    ++ filter (λ x, x ∉ env ++ explicit) (uniq Probe.DEFAULT_PREFIXES) ∧
  Probe.search_prefixes sys prefixes = uniq (env ++ explicit ++ Probe.DEFAULT_PREFIXES) ∧
  NoDup (Probe.search_prefixes sys prefixes) ∧
  (∀ x, x ∈ Probe.search_prefixes sys prefixes
        ↔ x ∈ env ∨ x ∈ explicit ∨ x ∈ Probe.DEFAULT_PREFIXES) ∧
  (∀ glob path_exists platform arch,
     Probe.search_prefixes
       (Probe.System {[ "BOB_PREFIX_PATH" := "/a:/b" ]} ":" glob path_exists platform arch)
       (Some ["/c"])
     = ["/a"; "/b"; "/c"; "/usr"; "/usr/local"; "/opt/local"]).
Proof.
  intros env explicit.
  assert (Heq : Probe.search_prefixes sys prefixes
                = uniq (env ++ explicit ++ Probe.DEFAULT_PREFIXES)).
  { unfold Probe.search_prefixes, env, explicit, env_prefixes.
    destruct (Probe.environ sys !! "BOB_PREFIX_PATH") as [value|];
      destruct prefixes as [[|p prefixes]|]; simpl;
      by rewrite ?app_nil_r, <-?(assoc_L (++)). }
  split_and!.
  - rewrite Heq, !uniq_app, filter_app, list_filter_filter. do 2 f_equal.
    apply list_filter_iff. intros x. rewrite elem_of_app. tauto.
  - done.
  - rewrite Heq. apply NoDup_uniq.
  - intros x. by rewrite Heq, elem_of_uniq, !elem_of_app.
  - intros. vm_compute. reflexivity.
Qed.

(** ** [Extension.__init__] *)

Section InitFacts.
Import Extension Heap.
Context (w : world).

(** The fuel of the Boost loop is never exhausted: with at least as many
    units as entries left, one more unit changes nothing. *)
Lemma extract_boost_fuel fuel i packages boost_req :
  length packages - i ≤ fuel →
  extract_boost (S fuel) i packages boost_req
  = extract_boost fuel i packages boost_req.
Proof.
  revert i packages boost_req.
  induction fuel as [|fuel IH]; intros i packages boost_req Hlen.
  - cbn. rewrite lookup_ge_None_2; [done|lia].
  - cbn [extract_boost]. destruct (packages !! i) as [pkg|] eqn:Hi; [|done].
    apply lookup_lt_Some in Hi.
    destruct (startswith "boost" pkg).
    + apply IH. rewrite length_delete by (apply lookup_lt_is_Some; lia). lia.
    + apply IH. lia.
Qed.

(** Without an entry that starts with [boost] the loop changes nothing. *)
Lemma extract_boost_none fuel i packages boost_req :
  Forall (λ pkg, startswith "boost" pkg = false) packages →
  extract_boost fuel i packages boost_req = (boost_req, packages).
Proof.
  intros Hall. revert i. induction fuel as [|fuel IH]; intros i; [done|].
  cbn [extract_boost]. destruct (packages !! i) as [pkg|] eqn:Hi; [|done].
  rewrite Forall_lookup in Hall. by rewrite (Hall _ _ Hi).
Qed.

(** The requirement found is an entry that starts with [boost], unless
    none was met. *)
Lemma extract_boost_req fuel i packages boost_req :
  (extract_boost fuel i packages boost_req).1 = boost_req ∨
  startswith "boost" (extract_boost fuel i packages boost_req).1 = true.
Proof.
  revert i packages boost_req.
  induction fuel as [|fuel IH]; intros i packages boost_req; [by left|].
  cbn [extract_boost]. destruct (packages !! i) as [pkg|]; [|by left].
  destruct (startswith "boost" pkg) eqn:Hb; [|apply IH].
  right. destruct (IH (S i) (delete i packages) pkg) as [->|?]; done.
Qed.

(** The loop, with its index and its deletions, computes [boost_scan]. *)
Lemma extract_boost_scan fuel (seen rest : list string) boost_req :
  length rest ≤ fuel →
  extract_boost fuel (length seen) (seen ++ rest) boost_req
  = let '(req, kept) := boost_scan rest boost_req in (req, seen ++ kept).
Proof.
  revert seen rest boost_req.
  induction fuel as [|fuel IH]; intros seen rest boost_req Hlen.
  - destruct rest; [done|simpl in Hlen; lia].
  - destruct rest as [|pkg rest].
    + cbn [extract_boost boost_scan]. rewrite lookup_ge_None_2; [done|].
      rewrite length_app. simpl. lia.
    + cbn [extract_boost boost_scan].
      rewrite list_lookup_middle by done.
      destruct (startswith "boost" pkg).
      * rewrite delete_middle.
        destruct rest as [|next rest].
        -- destruct fuel; cbn [extract_boost]; [done|].
           rewrite lookup_ge_None_2; [done|]. rewrite length_app. simpl. lia.
        -- replace (S (length seen)) with (length (seen ++ [next]))
             by (rewrite length_app; simpl; lia).
           rewrite (cons_middle next seen rest), (assoc_L (++)).
           rewrite IH by (simpl in Hlen; lia).
           destruct (boost_scan rest pkg). by rewrite <-(assoc_L (++)).
      * replace (S (length seen)) with (length (seen ++ [pkg]))
          by (rewrite length_app; simpl; lia).
        rewrite (cons_middle pkg seen rest), (assoc_L (++)).
        rewrite IH by (simpl in Hlen; lia).
        destruct (boost_scan rest boost_req). by rewrite <-(assoc_L (++)).
Qed.

(** When no Boost entry comes directly after another, every one of them
    is removed. *)
Lemma boost_scan_isolated n packages boost_req :
  length packages ≤ n → boost_isolated packages →
  (boost_scan packages boost_req).2
  = filter (λ pkg, startswith "boost" pkg = false) packages.
Proof.
  revert packages boost_req.
  induction n as [|n IH]; intros packages boost_req Hlen Hiso.
  - destruct packages; [done|simpl in Hlen; lia].
  - destruct packages as [|pkg packages]; [done|].
    cbn [boost_scan]. destruct Hiso as [Hnext Hiso].
    destruct (startswith "boost" pkg) eqn:Hpkg.
    + rewrite filter_cons_False by (by rewrite Hpkg).
      destruct packages as [|next packages]; [done|].
      rewrite filter_cons_True by (by apply Hnext).
      destruct Hiso as [_ Hiso].
      specialize (IH packages pkg ltac:(simpl in Hlen; lia) Hiso).
      destruct (boost_scan packages pkg). cbn in *. by rewrite IH.
    + rewrite filter_cons_True by done.
      specialize (IH packages boost_req ltac:(simpl in Hlen; lia) Hiso).
      destruct (boost_scan packages boost_req). cbn in *. by rewrite IH.
Qed.

Lemma extract_boost_isolated packages :
  boost_isolated packages →
  (extract_boost (length packages) 0 packages "").2
  = filter (λ pkg, startswith "boost" pkg = false) packages.
Proof.
  intros Hiso.
  pose proof (extract_boost_scan (length packages) [] packages "" ltac:(done)) as Hs.
  cbn [length app] in Hs. rewrite Hs.
  rewrite <-(boost_scan_isolated (length packages) packages "") by done.
  by destruct (boost_scan packages "").
Qed.

(** What one package contributes to the libraries. *)
Lemma package_libs_raise pkg e :
  package_libs w pkg = Raise e → e = UnsupportedPlatform.
Proof.
  unfold package_libs. repeat case_match; try done. by intros [= <-].
Qed.

Lemma add_includes_Ok dirs ui si pkg_includes h :
  ∃ r, add_includes dirs ui si pkg_includes h = Ok r.
Proof.
  revert pkg_includes h.
  induction dirs as [|k dirs IH]; intros pkg_includes h; [by eexists|].
  cbn [add_includes]. unfold mbind, heap_bind, Heap.bind, read.
  case_decide; [apply IH|]. unfold extend. apply IH.
Qed.

Lemma add_packages_raise pkgs ui si p h e :
  add_packages w pkgs ui si p h = Raise e → e = UnsupportedPlatform.
Proof.
  revert p h. induction pkgs as [|pkg pkgs IH]; intros p h; [done|].
  cbn [add_packages]. unfold mbind, heap_bind, Heap.bind at 1.
  destruct (add_includes_Ok (PkgConfig.include_directories pkg) ui si
              (p_pkg_includes p) h) as [[incs h1] ->].
  unfold Heap.bind, lift.
  destruct (package_libs w pkg) as [libs|e'] eqn:Hl.
  - apply IH.
  - intros [= <-]. by apply package_libs_raise in Hl.
Qed.

(** The loop over the packages appends, for each package in turn, the
    library names [package_libs] gives for it. *)
Lemma add_packages_Ok pkgs ui si p h p' h' :
  add_packages w pkgs ui si p h = Ok (p', h') →
  ∃ libss,
    Forall2 (λ pkg libs, package_libs w pkg = Ok libs) pkgs libss ∧
    p_libraries p' = p_libraries p ++ concat libss ∧
    p_pkg_libraries p' = p_pkg_libraries p ++ concat libss ∧
    p_define_macros p `prefix_of` p_define_macros p'.
Proof.
  revert p h. induction pkgs as [|pkg pkgs IH]; intros p h.
  - intros [= <- <-]. exists []. by rewrite !app_nil_r.
  - cbn [add_packages]. unfold mbind, heap_bind, Heap.bind at 1.
    destruct (add_includes_Ok (PkgConfig.include_directories pkg) ui si
                (p_pkg_includes p) h) as [[incs h1] ->].
    unfold Heap.bind, lift.
    destruct (package_libs w pkg) as [libs|e'] eqn:Hl; [|done].
    intros (libss & Hall & Hlibs & Hpkg & Hmac)%IH. cbn in *.
    exists (libs :: libss). split_and!.
    + by constructor.
    + by rewrite Hlibs, <-(assoc_L (++)).
    + by rewrite Hpkg, <-(assoc_L (++)).
    + etrans; [|done]. by apply prefix_app_r.
Qed.

Lemma heap_bind_Ok {A B} (m : M A) (k : A → M B) h r :
  (m ≫= k) h = Ok r → ∃ a h1, m h = Ok (a, h1) ∧ k a h1 = Ok r.
Proof.
  unfold mbind, heap_bind, Heap.bind.
  destruct (m h) as [[a h1]|e]; [|done]. intros Hk. by exists a, h1.
Qed.

Lemma lift_Ok {A} (r : result A) h a h1 :
  lift r h = Ok (a, h1) → r = Ok a ∧ h1 = h.
Proof. unfold lift. destruct r; [|done]. by intros [= <- <-]. Qed.

Lemma add_boost_Ok boost_req boost_modules ui si p h p' h' :
  add_boost w boost_req boost_modules ui si p h = Ok (p', h') →
  p_define_macros p `prefix_of` p_define_macros p' ∧
  p_libraries p `prefix_of` p_libraries p' ∧
  p_pkg_libraries p `prefix_of` p_pkg_libraries p'.
Proof.
  unfold add_boost. case_decide; [by intros [= <- <-]|].
  intros (b & h1 & _ & Hk)%heap_bind_Ok.
  apply heap_bind_Ok in Hk as (user & h2 & _ & Hk).
  apply heap_bind_Ok in Hk as (incs & h3 & _ & Hk).
  destruct (match boost_modules with
            | [] => ([], [])
            | _ :: _ => Boost.libconfig b boost_modules
            end) as [libdirs libs].
  injection Hk as <- <-. cbn. split_and!; by apply prefix_app_r.
Qed.

(** What a successful run of the constructor has gone through, and where
    the self macros and the library names of the packages end up. *)
Lemma init_Ok name sources kw h e h' :
  init w name sources kw h = Ok (e, h') →
  ∃ packages boost_req rest self pkgs libss,
    normalize_requirements ((λ k, lower (strip k)) <$> str_or_list (kw_packages kw))
    = Ok packages ∧
    extract_boost (length packages) 0 packages "" = (boost_req, rest) ∧
    generate_self_macros (python_major w) name (kw_version kw) = Ok self ∧
    check_packages (registry w) (version_cmp w) rest = Ok pkgs ∧
    Forall2 (λ pkg libs, package_libs w pkg = Ok libs) pkgs libss ∧
    (∀ m, m ∈ self → m ∈ define_macros e) ∧
    (∀ l, l ∈ concat libss → l ∈ libraries e ∧ l ∈ pkg_libraries e).
Proof.
  unfold init. intros H.
  apply heap_bind_Ok in H as (packages & h1 & [Hnorm _]%lift_Ok & H).
  apply heap_bind_Ok in H
    as ([[bob_includes bob_libraries] bob_library_dirs] & h2 & _ & H).
  apply heap_bind_Ok in H as (si & h3 & _ & H).
  destruct (extract_boost (length packages) 0 packages "") as [boost_req rest] eqn:Hex.
  cbv zeta in H.
  apply heap_bind_Ok in H as (self & h4 & [Hself _]%lift_Ok & H).
  apply heap_bind_Ok in H as (ui & h5 & _ & H).
  apply heap_bind_Ok in H as (p1 & h6 & Hboost & H).
  apply heap_bind_Ok in H as (pkgs & h7 & [Hcheck _]%lift_Ok & H).
  apply heap_bind_Ok in H as (p2 & h8 & Hpkgs & H).
  apply heap_bind_Ok in H as (isys & h9 & _ & H).
  apply heap_bind_Ok in H as (inc & h10 & _ & H).
  apply heap_bind_Ok in H as ([] & h11 & _ & H).
  apply heap_bind_Ok in H as (user & h12 & _ & H).
  apply heap_bind_Ok in H as (own & h13 & _ & H).
  apply heap_bind_Ok in H as (eca & h14 & _ & H).
  apply heap_bind_Ok in H as (rld & h15 & _ & H).
  injection H as <- <-. cbn [define_macros libraries pkg_libraries].
  apply add_boost_Ok in Hboost as (Hm1 & _ & _). cbn in Hm1.
  apply add_packages_Ok in Hpkgs as (libss & Hall & Hlibs & Hpkglibs & Hm2).
  exists packages, boost_req, rest, self, pkgs, libss. split_and!; try done.
  - intros m Hm. apply elem_of_uniq.
    assert (m ∈ p_define_macros p2).
    { destruct Hm1 as [k1 Hk1], Hm2 as [k2 Hk2].
      rewrite Hk2, Hk1, !elem_of_app. auto. }
    unfold merged. destruct (kw_define_macros kw); [|done].
    rewrite elem_of_app. auto.
  - intros l Hl. split.
    + apply elem_of_uniq. unfold merged. rewrite Hlibs.
      destruct (kw_libraries kw); rewrite !elem_of_app; auto.
    + rewrite Hpkglibs, elem_of_app. auto.
Qed.

(** *** The list objects of the caller *)

Lemma grows_refl h : grows h h.
Proof. intros r l Hr. exists []. by rewrite app_nil_r. Qed.

Lemma grows_trans h1 h2 h3 : grows h1 h2 → grows h2 h3 → grows h1 h3.
Proof.
  intros H12 H23 r l Hr. destruct (H12 r l Hr) as [l1 H1].
  destruct (H23 r _ H1) as [l2 H2]. exists (l1 ++ l2).
  by rewrite (assoc_L (++)).
Qed.

Ltac grows_chain :=
  repeat first [assumption | apply grows_refl | eapply grows_trans; [eassumption|]].

Lemma new_list_grows l h r h' : new_list l h = Ok (r, h') → grows h h'.
Proof.
  intros [= <- <-] r' l' Hr'. exists []. rewrite app_nil_r.
  rewrite lookup_insert_ne; [done|]. intros <-.
  apply (is_fresh (dom h)). apply elem_of_dom. by eexists.
Qed.

Lemma read_grows r h l h' : read r h = Ok (l, h') → grows h h'.
Proof. intros [= _ <-]. apply grows_refl. Qed.

Lemma extend_lookup r l h u h' :
  extend r l h = Ok (u, h') → h' !! r = Some (default [] (h !! r) ++ l).
Proof. intros [= _ <-]. apply lookup_insert_eq. Qed.

Lemma extend_grows r l h u h' : extend r l h = Ok (u, h') → grows h h'.
Proof.
  intros [= _ <-] r' l' Hr'. destruct (decide (r = r')) as [->|Hne].
  - exists l. by rewrite lookup_insert_eq, Hr'.
  - exists []. by rewrite lookup_insert_ne, app_nil_r.
Qed.

Lemma ref_or_new_grows (o : option ref) h r h' :
  match o with Some r => mret r | None => new_list [] end h = Ok (r, h') →
  grows h h' ∧ (∀ r0, o = Some r0 → r = r0).
Proof.
  destruct o as [r0|].
  - intros [= <- <-]. split; [apply grows_refl|]. by intros ? [= <-].
  - intros Hn. split; [by eapply new_list_grows|done].
Qed.

Lemma add_includes_grows dirs ui si pkg_includes h incs h' :
  add_includes dirs ui si pkg_includes h = Ok (incs, h') → grows h h'.
Proof.
  revert pkg_includes h.
  induction dirs as [|k dirs IH]; intros pkg_includes h.
  - intros [= _ <-]. apply grows_refl.
  - cbn [add_includes]. intros (user & h1 & Hread & Hk)%heap_bind_Ok.
    apply read_grows in Hread. case_decide.
    + eapply grows_trans; [done|]. by eapply IH.
    + apply heap_bind_Ok in Hk as (u & h2 & Hext%extend_grows & Hk).
      eapply grows_trans; [done|]. eapply grows_trans; [done|]. by eapply IH.
Qed.

Lemma lift_grows {A} (m : result A) h a h' : lift m h = Ok (a, h') → grows h h'.
Proof. intros [_ ->]%lift_Ok. apply grows_refl. Qed.

Lemma add_packages_grows pkgs ui si p h p' h' :
  add_packages w pkgs ui si p h = Ok (p', h') → grows h h'.
Proof.
  revert p h. induction pkgs as [|pkg pkgs IH]; intros p h.
  - intros [= _ <-]. apply grows_refl.
  - cbn [add_packages]. intros (incs & h1 & Hinc%add_includes_grows & Hk)%heap_bind_Ok.
    apply heap_bind_Ok in Hk as (libs & h2 & Hl%lift_grows & Hk).
    apply IH in Hk. grows_chain.
Qed.

Lemma add_boost_grows boost_req boost_modules ui si p h p' h' :
  add_boost w boost_req boost_modules ui si p h = Ok (p', h') → grows h h'.
Proof.
  unfold add_boost. case_decide; [intros [= _ <-]; apply grows_refl|].
  intros (b & h1 & Hb%lift_grows & Hk)%heap_bind_Ok.
  apply heap_bind_Ok in Hk as (user & h2 & Hr%read_grows & Hk).
  apply heap_bind_Ok in Hk as (incs & h3 & Hincs & Hk).
  assert (grows h2 h3).
  { case_decide; [injection Hincs as _ <-; apply grows_refl|].
    apply heap_bind_Ok in Hincs as (u & h4 & He%extend_grows & Hincs).
    by injection Hincs as _ <-. }
  destruct (match boost_modules with
            | [] => ([], [])
            | _ :: _ => Boost.libconfig b boost_modules
            end) as [libdirs libs].
  injection Hk as _ <-. grows_chain.
Qed.

(** Whenever the constructor succeeds on a caller who passed the list
    object [include_dirs], that object has been appended to: it ends up
    holding its old contents followed by more entries, one of which is the
    include directory of bob.extension. *)
Lemma init_extends_include_dirs name sources kw h e h' r l :
  init w name sources kw h = Ok (e, h') →
  kw_include_dirs kw = Some r → h !! r = Some l →
  ∃ l', h' !! r = Some (l ++ l') ∧
        resource_filename w "bob.extension" "include" ∈ l'.
Proof.
  unfold init. intros H Hkw Hr.
  apply heap_bind_Ok in H as (packages & h1 & G1%lift_grows & H).
  apply heap_bind_Ok in H as (bobs & h2 & G2%lift_grows & H).
  destruct bobs as [[bob_includes bob_libraries] bob_library_dirs].
  apply heap_bind_Ok in H as (si & h3 & [G3 _]%ref_or_new_grows & H).
  destruct (extract_boost (length packages) 0 packages "") as [boost_req rest].
  cbv zeta in H.
  apply heap_bind_Ok in H as (self & h4 & G4%lift_grows & H).
  apply heap_bind_Ok in H as (ui & h5 & [G5 _]%ref_or_new_grows & H).
  apply heap_bind_Ok in H as (p1 & h6 & G6%add_boost_grows & H).
  apply heap_bind_Ok in H as (pkgs & h7 & G7%lift_grows & H).
  apply heap_bind_Ok in H as (p2 & h8 & G8%add_packages_grows & H).
  apply heap_bind_Ok in H as (isys & h9 & G9%read_grows & H).
  apply heap_bind_Ok in H as (inc & h10 & [G10 Hinc]%ref_or_new_grows & H).
  apply heap_bind_Ok in H as ([] & h11 & Hext & H).
  apply heap_bind_Ok in H as (user & h12 & G12%read_grows & H).
  apply heap_bind_Ok in H as (own & h13 & G13%read_grows & H).
  apply heap_bind_Ok in H as (eca & h14 & G14%lift_grows & H).
  apply heap_bind_Ok in H as (rld & h15 & Hrld & H).
  injection H as _ <-.
  rewrite (Hinc r Hkw) in Hext.
  assert (G0 : grows h h10) by grows_chain.
  destruct (G0 r l Hr) as [a Ha].
  apply extend_lookup in Hext. rewrite Ha in Hext. cbn in Hext.
  assert (G15 : grows h14 h15).
  { case_decide.
    - apply heap_bind_Ok in Hrld as (rt & k1 & [K1 _]%ref_or_new_grows & Hrld).
      apply heap_bind_Ok in Hrld as (u & k2 & K2%extend_grows & Hrld).
      apply heap_bind_Ok in Hrld as (dirs & k3 & K3%read_grows & Hrld).
      injection Hrld as _ <-. grows_chain.
    - destruct (kw_runtime_library_dirs kw).
      + apply heap_bind_Ok in Hrld as (dirs & k3 & K3%read_grows & Hrld).
        by injection Hrld as _ <-.
      + injection Hrld as _ <-. apply grows_refl. }
  assert (G11 : grows h11 h15) by grows_chain.
  destruct (G11 r _ Hext) as [b Hb].
  exists (a ++ [resource_filename w "bob.extension" "include"] ++ b). split.
  - rewrite Hb. f_equal. by rewrite <-!(assoc_L (++)).
  - rewrite !elem_of_app, list_elem_of_singleton. auto.
Qed.

End InitFacts.

Section SelfMacrosFacts.

Lemma rpartition_dot_no_dot leaf :
  all_chars not_dot leaf = true → rpartition_dot leaf = None.
Proof.
  induction leaf as [|c leaf IH]; [done|]. simpl.
  intros [Hc Hl]%andb_true_iff. rewrite IH by done.
  unfold not_dot in Hc. destruct (decide (c = "."%char)) as [->|]; done.
Qed.


End SelfMacrosFacts.

(** C5: evaluation of the Boost loop and of the constructor on the
    packages [boost >= 1.40], [boost <= 1.60], [pkga].  The list is in
    normal form; the loop deletes the first Boost entry while iterating and
    so steps over the second, which stays among the remaining packages and
    is then looked up through pkg-config. *)
Theorem extract_boost_skips_entry :
  normalize_requirements
    ((λ k, lower (strip k)) <$> ["boost >= 1.40"; "boost <= 1.60"; "pkga"])
  = Ok ["boost >= 1.40"; "boost <= 1.60"; "pkga"] ∧
  Extension.extract_boost 3 0 ["boost >= 1.40"; "boost <= 1.60"; "pkga"] ""
  = ("boost >= 1.40", ["boost <= 1.60"; "pkga"]) ∧
  Extension.init (Sample.world "Linux") "bob.example._library" ["a.cpp"]
    (Sample.with_packages ["boost >= 1.40"; "boost <= 1.60"; "pkga"]) ∅
  = Raise (PackageNotFound "boost").
Proof. split_and!; vm_compute; reflexivity. Qed.

(** C10: evaluation of the constructor when the caller passes the list
    object [include_dirs] holding /my/include.  After the call the
    caller's list holds one entry more, the include directory of
    bob.extension. *)
Theorem init_appends_to_caller_include_dirs :
  ∃ e h',
    Extension.init (Sample.world "Linux") "bob.example._library" ["a.cpp"]
      Sample.with_include_dirs Sample.caller_heap = Ok (e, h') ∧
    Sample.caller_heap !! 0 = Some ["/my/include"] ∧
    h' !! 0 = Some ["/my/include"; "/site-packages/bob.extension/include"].
Proof.
  destruct (Extension.init (Sample.world "Linux") "bob.example._library" ["a.cpp"]
              Sample.with_include_dirs Sample.caller_heap) as [[e h']|err] eqn:Hinit.
  - exists e, h'. split; [done|]. split; [by vm_compute|].
    revert Hinit. vm_compute. intros [= _ <-]. reflexivity.
  - revert Hinit. by vm_compute.
Qed.

(** C8: for a resolved package whose name starts with [bob-], the
    flag-assembly step decorates each library name with the resolved
    version, [name.version] on the Apple platform and
    [:libname.so.version] on the Linux platform, and on every other
    platform the step raises the unsupported-platform error; a package
    outside the sibling family keeps its library names as they are on all
    platforms.  The names so obtained are the ones that reach the
    libraries of the constructed extension. *)
Theorem sibling_library_decoration (w : Extension.world) (pkg : PkgConfig.t) :
  (startswith "bob-" (PkgConfig.name pkg) = true →
   (Extension.platform_system w = "Darwin" →
    Extension.package_libs w pkg
    = Ok ((λ k, k +:+ "." +:+ PkgConfig.version pkg) <$> PkgConfig.libraries pkg)) ∧
   (Extension.platform_system w = "Linux" →
    Extension.package_libs w pkg
    = Ok ((λ k, ":lib" +:+ k +:+ ".so." +:+ PkgConfig.version pkg)
            <$> PkgConfig.libraries pkg)) ∧
   (Extension.platform_system w ≠ "Darwin" → Extension.platform_system w ≠ "Linux" →
    Extension.package_libs w pkg = Raise UnsupportedPlatform ∧
    ∀ before after ui si p h,
      Extension.add_packages w (before ++ pkg :: after) ui si p h
      = Raise UnsupportedPlatform)) ∧
  (startswith "bob-" (PkgConfig.name pkg) = false →
   Extension.package_libs w pkg = Ok (PkgConfig.libraries pkg)) ∧
  (∀ name sources kw h e h',
     Extension.init w name sources kw h = Ok (e, h') →
     ∀ packages rest,
       normalize_requirements
         ((λ k, lower (strip k)) <$> Extension.str_or_list (Extension.kw_packages kw))
       = Ok packages →
       rest = (Extension.extract_boost (length packages) 0 packages "").2 →
       ∃ pkgs,
         check_packages (Extension.registry w) (Extension.version_cmp w) rest = Ok pkgs ∧
         (pkg ∈ pkgs →
          ∃ libs, Extension.package_libs w pkg = Ok libs ∧
                  ∀ l, l ∈ libs → l ∈ Extension.libraries e)).
Proof.
  split_and!.
  - intros Hbob. unfold Extension.package_libs. rewrite Hbob. split_and!.
    + intros ->. done.
    + intros ->. done.
    + intros Hd Hl. rewrite !decide_False by done. split; [done|].
      intros before after ui si p h.
      destruct (Extension.add_packages w (before ++ pkg :: after) ui si p h)
        as [[p' h']|e] eqn:Hadd.
      * apply add_packages_Ok in Hadd as (libss & Hall & _).
        apply Forall2_app_inv_l in Hall as (l1 & l2 & _ & Hall & _).
        apply Forall2_cons_inv_l in Hall as (libs & l3 & Hpkg & _).
        unfold Extension.package_libs in Hpkg.
        by rewrite Hbob, !decide_False in Hpkg by done.
      * f_equal. by eapply add_packages_raise.
  - intros Hbob. unfold Extension.package_libs. by rewrite Hbob.
  - intros name sources kw h e h' Hinit packages rest Hnorm ->.
    apply init_Ok in Hinit
      as (packages' & boost_req & rest & self & pkgs & libss
          & Hnorm' & Hex & _ & Hcheck & Hall & _ & Hlibs).
    rewrite Hnorm in Hnorm'. injection Hnorm' as <-. rewrite Hex. cbn.
    exists pkgs. split; [done|]. intros Hin.
    apply list_elem_of_lookup in Hin as [i Hi].
    destruct (Forall2_lookup_l _ _ _ _ _ Hall Hi) as (libs & Hlibss & Hpkg).
    exists libs. split; [done|]. intros l Hl. apply Hlibs.
    apply elem_of_concat. exists libs.
    split; [by eapply list_elem_of_lookup_2|done].
Qed.

Lemma sibling_library_decoration_witness :
  Extension.package_libs (Sample.world "Linux")
    (PkgConfig.Pkg "bob-core" "2.1" [] [] ["bob_core"] [])
  = Ok [":libbob_core.so.2.1"] ∧
  Extension.package_libs (Sample.world "Darwin")
    (PkgConfig.Pkg "bob-core" "2.1" [] [] ["bob_core"] [])
  = Ok ["bob_core.2.1"] ∧
  Extension.package_libs (Sample.world "Windows")
    (PkgConfig.Pkg "bob-core" "2.1" [] [] ["bob_core"] [])
  = Raise UnsupportedPlatform ∧
  Extension.package_libs (Sample.world "Windows") Sample.pkga = Ok ["pkga"].
Proof.
  split_and!.
  - apply (sibling_library_decoration (Sample.world "Linux")
             (PkgConfig.Pkg "bob-core" "2.1" [] [] ["bob_core"] [])); reflexivity.
  - apply (sibling_library_decoration (Sample.world "Darwin")
             (PkgConfig.Pkg "bob-core" "2.1" [] [] ["bob_core"] [])); reflexivity.
  - apply (sibling_library_decoration (Sample.world "Windows")
             (PkgConfig.Pkg "bob-core" "2.1" [] [] ["bob_core"] []));
      [reflexivity|done|done].
  - apply (sibling_library_decoration (Sample.world "Windows") Sample.pkga).
    reflexivity.
Defined.

(** ** [build_ext.run] *)

Section RunFacts.
Import BuildExt.
Context (build_lib : string) (call : list string → string → Z).

Lemma or_empty_id x : or_empty x = x.
Proof. by destruct x. Qed.

(** The first loop appends, for each library target in turn, its name, its
    target directory and its include directory. *)
Lemma build_libraries_Ok extensions objs libs lib_dirs include_dirs :
  (∀ e l, (e, l) ∈ library_targets objs extensions →
          compile call l (Probe.path_join build_lib (Extension.name e)) = Ok ()) →
  build_libraries build_lib call extensions objs libs lib_dirs include_dirs
  = Ok (libs ++ ((λ el, c_name el.2) <$> library_targets objs extensions),
        lib_dirs ++ ((λ el, c_target_directory el.2) <$> library_targets objs extensions),
        include_dirs
          ++ ((λ el, Probe.path_join (c_target_directory el.2) "include")
                <$> library_targets objs extensions)).
Proof.
  revert libs lib_dirs include_dirs.
  induction extensions as [|r extensions IH]; intros libs lib_dirs include_dirs Hc.
  - cbn. by rewrite !app_nil_r.
  - unfold library_targets in *. cbn [build_libraries omap list_omap] in *.
    destruct (objs !! r) as [[e [l|]]|] eqn:Hr; cbn in *.
    + rewrite (Hc e l) by left. cbn. rewrite IH.
      * by rewrite <-!(assoc_L (++)).
      * intros e' l' Hin. apply Hc. by right.
    + by apply IH.
    + by apply IH.
Qed.

(** A failed external process is the only way the first loop stops. *)
Lemma build_libraries_raise extensions objs libs lib_dirs include_dirs e :
  build_libraries build_lib call extensions objs libs lib_dirs include_dirs = Raise e →
  ∃ msg, e = OSError msg.
Proof.
  revert libs lib_dirs include_dirs.
  induction extensions as [|r extensions IH]; intros libs lib_dirs include_dirs; [done|].
  cbn [build_libraries]. destruct (objs !! r) as [[ex [l|]]|]; try apply IH.
  unfold compile. repeat case_decide; cbn; try (intros [= <-]; by eexists).
  apply IH.
Qed.

(** The second loop applies the three assignments to an object once for
    each time it is listed, and leaves the other objects alone. *)
Lemma propagate_lookup extensions libs lib_dirs include_dirs
      (objs : gmap Heap.ref target) r :
  propagate extensions libs lib_dirs include_dirs objs !! r
  = Nat.iter (occurrences r extensions) (set_defaults libs lib_dirs include_dirs)
      <$> objs !! r.
Proof.
  revert objs. induction extensions as [|x extensions IH]; intros objs.
  - cbn. destruct (objs !! r); reflexivity.
  - cbn [propagate]. rewrite IH. unfold occurrences.
    destruct (decide (x = r)) as [->|Hne].
    + rewrite filter_cons_True by done. cbn [length].
      rewrite lookup_alter_eq. destruct (objs !! r) as [t|]; [|done].
      cbn [fmap option_fmap option_map]. by rewrite Nat.iter_succ_r.
    + rewrite filter_cons_False by done. by rewrite lookup_alter_ne.
Qed.

Lemma set_defaults_iter n libs lib_dirs include_dirs t :
  let t' := Nat.iter n (set_defaults libs lib_dirs include_dirs) t in
  Extension.libraries (ext t') = Nat.iter n (app libs) (Extension.libraries (ext t)) ∧
  Extension.library_dirs (ext t')
  = Nat.iter n (app lib_dirs) (Extension.library_dirs (ext t)) ∧
  Extension.include_dirs (ext t')
  = Nat.iter n (app include_dirs) (Extension.include_dirs (ext t)) ∧
  as_library t' = as_library t.
Proof.
  induction n as [|n IH]; [done|]. cbv zeta in *.
  destruct IH as (IH1 & IH2 & IH3 & IH4).
  rewrite !Nat.iter_succ. unfold set_defaults at 1 3 5 7.
  cbn [ext as_library Extension.libraries Extension.library_dirs
       Extension.include_dirs].
  by rewrite IH1, IH2, IH3, IH4, !or_empty_id.
Qed.

Lemma occurrences_elem_of r extensions :
  r ∈ extensions → 1 ≤ occurrences r extensions.
Proof.
  unfold occurrences. intros Hr.
  assert (r ∈ filter (λ x, x = r) extensions) as Hin
    by by apply list_elem_of_filter.
  destruct (filter (λ x, x = r) extensions); [by apply elem_of_nil in Hin|].
  simpl. lia.
Qed.

Lemma occurrences_NoDup r extensions :
  NoDup extensions → r ∈ extensions → occurrences r extensions = 1.
Proof.
  unfold occurrences. induction 1 as [|x extensions Hx Hnd IH].
  - by intros ?%elem_of_nil.
  - intros [->|Hr]%elem_of_cons.
    + rewrite filter_cons_True by done. cbn. f_equal.
      destruct (filter (λ y, y = x) extensions) as [|y ys] eqn:Hf; [done|].
      assert (y ∈ filter (λ y, y = x) extensions) as [-> ?]%list_elem_of_filter
        by (rewrite Hf; left). done.
    + rewrite filter_cons_False; [by apply IH|]. intros ->. done.
Qed.

End RunFacts.

(** C9: when every library target compiles, the orchestrator succeeds and
    hands over the targets that are not libraries.  The names, the target
    directories and the include subdirectories of the library targets are
    accumulated in declaration order, and every remaining extension target
    gets them prepended to its own libraries, library directories and
    include directories (once, when the target is listed once).  In
    particular the first library name becomes the first entry of the
    libraries of every remaining extension, whether or not it listed
    libraries of its own. *)
Theorem run_two_phase (build_lib : string) (call : list string → string → Z)
        (extensions : list Heap.ref) (objs : BuildExt.objects) :
  (∀ e l, (e, l) ∈ library_targets objs extensions →
          BuildExt.compile call l (Probe.path_join build_lib (Extension.name e)) = Ok ()) →
  let built := library_targets objs extensions in
  let libs := (λ el, BuildExt.c_name el.2) <$> built in
  let lib_dirs := (λ el, BuildExt.c_target_directory el.2) <$> built in
  let include_dirs :=
    (λ el, Probe.path_join (BuildExt.c_target_directory el.2) "include") <$> built in
  ∃ objs',
    BuildExt.run build_lib call extensions objs
    = Ok (filter (λ r, ¬ BuildExt.is_library objs r) extensions, objs') ∧
    ∀ r t,
      r ∈ extensions → objs !! r = Some t → BuildExt.as_library t = None →
      ∃ t' n,
        objs' !! r = Some t' ∧ n = occurrences r extensions ∧ 1 ≤ n ∧
        (NoDup extensions → n = 1) ∧
        Extension.libraries (BuildExt.ext t')
        = Nat.iter n (app libs) (Extension.libraries (BuildExt.ext t)) ∧
        Extension.library_dirs (BuildExt.ext t')
        = Nat.iter n (app lib_dirs) (Extension.library_dirs (BuildExt.ext t)) ∧
        Extension.include_dirs (BuildExt.ext t')
        = Nat.iter n (app include_dirs) (Extension.include_dirs (BuildExt.ext t)) ∧
        (∀ first, head libs = Some first →
                  head (Extension.libraries (BuildExt.ext t')) = Some first).
Proof.
  intros Hc built libs lib_dirs include_dirs.
  eexists. split.
  - unfold BuildExt.run. rewrite (build_libraries_Ok _ _ _ _ _ _ _ Hc). cbn.
    reflexivity.
  - intros r t Hr Ht Hlib.
    set (rest := filter (λ r, ¬ BuildExt.is_library objs r) extensions).
    assert (Hrest : r ∈ rest).
    { apply list_elem_of_filter. split; [|done].
      intros (t0 & l & Ht0 & Hl). congruence. }
    rewrite propagate_lookup, Ht. cbn [fmap option_fmap option_map].
    exists (Nat.iter (occurrences r rest)
              (BuildExt.set_defaults libs lib_dirs include_dirs) t),
           (occurrences r rest).
    destruct (set_defaults_iter (occurrences r rest) libs lib_dirs include_dirs t)
      as (Hl1 & Hl2 & Hl3 & _).
    assert (Hocc : occurrences r rest = occurrences r extensions).
    { unfold occurrences, rest. rewrite list_filter_filter. f_equal.
      apply list_filter_iff. intros x. split; [by intros [? _]|].
      intros ->. split; [done|]. intros (t0 & l & Ht0 & Hl). congruence. }
    pose proof (occurrences_elem_of r rest Hrest) as Hn.
    split_and!; try done.
    + intros Hnd. rewrite Hocc. by apply occurrences_NoDup.
    + intros first Hfirst. rewrite Hl1.
      destruct (occurrences r rest) as [|n]; [lia|]. cbn.
      destruct libs as [|x libs']; [done|]. done.
Qed.

Lemma run_two_phase_witness :
  ∃ objs' t',
    BuildExt.run "build/lib" (λ _ _, 0%Z) [1; 0] Sample.targets = Ok ([1], objs') ∧
    objs' !! 1 = Some t' ∧
    Extension.libraries (BuildExt.ext t') = ["bob_example"] ∧
    head (Extension.libraries (BuildExt.ext t')) = Some "bob_example".
Proof.
  destruct (run_two_phase "build/lib" (λ _ _, 0%Z) [1; 0] Sample.targets)
    as (objs' & Hrun & Hobjs).
  - intros e l _. reflexivity.
  - destruct (Hobjs 1 (BuildExt.Target (Sample.extension_of "bob.example._library" []) None))
      as (t' & n & Ht' & Hn & _ & Hone & Hlibs & _ & _ & Hhead).
    + by left.
    + reflexivity.
    + reflexivity.
    + exists objs', t'. split_and!.
      * exact Hrun.
      * exact Ht'.
      * rewrite Hlibs, Hn. reflexivity.
      * apply Hhead. reflexivity.
Defined.

Example split_ex1 : Regex.split "pkg >= 1.2" = ["pkg"; ">="; "1.2"].
Proof. reflexivity. Qed.
Example split_ex2 : Regex.split "pkg" = ["pkg"].
Proof. reflexivity. Qed.
Example split_ex3 : Regex.split "a>1<2" = ["a"; ">"; "1"; "<"; "2"].
Proof. reflexivity. Qed.
Example split_ex4 : Regex.split "a b  ==1.0 " = ["a b"; "=="; "1.0 "].
Proof. reflexivity. Qed.
Example norm_ex1 :
  normalize_requirements ["a > 1"; "b"; "a>2"; "a > 1"; "c"; "b<3"]
  = Ok ["a > 1"; "a > 2"; "b < 3"; "c"].
Proof. vm_compute. reflexivity. Qed.

Example loose_ex1 : LooseVersion.compare "1.2" "1.10" = Lt.
Proof. reflexivity. Qed.
Example loose_ex2 : LooseVersion.compare "1.9" "1.10" = Lt.
Proof. reflexivity. Qed.
Example isys_ex1 :
  reorganize_isystem ["-O2"; "-isystem"; "/usr/include"; "-isystem"; "/usr/local/include"; "-g";
                      "-isystem"; "/opt/foo/include/special"; "-isystem"; "/usr/include"]
  = Ok ["-O2"; "-g"; "-isystem"; "/opt/foo/include/special"; "-isystem"; "/usr/local/include";
        "-isystem"; "/usr/include"].
Proof. vm_compute. reflexivity. Qed.
Example macros_ex1 : generate_self_macros 3 "bob.core._library" (Some "1.0")
  = Ok [("BOB_EXT_MODULE_PREFIX", quoted "bob.core"); ("BOB_EXT_MODULE_NAME", quoted "_library");
        ("BOB_EXT_ENTRY_NAME", "PyInit__library"); ("BOB_EXT_MODULE_VERSION", quoted "1.0")].
Proof. reflexivity. Qed.

Example find_file_ex1 :
  Probe.find_file (Probe.System ∅ ":" (λ p, [p]) (λ p, bool_decide (p = "/x/lib/libz.so")) "linux" "64bit")
     "libz.so" (Some ["lib"]) (Some ["/x"; "/y"]) = ["/x/lib/libz.so"].
Proof. vm_compute. reflexivity. Qed.
Example find_library_ex1 :
  Probe.find_library (Probe.System ∅ ":" (λ p, [p])
       (λ p, bool_decide (p ∈ ["/x/lib/libz.so"; "/x/lib64/libz.so.1.2"; "/usr/lib/libz.a"])) "linux" "64bit")
     "z" (Some "1.2") None (Some ["/x"]) false = ["/x/lib64/libz.so.1.2"; "/x/lib/libz.so"; "/usr/lib/libz.a"].
Proof. vm_compute. reflexivity. Qed.
Example boost_default_ex1 :
  strip (Extension.remove_all "boost" 0 "boost >= 1.0") = ">= 1.0".
Proof. reflexivity. Qed.
Example init_boost_modules_ex1 :
  ∃ e h, Extension.init (Sample.world "Darwin") "bob.example._library" ["a.cpp"]
           (Extension.Kwargs None None None (Some (inl "system")) (Some "1.0")
                             None None None None None None) ∅ = Ok (e, h) ∧
         Extension.libraries e = ["boost_system"] ∧
         Extension.extra_compile_args e
         = ["-std=c++0x"; "-Wno-#warnings"; "-isystem"; "/usr/include/boost"].
Proof. eexists _, _. split_and!; vm_compute; reflexivity. Qed.

(** * Further properties *)

(** ** [uniq] *)

Section UniqMore.
Context {A : Type} `{Countable A}.
Implicit Types (l : list A) (seen : gset A).

Lemma uniq_from_sublist seen l : uniq_from seen l `sublist_of` l.
Proof.
  revert seen. induction l as [|x l IH]; intros seen; simpl; [constructor|].
  case_decide; [by apply sublist_cons|by apply sublist_skip].
Qed.

Lemma uniq_snoc l x :
  uniq (l ++ [x]) = if decide (x ∈ l) then uniq l else uniq l ++ [x].
Proof.
  rewrite uniq_app. unfold uniq at 2. simpl.
  rewrite decide_False by set_solver. case_decide.
  - rewrite filter_cons_False by tauto. by rewrite app_nil_r.
  - by rewrite filter_cons_True by done.
Qed.

(** X1: [uniq] returns the elements of its argument without repetition, each
    at the place of its first occurrence: the result has no repetition and
    the same elements, it is obtained by deleting entries, and an entry added
    at the end is kept exactly when it is new. *)
Theorem uniq_keeps_first_occurrences l :
  NoDup (uniq l) ∧
  (∀ x, x ∈ uniq l ↔ x ∈ l) ∧
  uniq l `sublist_of` l ∧
  (∀ x, uniq (l ++ [x]) = if decide (x ∈ l) then uniq l else uniq l ++ [x]).
Proof.
  split_and!.
  - apply NoDup_uniq.
  - intros x. apply elem_of_uniq.
  - apply uniq_from_sublist.
  - apply uniq_snoc.
Qed.

(** X2: [uniq] is idempotent, and the lists it leaves unchanged are exactly
    the lists without repetition. *)
Theorem uniq_fixed_points l :
  uniq (uniq l) = uniq l ∧ (uniq l = l ↔ NoDup l).
Proof.
  split; [apply uniq_idemp|]. split.
  - intros <-. apply NoDup_uniq.
  - apply uniq_NoDup.
Qed.

(** X3: [uniq] of a concatenation is [uniq] of the first list followed by the
    elements of [uniq] of the second that the first does not have; so the
    entries of a list put in front keep their places. *)
Theorem uniq_of_concatenation l1 l2 :
  uniq (l1 ++ l2) = uniq l1 ++ filter (λ x, x ∉ l1) (uniq l2) ∧
  uniq l1 `prefix_of` uniq (l1 ++ l2).
Proof.
  split; [apply uniq_app|]. rewrite uniq_app. by apply prefix_app_r.
Qed.

End UniqMore.

(** ** The requirement grammar *)

Section SplitMore.
Import Regex.

Lemma match_here_decompose t op rest :
  match_here t = Some (op, rest) →
  ∃ w1 w2,
    t = w1 +:+ op +:+ w2 +:+ rest ∧
    all_chars Py.is_space w1 = true ∧ all_chars Py.is_space w2 = true.
Proof.
  unfold match_here.
  destruct (span Py.is_space t) as [w1 s1] eqn:H1.
  destruct (span is_cmp s1) as [o s2] eqn:H2.
  destruct (span Py.is_space s2) as [w2 r] eqn:H3.
  apply span_spec in H1 as (-> & Hw1 & _).
  apply span_spec in H2 as (-> & _ & _).
  apply span_spec in H3 as (-> & Hw2 & _).
  destruct o as [|c o]; [done|]. simpl. intros [= <- <-].
  by exists w1, w2.
Qed.

Lemma match_here_compose w1 w2 op rest :
  all_chars Py.is_space w1 = true → all_chars Py.is_space w2 = true →
  valid_constraint (op, rest) →
  match_here (w1 +:+ op +:+ w2 +:+ rest) = Some (op, rest).
Proof.
  intros Hw1 Hw2 (Hne & Hop & Hv & Hc). simpl in *. unfold match_here.
  rewrite (span_app Py.is_space w1) by (by try apply head_is_cmp_app).
  assert (Hhead : head_is is_cmp (w2 +:+ rest) = false).
  { destruct w2 as [|c w2].
    - destruct rest as [|c rest]; [done|]. simpl in *.
      apply andb_true_iff in Hc as [Hc _]. unfold not_cmp in Hc.
      by destruct (is_cmp c).
    - simpl in *. apply andb_true_iff in Hw2 as [Hc' _].
      destruct (is_cmp c) eqn:Hcmp; [|done].
      by rewrite (cmp_not_space c Hcmp) in Hc'. }
  rewrite (span_app is_cmp op) by done.
  rewrite (span_app Py.is_space w2 rest) by done.
  by destruct op.
Qed.

Lemma split_fuel_odd n s : Nat.Odd (length (split_fuel n s)).
Proof.
  revert s. induction n as [|n IH]; intros s; [by exists 0|]. simpl.
  destruct (search s) as [[[pre op] rest]|]; [|by exists 0].
  destruct (IH rest) as [m Hm]. exists (S m). simpl. lia.
Qed.

End SplitMore.

(** X4: The split of a requirement string always has an odd number of pieces.
    It is the string alone exactly when the string has no comparator
    character; it is a name, a comparator and a version exactly when the
    string is the name, white space, the comparator run, white space and
    the version, where the name has no comparator character and no trailing
    white space and the version no comparator character and no leading
    white space.  White space is every character [str.isspace] accepts,
    which is the class of the pattern: also U+001C to U+001F, U+0085 and
    U+00A0.  Printing the three pieces with single spaces gives a string
    that splits into the same pieces. *)
Theorem requirement_split_shapes (s : string) :
  Nat.Odd (length (Regex.split s)) ∧
  (Regex.split s = [s] ↔ all_chars not_cmp s = true) ∧
  (∀ nm op ver,
     Regex.split s = [nm; op; ver] ↔
     ∃ w1 w2,
       s = nm +:+ w1 +:+ op +:+ w2 +:+ ver ∧
       all_chars Py.is_space w1 = true ∧ all_chars Py.is_space w2 = true ∧
       all_chars not_cmp nm = true ∧ no_trailing_space nm = true ∧
       valid_constraint (op, ver)) ∧
  (∀ nm op ver,
     Regex.split s = [nm; op; ver] →
     Regex.split (join " " [nm; op; ver]) = [nm; op; ver]).
Proof.
  split_and!.
  - apply split_fuel_odd.
  - split.
    + intros [_ Hs]%split_one. by apply search_None.
    + apply split_bare.
  - intros nm op ver. split.
    + intros Hs. pose proof (split_three_valid _ _ _ _ Hs) as (Hn & Hts & Hv).
      apply split_three in Hs as [Hs _].
      apply search_Some in Hs as (_ & _ & t & -> & Hm).
      apply match_here_decompose in Hm as (w1 & w2 & -> & Hw1 & Hw2).
      by exists w1, w2.
    + intros (w1 & w2 & -> & Hw1 & Hw2 & Hn & Hts & Hv).
      rewrite split_unfold.
      rewrite (search_app nm _ op ver) by auto using match_here_compose.
      rewrite split_bare; [done|]. apply Hv.
  - intros nm op ver (Hn & Hts & Hv)%split_three_valid. by apply split_join.
Qed.

(** ** [normalize_requirements]: errors, contents and shape of the result *)

Section NormalizeMore.
Import Regex.

Lemma parse_requirement_bare r nm :
  parse_requirement r = Some (nm, None) ↔ split r = [nm].
Proof.
  unfold parse_requirement.
  destruct (split r) as [|n [|op [|ver [|? ?]]]]; split; try done;
    by intros [= ->].
Qed.

Lemma parse_requirement_three r nm op ver :
  parse_requirement r = Some (nm, Some (op, ver)) ↔ split r = [nm; op; ver].
Proof.
  unfold parse_requirement.
  destruct (split r) as [|n [|o [|v [|? ?]]]]; split; try done;
    by intros [= -> -> ->].
Qed.

Lemma parse_requirement_name r nm c :
  parse_requirement r = Some (nm, c) → requirement_name r = nm.
Proof.
  unfold parse_requirement, requirement_name.
  destruct (split r) as [|n [|o [|v [|? ?]]]]; try done; by intros [= -> _].
Qed.

Lemma parse_requirement_join nm op ver :
  all_chars not_cmp nm = true → no_trailing_space nm = true →
  valid_constraint (op, ver) →
  parse_requirement (join " " [nm; op; ver]) = Some (nm, Some (op, ver)).
Proof. intros. apply parse_requirement_three. by apply split_join. Qed.

(** *** The first loop *)

Lemma parse_all_step r R acc :
  parse_all (r :: R) acc
  = match parse_requirement r with
    | Some (nm, None) => parse_all R (setdefault_extend acc nm [])
    | Some (nm, Some c) => parse_all R (setdefault_extend acc nm [c])
    | None => Raise (MalformedRequirement r)
    end.
Proof.
  cbn [parse_all]. unfold parse_requirement.
  by destruct (split r) as [|n [|o [|v [|? ?]]]].
Qed.

Lemma parse_all_Ok_iff R acc :
  (∃ parsed, parse_all R acc = Ok parsed) ↔ Forall well_formed R.
Proof.
  revert acc. induction R as [|r R IH]; intros acc.
  - split; [constructor|by eexists].
  - rewrite parse_all_step, Forall_cons. unfold well_formed at 1.
    destruct (parse_requirement r) as [[nm [c|]]|].
    + rewrite IH. split; [by split|by intros [_ ?]].
    + rewrite IH. split; [by split|by intros [_ ?]].
    + split; [by intros [? ?]|by intros [[? ?] _]].
Qed.

Lemma parse_all_Raise R acc e :
  parse_all R acc = Raise e →
  ∃ before r after,
    R = before ++ r :: after ∧ Forall well_formed before ∧
    parse_requirement r = None ∧ e = MalformedRequirement r.
Proof.
  revert acc. induction R as [|r R IH]; intros acc; [done|].
  rewrite parse_all_step.
  destruct (parse_requirement r) as [[nm c]|] eqn:Hr.
  - intros Hp.
    assert (∃ acc', parse_all R acc' = Raise e) as [acc' Hp'].
    { destruct c; eauto. }
    destruct (IH _ Hp') as (before & r' & after & -> & Hb & Hr' & ->).
    exists (r :: before), r', after. split_and!; try done.
    constructor; [|done]. unfold well_formed. by rewrite Hr.
  - intros [= <-]. exists [], r, R. by split_and!.
Qed.

Lemma dict_values_setdefault_extend (parsed : parsed_dict) key more k :
  dict_values (setdefault_extend parsed key more) k
  = dict_values parsed k ++ (if decide (key = k) then more else []).
Proof.
  induction parsed as [|[k0 v] parsed IH]; simpl.
  - by destruct (decide (key = k)).
  - destruct (decide (k0 = key)) as [->|Hne]; simpl.
    + destruct (decide (key = k)); [done|by rewrite app_nil_r].
    + destruct (decide (k0 = k)) as [->|]; [|done].
      by rewrite decide_False, app_nil_r by done.
Qed.

Lemma dict_values_elem_of (parsed : parsed_dict) k v :
  NoDup (parsed.*1) → (k, v) ∈ parsed → dict_values parsed k = v.
Proof.
  induction parsed as [|[k0 v0] parsed IH]; [by intros _ ?%elem_of_nil|].
  rewrite fmap_cons. intros [Hk0 Hnd]%NoDup_cons [[= <- <-]|Hin]%elem_of_cons; simpl.
  - by rewrite decide_True.
  - rewrite decide_False; [by apply IH|]. intros ->. apply Hk0.
    apply list_elem_of_fmap. by exists (k, v).
Qed.

Lemma dict_values_missing (parsed : parsed_dict) k :
  k ∉ parsed.*1 → dict_values parsed k = [].
Proof.
  induction parsed as [|[k0 v0] parsed IH]; [done|]. simpl.
  intros Hk. rewrite decide_False by set_solver. apply IH. set_solver.
Qed.

Lemma uniq_app_cons_elem_of (l l' : list string) x :
  x ∈ l → uniq (l ++ x :: l') = uniq (l ++ l').
Proof.
  intros Hx. rewrite !uniq_app. f_equal.
  unfold uniq. simpl. rewrite decide_False by set_solver.
  rewrite filter_cons_False by tauto.
  rewrite (uniq_from_filter ({[x]} ∪ ∅)), list_filter_filter.
  apply list_filter_iff. intros y. set_solver.
Qed.

(** What the dictionary holds after the first loop: the keys are the names
    in the order they were first met, and each key has the constraints its
    requirements gave, in order. *)
Lemma parse_all_contents R acc parsed :
  parse_all R acc = Ok parsed → NoDup (acc.*1) →
  parsed.*1 = uniq (acc.*1 ++ (requirement_name <$> R)) ∧
  ∀ k, dict_values parsed k = dict_values acc k ++ constraints_of k R.
Proof.
  revert acc. induction R as [|r R IH]; intros acc.
  - intros [= <-] Hnd. split.
    + by rewrite app_nil_r, uniq_NoDup.
    + intros k. by rewrite app_nil_r.
  - rewrite parse_all_step.
    destruct (parse_requirement r) as [[nm c]|] eqn:Hr; [|done].
    intros Hp Hnd.
    assert (∃ more, parse_all R (setdefault_extend acc nm more) = Ok parsed ∧
                    more = match c with Some c => [c] | None => [] end)
      as (more & Hp' & Hmore) by (destruct c; eauto).
    apply IH in Hp' as [Hkeys Hvals]; [|by apply setdefault_extend_NoDup].
    pose proof (parse_requirement_name _ _ _ Hr) as Hname. split.
    + rewrite Hkeys, setdefault_extend_keys, fmap_cons, Hname.
      case_decide.
      * by rewrite uniq_app_cons_elem_of.
      * by rewrite <-(assoc_L (++)).
    + intros k. rewrite Hvals, dict_values_setdefault_extend.
      rewrite <-(assoc_L (++)). f_equal.
      unfold constraints_of. cbn [omap list_omap]. rewrite Hr, Hmore.
      destruct c as [c|]; [|by destruct (decide (nm = k))].
      by destruct (decide (nm = k)).
Qed.

(** *** The second loop *)

Lemma emit_all_concat (parsed : parsed_dict) :
  emit_all parsed = concat (emit_group <$> parsed).
Proof.
  induction parsed as [|[k v] parsed IH]; [done|].
  cbn [emit_all fmap list_fmap concat]. rewrite <-IH. unfold emit_group. simpl.
  by destruct (uniq v).
Qed.

Lemma elem_of_emit_group e s :
  s ∈ emit_group e ↔
  (e.2 = [] ∧ s = e.1) ∨ ∃ c, c ∈ e.2 ∧ s = join " " [e.1; c.1; c.2].
Proof.
  unfold emit_group. destruct (uniq e.2) as [|c0 cs] eqn:Hu.
  - assert (e.2 = []) as Hnil.
    { destruct e.2 as [|c cs] eqn:He; [done|].
      assert (c ∈ uniq (c :: cs)) as Hc by (apply elem_of_uniq; left).
      rewrite Hu in Hc. by apply elem_of_nil in Hc. }
    rewrite list_elem_of_singleton, Hnil. split; [by left|].
    intros [[_ ->]|(c & ?%elem_of_nil & _)]; done.
  - rewrite <-Hu, list_elem_of_fmap. split.
    + intros (c & -> & Hc). rewrite elem_of_uniq in Hc. right. by exists c.
    + intros [[Hnil _]|(c & Hc & ->)].
      * rewrite Hnil in Hu. done.
      * exists c. split; [done|]. by apply elem_of_uniq.
Qed.

Lemma emit_group_name e s :
  valid_entry e → s ∈ emit_group e → requirement_name s = e.1.
Proof.
  intros (Hk & Hts & Hv) [[_ ->]|(c & Hc & ->)]%elem_of_emit_group.
  - unfold requirement_name. by rewrite split_bare.
  - unfold requirement_name. rewrite split_join; [done..| |].
    + apply Hts. intros Hnil. rewrite Hnil in Hc. by apply elem_of_nil in Hc.
    + rewrite Forall_forall in Hv. destruct c. by apply Hv.
Qed.

Lemma emit_group_NoDup e : valid_entry e → NoDup (emit_group e).
Proof.
  intros (Hk & Hts & Hv). unfold emit_group.
  destruct (uniq e.2) as [|c0 cs] eqn:Hu; [apply NoDup_singleton|].
  rewrite <-Hu. apply NoDup_fmap_2_strong; [|apply NoDup_uniq].
  intros [o1 v1] [o2 v2] H1 H2 Heq.
  rewrite elem_of_uniq in H1, H2.
  assert (Hts' : no_trailing_space e.1 = true).
  { apply Hts. intros Hnil. rewrite Hnil in H1. by apply elem_of_nil in H1. }
  rewrite Forall_forall in Hv.
  pose proof (parse_requirement_join e.1 o1 v1 Hk Hts' (Hv _ H1)) as P1.
  pose proof (parse_requirement_join e.1 o2 v2 Hk Hts' (Hv _ H2)) as P2.
  cbn [fst snd] in Heq. rewrite Heq in P1. congruence.
Qed.

Lemma emit_group_nonempty e : emit_group e ≠ [].
Proof. unfold emit_group. by destruct (uniq e.2). Qed.

Lemma emit_all_NoDup (parsed : parsed_dict) :
  Forall valid_entry parsed → NoDup (parsed.*1) → NoDup (emit_all parsed).
Proof.
  rewrite emit_all_concat. induction 1 as [|e parsed He Hv IH]; [constructor|].
  rewrite !fmap_cons. intros [Hk Hnd]%NoDup_cons. cbn [concat].
  apply NoDup_app. split_and!; [by apply emit_group_NoDup| |by apply IH].
  intros s Hs (g & (e' & -> & He')%list_elem_of_fmap & Hs')%elem_of_concat.
  apply Hk. rewrite <-(emit_group_name e s He Hs).
  rewrite (emit_group_name e' s); [by apply list_elem_of_fmap_2|..|done].
  rewrite Forall_forall in Hv. by apply Hv.
Qed.

(** The requirements and the dictionary of a successful call. *)
Lemma normalize_requirements_Ok R L :
  normalize_requirements R = Ok L →
  Forall well_formed R ∧
  ∃ parsed,
    L = concat (emit_group <$> parsed) ∧
    NoDup (parsed.*1) ∧ Forall valid_entry parsed ∧
    parsed.*1 = uniq (requirement_name <$> R) ∧
    ∀ k, dict_values parsed k = constraints_of k R.
Proof.
  unfold normalize_requirements, mbind, result_bind, Py.bind.
  destruct (parse_all R []) as [parsed|e] eqn:Hp; [|done]. intros [= <-].
  split; [apply (parse_all_Ok_iff R []); by eexists|].
  exists parsed. rewrite emit_all_concat.
  destruct (parse_all_invariant _ _ _ Hp) as [Hnd Hv]; [constructor..|].
  destruct (parse_all_contents _ _ _ Hp) as [Hk Hvals]; [constructor|].
  by split_and!.
Qed.

Lemma elem_of_constraints_of nm R c :
  c ∈ constraints_of nm R ↔ ∃ r, r ∈ R ∧ parse_requirement r = Some (nm, Some c).
Proof.
  unfold constraints_of. rewrite list_elem_of_omap. split.
  - intros (r & Hr & Hc). exists r. split; [done|].
    destruct (parse_requirement r) as [[n [c'|]]|]; try done.
    case_decide; [|done]. by simplify_eq.
  - intros (r & Hr & Hp). exists r. split; [done|].
    by rewrite Hp, decide_True.
Qed.

Lemma elem_of_keys (parsed : parsed_dict) k :
  k ∈ parsed.*1 → ∃ v, (k, v) ∈ parsed.
Proof. intros ([k' v] & -> & He)%list_elem_of_fmap. by exists v. Qed.

(** The entries of the result: a constrained requirement is printed with
    single spaces; a bare name is printed when no requirement constrains
    the package. *)
Lemma elem_of_normalize_requirements R L s :
  normalize_requirements R = Ok L →
  s ∈ L ↔
  (∃ r nm op ver,
     r ∈ R ∧ parse_requirement r = Some (nm, Some (op, ver)) ∧
     s = join " " [nm; op; ver]) ∨
  (s ∈ R ∧ parse_requirement s = Some (s, None) ∧
   ∀ r c, r ∈ R → parse_requirement r ≠ Some (s, Some c)).
Proof.
  intros (Hwf & parsed & -> & Hnd & Hv & Hkeys & Hvals)%normalize_requirements_Ok.
  rewrite Forall_forall in Hwf. rewrite elem_of_concat. split.
  - intros (g & ([k v] & -> & He)%list_elem_of_fmap & Hs).
    pose proof (dict_values_elem_of _ _ _ Hnd He) as Hkv.
    rewrite Hvals in Hkv.
    apply elem_of_emit_group in Hs as [[Hnil ->]|([op ver] & Hc & ->)];
      cbn [fst snd] in *.
    + right. subst v.
      assert (Hnone : ∀ r' c, r' ∈ R → parse_requirement r' ≠ Some (k, Some c)).
      { intros r' c Hr' Hp.
        assert (c ∈ constraints_of k R) as Hin
          by (apply elem_of_constraints_of; eauto).
        rewrite Hkv in Hin. by apply elem_of_nil in Hin. }
      assert (k ∈ parsed.*1) as Hk by (apply list_elem_of_fmap; by exists (k, [])).
      rewrite Hkeys, elem_of_uniq in Hk.
      apply list_elem_of_fmap in Hk as (r & Hname & Hr).
      destruct (Hwf r Hr) as [[nm c] Hp].
      pose proof (parse_requirement_name _ _ _ Hp) as Hnm.
      rewrite <-Hname in Hnm. subst nm.
      destruct c as [c|]; [by destruct (Hnone r c Hr)|].
      pose proof Hp as Hsplit. apply parse_requirement_bare in Hsplit.
      apply split_one in Hsplit as [Hk _]. rewrite Hk in *. by split_and!.
    + left. subst v. apply elem_of_constraints_of in Hc as (r & Hr & Hp).
      by exists r, k, op, ver.
  - intros [(r & nm & op & ver & Hr & Hp & ->)|(Hs & Hp & Hnone)].
    + assert (nm ∈ parsed.*1) as [v He]%elem_of_keys.
      { rewrite Hkeys. apply elem_of_uniq.
        rewrite <-(parse_requirement_name _ _ _ Hp). by apply list_elem_of_fmap_2. }
      exists (emit_group (nm, v)). split; [by apply list_elem_of_fmap_2|].
      apply elem_of_emit_group. right. exists (op, ver). split; [|done].
      cbn. rewrite <-(dict_values_elem_of _ _ _ Hnd He), Hvals.
      apply elem_of_constraints_of. eauto.
    + assert (s ∈ parsed.*1) as [v He]%elem_of_keys.
      { rewrite Hkeys. apply elem_of_uniq.
        rewrite <-(parse_requirement_name _ _ _ Hp) at 1.
        by apply list_elem_of_fmap_2. }
      exists (emit_group (s, v)). split; [by apply list_elem_of_fmap_2|].
      apply elem_of_emit_group. left. split; [|done]. cbn.
      rewrite <-(dict_values_elem_of _ _ _ Hnd He), Hvals.
      destruct (constraints_of s R) as [|c cs] eqn:Hc; [done|].
      assert (c ∈ constraints_of s R) as (r & Hr & Hpr)%elem_of_constraints_of
        by (rewrite Hc; left).
      by destruct (Hnone r c Hr).
Qed.

End NormalizeMore.

(** X5: [normalize_requirements] succeeds exactly when every requirement
    splits into one or three pieces; otherwise it raises the malformed
    requirement error for the first requirement that does not, whatever
    follows it. *)
Theorem normalize_requirements_errors (R : list string) :
  (∀ r, well_formed r ↔ length (Regex.split r) = 1 ∨ length (Regex.split r) = 3) ∧
  ((∃ L, normalize_requirements R = Ok L) ↔ Forall well_formed R) ∧
  (∀ e, normalize_requirements R = Raise e →
        ∃ before r after,
          R = before ++ r :: after ∧ Forall well_formed before ∧
          ¬ well_formed r ∧ e = MalformedRequirement r).
Proof.
  split_and!.
  - intros r. unfold well_formed, parse_requirement.
    destruct (Regex.split r) as [|n [|o [|v [|? ?]]]]; simpl; split;
      try (intros [? ?]; done); try (intros [?|?]; done); eauto; lia.
  - unfold normalize_requirements, mbind, result_bind, Py.bind.
    rewrite <-(parse_all_Ok_iff R []). split.
    + intros [L HL]. destruct (parse_all R []); [by eexists|done].
    + intros [parsed ->]. by eexists.
  - intros e. unfold normalize_requirements, mbind, result_bind, Py.bind.
    destruct (parse_all R []) as [parsed|e'] eqn:Hp; [done|]. intros [= <-].
    destruct (parse_all_Raise _ _ _ Hp) as (before & r & after & -> & Hb & Hr & ->).
    exists before, r, after. split_and!; try done.
    unfold well_formed. rewrite Hr. by intros [? ?].
Qed.

(** X6: The entries of a normalized list: every constrained requirement of the
    input, printed as name, comparator and version with single spaces; and
    every bare name of the input whose package no requirement of the input
    constrains.  A bare name is dropped when the package is constrained
    elsewhere in the input. *)
Theorem normalize_requirements_contents (R L : list string) (s : string) :
  normalize_requirements R = Ok L →
  s ∈ L ↔
  (∃ r nm op ver,
     r ∈ R ∧ Regex.split r = [nm; op; ver] ∧ s = join " " [nm; op; ver]) ∨
  (s ∈ R ∧ Regex.split s = [s] ∧
   ∀ r op ver, r ∈ R → Regex.split r ≠ [s; op; ver]).
Proof.
  intros HL. rewrite (elem_of_normalize_requirements R L s HL). split.
  - intros [(r & nm & op & ver & Hr & Hp%parse_requirement_three & ->)
           |(Hs & Hp%parse_requirement_bare & Hnone)].
    + left. by exists r, nm, op, ver.
    + right. split_and!; [done..|]. intros r op ver Hr Hsplit.
      by apply (Hnone r (op, ver) Hr), parse_requirement_three.
  - intros [(r & nm & op & ver & Hr & Hp%parse_requirement_three & ->)
           |(Hs & Hp%parse_requirement_bare & Hnone)].
    + left. by exists r, nm, op, ver.
    + right. split_and!; [done..|]. intros r [op ver] Hr Hsplit.
      by apply (Hnone r op ver Hr), parse_requirement_three.
Qed.

Lemma normalize_requirements_contents_witness :
  normalize_requirements ["a"; "a>1"; "b"; "a  >  2"] = Ok ["a > 1"; "a > 2"; "b"] ∧
  "a > 2" ∈ ["a > 1"; "a > 2"; "b"].
Proof.
  assert (HL : normalize_requirements ["a"; "a>1"; "b"; "a  >  2"]
               = Ok ["a > 1"; "a > 2"; "b"]) by (vm_compute; reflexivity).
  split; [exact HL|].
  apply (normalize_requirements_contents ["a"; "a>1"; "b"; "a  >  2"] _ "a > 2" HL).
  left. exists "a  >  2", "a", ">", "2". split_and!.
  - do 3 right. left.
  - vm_compute. reflexivity.
  - reflexivity.
Defined.

(** X7: A normalized list has no repetition, every entry of it is well formed,
    and it consists of one non-empty group of entries per package, the
    groups standing in the order in which the dictionary is iterated, the
    insertion order, that is, the order in which the packages were first
    named in the input. *)
Theorem normalize_requirements_normal_form (R L : list string) :
  normalize_requirements R = Ok L →
  NoDup L ∧ Forall well_formed L ∧
  ∃ groups,
    L = concat groups ∧
    Forall2 (λ nm group, group ≠ [] ∧ ∀ s, s ∈ group → requirement_name s = nm)
            (uniq (requirement_name <$> R)) groups.
Proof.
  intros HL.
  pose proof (normalize_requirements_fixpoint R L HL) as Hfix.
  apply normalize_requirements_Ok in Hfix as [Hwf _].
  apply normalize_requirements_Ok in HL
    as (_ & parsed & -> & Hnd & Hv & Hkeys & _).
  split_and!; [|done|].
  - rewrite <-emit_all_concat. by apply emit_all_NoDup.
  - exists (emit_group <$> parsed). split; [done|]. rewrite <-Hkeys.
    clear -Hv. induction Hv as [|e parsed He Hv IH]; [constructor|].
    rewrite !fmap_cons. constructor; [|done].
    split; [apply emit_group_nonempty|]. intros s. by apply emit_group_name.
Qed.

Lemma normalize_requirements_normal_form_witness :
  NoDup ["a > 1"; "a > 2"; "b"].
Proof.
  apply (normalize_requirements_normal_form ["a"; "a>1"; "b"; "a  >  2"; "a>1"]).
  vm_compute. reflexivity.
Defined.

(** ** [check_packages]: success, errors, and composition with normalisation *)

Section CheckPackagesMore.
Context (registry : gmap string PkgConfig.metadata).
Context (version_cmp : string → string → comparison).

(** [check_requirement], by the reading of the requirement. *)
Lemma check_requirement_cases requirement :
  check_requirement registry version_cmp requirement
  = match parse_requirement requirement with
    | None => Raise (MalformedRequirement requirement)
    | Some (nm, None) => PkgConfig.pkgconfig registry nm
    | Some (nm, Some (op, ver)) =>
        match PkgConfig.pkgconfig registry nm with
        | Raise e => Raise e
        | Ok p =>
            match comparator version_cmp op with
            | None => Raise (MalformedRequirement requirement)
            | Some test =>
                if test p ver then Ok p
                else Raise (UnsatisfiedRequirement (PkgConfig.name p) op ver)
            end
        end
    end.
Proof.
  unfold check_requirement, parse_requirement.
  destruct (Regex.split requirement) as [|nm [|op [|ver [|? ?]]]]; try done.
  destruct (PkgConfig.pkgconfig registry nm) as [p|e]; [|done]. cbn.
  unfold comparator, assert. repeat case_decide; try done;
    match goal with |- context [if ?b then _ else _] => by destruct b end.
Qed.

(** The loop succeeds exactly when every requirement passes on its own
    and no name is met twice or is already in [used]; the packages are
    appended to [retval] in the order of the requirements. *)
Lemma check_packages_loop_Ok_iff requirements used retval pkgs :
  check_packages_loop registry version_cmp requirements used retval = Ok pkgs ↔
  ∃ ps,
    pkgs = retval ++ ps ∧
    Forall2 (λ r p, check_requirement registry version_cmp r = Ok p) requirements ps ∧
    NoDup (requirement_name <$> requirements) ∧
    ∀ r, r ∈ requirements → requirement_name r ∉ used.
Proof.
  revert used retval.
  induction requirements as [|r requirements IH]; intros used retval; simpl.
  - split.
    + intros [= <-]. exists []. rewrite app_nil_r. split_and!; try done.
      * constructor.
      * by intros r ?%elem_of_nil.
    + intros (ps & -> & ->%Forall2_nil_inv_l & _). by rewrite app_nil_r.
  - split.
    + intros (p & Hp & Hk)%bind_Ok.
      pose proof (check_requirement_name _ _ _ _ Hp) as Hname.
      destruct (decide (PkgConfig.name p ∈ used)) as [|Hused]; [done|].
      apply IH in Hk as (ps & -> & Hall & Hnd & Hdis). rewrite Hname in *.
      exists (p :: ps). split_and!.
      * by rewrite <-(assoc_L (++)).
      * by constructor.
      * constructor; [|done]. intros (r' & Heq & Hr')%list_elem_of_fmap.
        apply Hdis in Hr'. rewrite <-Heq in Hr'. set_solver.
      * intros r' [->|Hr']%elem_of_cons; [done|]. apply Hdis in Hr'. set_solver.
    + intros (ps & -> & Hall & Hnd & Hdis).
      apply Forall2_cons_inv_l in Hall as (p & ps' & Hp & Hall & ->).
      rewrite Hp. cbn.
      pose proof (check_requirement_name _ _ _ _ Hp) as Hname.
      apply NoDup_cons in Hnd as [Hr Hnd].
      rewrite decide_False by (rewrite Hname; apply Hdis; left).
      apply IH. exists ps'. split_and!; try done.
      * by rewrite <-(assoc_L (++)).
      * intros r' Hr'. rewrite Hname.
        assert (requirement_name r' ≠ requirement_name r).
        { intros Heq. apply Hr. rewrite <-Heq. by apply list_elem_of_fmap_2. }
        pose proof (Hdis r' ltac:(by right)). set_solver.
Qed.

(** When the loop raises, either a requirement fails on its own with that
    exception, or the exception is the duplicate error and the name of some
    requirement is in [used] or was met before. *)
Lemma check_packages_loop_Raise requirements used retval e :
  check_packages_loop registry version_cmp requirements used retval = Raise e →
  (∃ r, r ∈ requirements ∧ check_requirement registry version_cmp r = Raise e) ∨
  (e = DuplicateRequirement ∧
   ∃ before r after,
     requirements = before ++ r :: after ∧
     (requirement_name r ∈ used ∨
      requirement_name r ∈ requirement_name <$> before)).
Proof.
  revert used retval.
  induction requirements as [|r requirements IH]; intros used retval; [done|].
  simpl. destruct (check_requirement registry version_cmp r) as [p|e'] eqn:Hp.
  - cbn. pose proof (check_requirement_name _ _ _ _ Hp) as Hname.
    rewrite Hname. case_decide as Hused.
    + intros [= <-]. right. split; [done|]. exists [], r, requirements. auto.
    + intros [(r' & Hr' & He)|(-> & before & r' & after & -> & Hor)]%IH.
      * left. exists r'. split; [by right|done].
      * right. split; [done|]. exists (r :: before), r', after.
        split; [done|]. rewrite fmap_cons.
        destruct Hor as [Hin|Hin]; [|right; by right].
        apply elem_of_union in Hin as [->%elem_of_singleton|?];
          [right; by left|by left].
  - cbn. intros [= <-]. left. exists r. split; [by left|done].
Qed.

Lemma check_requirement_not_duplicate r :
  check_requirement registry version_cmp r ≠ Raise DuplicateRequirement.
Proof.
  rewrite check_requirement_cases.
  destruct (parse_requirement r) as [[nm [[op ver]|]]|]; [| |done];
    unfold PkgConfig.pkgconfig; destruct (registry !! nm); try done.
  destruct (comparator version_cmp op) as [test|]; [|done].
  by destruct (test _ ver).
Qed.

(** A duplicate error means that two different entries name one package. *)
Lemma check_packages_Raise_duplicate packages :
  check_packages registry version_cmp packages = Raise DuplicateRequirement →
  ∃ r1 r2, r1 ∈ packages ∧ r2 ∈ packages ∧ r1 ≠ r2 ∧
           requirement_name r1 = requirement_name r2.
Proof.
  intros [(r & _ & Hr)|(_ & before & r & after & Hu & Hor)]%check_packages_loop_Raise.
  - by apply check_requirement_not_duplicate in Hr.
  - destruct Hor as [?%elem_of_empty|(r0 & Heq & Hr0)%list_elem_of_fmap]; [done|].
    pose proof (NoDup_uniq packages) as Hnd. rewrite Hu in Hnd.
    apply NoDup_app in Hnd as (_ & Hdis & _).
    exists r0, r. split_and!.
    + apply elem_of_uniq. rewrite Hu. apply elem_of_app. by left.
    + apply elem_of_uniq. rewrite Hu. apply elem_of_app. right. by left.
    + intros ->. apply (Hdis r Hr0). by left.
    + done.
Qed.

(** The loop raises the duplicate error exactly at the first requirement
    whose name is in [used] or was met before, provided the requirements up
    to and including it pass on their own; what follows is not looked at. *)
Lemma check_packages_loop_Duplicate_iff requirements used retval :
  check_packages_loop registry version_cmp requirements used retval
  = Raise DuplicateRequirement ↔
  ∃ before r after,
    requirements = before ++ r :: after ∧
    (∀ x, x ∈ before ++ [r] →
          is_ok (check_requirement registry version_cmp x) = true) ∧
    NoDup (requirement_name <$> before) ∧
    (∀ x, x ∈ before → requirement_name x ∉ used) ∧
    (requirement_name r ∈ used ∨
     requirement_name r ∈ requirement_name <$> before).
Proof.
  revert used retval.
  induction requirements as [|r0 requirements IH]; intros used retval.
  { split; [done|]. intros (before & r & after & Heq & _). by destruct before. }
  cbn [check_packages_loop].
  destruct (check_requirement registry version_cmp r0) as [p|e] eqn:Hp.
  - cbn. pose proof (check_requirement_name _ _ _ _ Hp) as Hname. rewrite Hname.
    destruct (decide (requirement_name r0 ∈ used)) as [Hused|Hused].
    + split; [|done]. intros _. exists [], r0, requirements.
      split_and!; try done.
      * intros x ->%list_elem_of_singleton. by rewrite Hp.
      * constructor.
      * by intros x ?%elem_of_nil.
      * by left.
    + rewrite IH. split.
      * intros (before & r & after & -> & Hok & Hnd & Hdis & Hin).
        exists (r0 :: before), r, after. split_and!.
        -- done.
        -- intros x [->|Hx]%elem_of_cons; [by rewrite Hp|by apply Hok].
        -- rewrite fmap_cons. constructor; [|done].
           intros (x & Heq & Hx)%list_elem_of_fmap.
           apply (Hdis x Hx). rewrite <-Heq. set_solver.
        -- intros x [->|Hx]%elem_of_cons; [done|].
           intros ?. apply (Hdis x Hx). set_solver.
        -- rewrite fmap_cons.
           destruct Hin as [[->%elem_of_singleton|?]%elem_of_union|?];
             [right; left|by left|right; by right].
      * intros (before & r & after & Heq & Hok & Hnd & Hdis & Hin).
        destruct before as [|b before].
        { injection Heq as <- <-.
          destruct Hin as [?|?%elem_of_nil]; done. }
        injection Heq as <- ->. rewrite fmap_cons in Hnd, Hin.
        apply NoDup_cons in Hnd as [Hr0 Hnd].
        exists before, r, after. split_and!.
        -- done.
        -- intros x Hx. apply Hok. by right.
        -- done.
        -- intros x Hx [Heq%elem_of_singleton|?]%elem_of_union.
           ++ apply Hr0. rewrite <-Heq. by apply list_elem_of_fmap_2.
           ++ apply (Hdis x); [by right|done].
        -- destruct Hin as [?|[->|?]%elem_of_cons];
             [left; set_solver|left; set_solver|by right].
  - cbn. split.
    + intros [= ->]. by apply check_requirement_not_duplicate in Hp.
    + intros (before & r & after & Heq & Hok & _).
      assert (r0 ∈ before ++ [r]) as Hin.
      { destruct before as [|b before]; injection Heq as <- _; left. }
      apply Hok in Hin. by rewrite Hp in Hin.
Qed.

End CheckPackagesMore.

(** C2, as stated, fails twice.  Two identical entries are merged by
    [uniq] before the loop, and the call succeeds; and of two entries with
    different constraints the second is resolved and checked before its
    name is looked up in [used], so that a failed comparator is reported
    instead. *)
Lemma check_packages_same_name_no_duplicate_error :
  check_packages Sample.registry LooseVersion.compare ["pkga"; "pkga"]
  = Ok [Sample.pkga] ∧
  check_packages Sample.registry LooseVersion.compare ["pkga > 0.5"; "pkga > 2.0"]
  = Raise (UnsatisfiedRequirement "pkga" ">" "2.0").
Proof. split; vm_compute; reflexivity. Qed.

(** C2, amended.  Repetitions of one and the same requirement string are
    merged by [uniq] before the loop: every call behaves as on the list
    without them, and a call in which any two entries that name one package
    are the same string never raises the duplicate-requirement error.
    When two different requirement strings of a call name the same
    package, the call never succeeds; and a call that succeeds returns
    packages with pairwise different names, one for each entry of the
    list without repetitions.  The call raises the duplicate-requirement
    error exactly when, in the list without repetitions, some entry names
    a package that an entry before it names, the entries before it name
    pairwise different packages, and every entry up to and including it
    parses, resolves and satisfies its comparator on its own; the entries
    after it are not looked at. *)
Theorem check_packages_duplicate registry version_cmp (packages : list string) :
  check_packages registry version_cmp (uniq packages)
  = check_packages registry version_cmp packages ∧
  ((∀ r1 r2, r1 ∈ packages → r2 ∈ packages →
             requirement_name r1 = requirement_name r2 → r1 = r2) →
   check_packages registry version_cmp packages ≠ Raise DuplicateRequirement) ∧
  (∀ r1 r2, r1 ∈ packages → r2 ∈ packages → r1 ≠ r2 →
            requirement_name r1 = requirement_name r2 →
            ∀ pkgs, check_packages registry version_cmp packages ≠ Ok pkgs) ∧
  (∀ pkgs, check_packages registry version_cmp packages = Ok pkgs →
           NoDup (PkgConfig.name <$> pkgs) ∧
           PkgConfig.name <$> pkgs = requirement_name <$> uniq packages) ∧
  (check_packages registry version_cmp packages = Raise DuplicateRequirement ↔
   ∃ before r after,
     uniq packages = before ++ r :: after ∧
     (∀ x, x ∈ before ++ [r] →
           is_ok (check_requirement registry version_cmp x) = true) ∧
     NoDup (requirement_name <$> before) ∧
     requirement_name r ∈ requirement_name <$> before).
Proof.
  assert (Hnot : ∀ r1 r2, r1 ∈ packages → r2 ∈ packages → r1 ≠ r2 →
            requirement_name r1 = requirement_name r2 →
            ∀ pkgs, check_packages registry version_cmp packages ≠ Ok pkgs).
  { intros r1 r2 H1 H2 Hne Hnm pkgs [Hnd _]%check_packages_loop_Ok. apply Hne.
    apply (NoDup_fmap_eq requirement_name (uniq packages)); try done;
      by apply elem_of_uniq. }
  split_and!.
  - unfold check_packages. by rewrite uniq_idemp.
  - intros Hsame (r1 & r2 & H1 & H2 & Hne & Hnm)%check_packages_Raise_duplicate.
    apply Hne. by apply Hsame.
  - done.
  - intros pkgs (ps & -> & Hall & Hnd & _)%check_packages_loop_Ok_iff.
    cbn [app].
    assert (Hnames : PkgConfig.name <$> ps = requirement_name <$> uniq packages).
    { clear Hnd. induction Hall as [|r p rs ps' Hp _ IH]; [done|].
      rewrite !fmap_cons, IH. f_equal. by eapply check_requirement_name. }
    by rewrite Hnames.
  - unfold check_packages. rewrite check_packages_loop_Duplicate_iff. split.
    + intros (before & r & after & Hu & Hok & Hnd & _ & [?%elem_of_empty|Hin]);
        [done|]. by exists before, r, after.
    + intros (before & r & after & Hu & Hok & Hnd & Hin).
      exists before, r, after. split_and!; try done. by right.
Qed.

(** The duplicate is met before the entry that is not registered. *)
Lemma check_packages_duplicate_witness :
  check_packages Sample.registry LooseVersion.compare
    ["pkga > 0.5"; "pkga < 2.0"; "nosuch"] = Raise DuplicateRequirement ∧
  is_ok (check_requirement Sample.registry LooseVersion.compare "nosuch") = false.
Proof.
  split; [|vm_compute; reflexivity].
  apply (check_packages_duplicate Sample.registry LooseVersion.compare
           ["pkga > 0.5"; "pkga < 2.0"; "nosuch"]).
  exists ["pkga > 0.5"], "pkga < 2.0", ["nosuch"]. split_and!.
  - vm_compute; reflexivity.
  - intros x [->|[->|?%elem_of_nil]%elem_of_cons]%elem_of_cons;
      [vm_compute; reflexivity..|done].
  - apply NoDup_singleton.
  - vm_compute. left.
Defined.

(** X8: [check_packages] succeeds exactly when every entry of [uniq(packages)]
    passes on its own and no two of them name the same package; it then
    returns the resolved packages, one per entry and in their order.  An
    entry passes on its own when it is well formed, its name is registered,
    and its comparator, if it has one, is one of the five and holds between
    the resolved version and the requested one, ['=='] being tested as
    [<=]; the package returned for it carries the name of the entry and the
    registered data. *)
Theorem check_packages_success registry version_cmp
        (packages : list string) (pkgs : list PkgConfig.t) :
  (check_packages registry version_cmp packages = Ok pkgs ↔
   Forall2 (λ r p, check_requirement registry version_cmp r = Ok p)
           (uniq packages) pkgs ∧
   NoDup (requirement_name <$> uniq packages)) ∧
  (∀ r p,
     check_requirement registry version_cmp r = Ok p ↔
     ∃ nm c md,
       parse_requirement r = Some (nm, c) ∧ registry !! nm = Some md ∧
       p = PkgConfig.Pkg nm (PkgConfig.md_version md) (PkgConfig.md_macros md)
             (PkgConfig.md_include_dirs md) (PkgConfig.md_libraries md)
             (PkgConfig.md_library_dirs md) ∧
       ∀ op ver, c = Some (op, ver) →
                 ∃ test, comparator version_cmp op = Some test ∧ test p ver = true).
Proof.
  split.
  - unfold check_packages. rewrite check_packages_loop_Ok_iff. split.
    + intros (ps & -> & Hall & Hnd & _). by split.
    + intros [Hall Hnd]. exists pkgs. by split_and!.
  - intros r p. rewrite check_requirement_cases. split.
    + destruct (parse_requirement r) as [[nm c]|]; [|done].
      unfold PkgConfig.pkgconfig.
      destruct c as [[op ver]|];
        destruct (registry !! nm) as [md|] eqn:Hmd; try done.
      * destruct (comparator version_cmp op) as [test|] eqn:Hc; [|done].
        destruct (test _ ver) eqn:Ht; [|done]. intros [= <-].
        exists nm, (Some (op, ver)), md. split_and!; try done.
        intros ? ? [= <- <-]. by exists test.
      * intros [= <-]. exists nm, None, md. by split_and!.
    + intros (nm & c & md & -> & Hmd & -> & Hc).
      unfold PkgConfig.pkgconfig. rewrite Hmd.
      destruct c as [[op ver]|]; [|done].
      destruct (Hc op ver eq_refl) as (test & -> & ->). done.
Qed.

(** X9: Every exception of [check_packages] is one of four: the malformed
    requirement error, for an entry that is not well formed or whose
    comparator token is none of the five; the package-not-found error, for
    the name of an entry that is not registered; the unsatisfied
    requirement error, for an entry whose comparator fails; or the
    duplicate error, and then two different entries name one package. *)
Theorem check_packages_errors registry version_cmp
        (packages : list string) (e : exn) :
  check_packages registry version_cmp packages = Raise e →
  (∃ r, r ∈ packages ∧ e = MalformedRequirement r ∧
        (¬ well_formed r ∨
         ∃ nm op ver, parse_requirement r = Some (nm, Some (op, ver)) ∧
                      comparator version_cmp op = None)) ∨
  (∃ r, r ∈ packages ∧ e = PackageNotFound (requirement_name r) ∧
        registry !! requirement_name r = None) ∨
  (∃ r nm op ver test p,
     r ∈ packages ∧ parse_requirement r = Some (nm, Some (op, ver)) ∧
     e = UnsatisfiedRequirement nm op ver ∧
     comparator version_cmp op = Some test ∧
     PkgConfig.pkgconfig registry nm = Ok p ∧ test p ver = false) ∨
  (e = DuplicateRequirement ∧
   ∃ r1 r2, r1 ∈ packages ∧ r2 ∈ packages ∧ r1 ≠ r2 ∧
            requirement_name r1 = requirement_name r2).
Proof.
  intros He0. pose proof He0 as He.
  apply check_packages_loop_Raise in He as [(r & Hr & He)|[-> _]];
    [|do 3 right; split; [done|]; by eapply check_packages_Raise_duplicate].
  clear He0. rewrite elem_of_uniq in Hr. rewrite check_requirement_cases in He.
  destruct (parse_requirement r) as [[nm c]|] eqn:Hp.
  - pose proof (parse_requirement_name _ _ _ Hp) as Hname.
    unfold PkgConfig.pkgconfig in He.
    destruct (registry !! nm) as [md|] eqn:Hmd.
    + destruct c as [[op ver]|]; [|done].
      destruct (comparator version_cmp op) as [test|] eqn:Hc.
      * destruct (test _ ver) eqn:Ht; [done|]. injection He as <-.
        do 2 right. left. eexists r, nm, op, ver, test, _.
        split_and!; try done. unfold PkgConfig.pkgconfig. by rewrite Hmd.
      * injection He as <-. left. exists r. split_and!; try done.
        right. by exists nm, op, ver.
    + assert (e = PackageNotFound nm) as -> by (destruct c as [[? ?]|]; congruence).
      right. left. exists r. rewrite Hname. by split_and!.
  - injection He as <-. left. exists r. split_and!; try done.
    left. unfold well_formed. rewrite Hp. by intros [? ?].
Qed.

Lemma check_packages_errors_witness :
  check_packages Sample.registry LooseVersion.compare ["pkga"; "nosuch > 1"]
  = Raise (PackageNotFound "nosuch") ∧
  Sample.registry !! "nosuch" = None.
Proof.
  assert (He : check_packages Sample.registry LooseVersion.compare
                 ["pkga"; "nosuch > 1"] = Raise (PackageNotFound "nosuch"))
    by (vm_compute; reflexivity).
  split; [exact He|].
  destruct (check_packages_errors Sample.registry LooseVersion.compare _ _ He)
    as [(r & _ & [=] & _)|[(r & _ & [= Hr] & Hnone)|[(r & ? & ? & ? & ? & ? & _ & _ & [=] & _)|[[=] _]]]].
  by rewrite <-Hr in Hnone.
Defined.

(** X10: Composition with the normalisation, as in [Extension.__init__]: when
    the input constrains one package in two different ways, both
    constraints survive the normalisation and [check_packages] never
    succeeds on the normalized list; conversely, on a normalized list the
    duplicate error is raised only if the input constrained some package in
    two different ways. *)
Theorem check_packages_after_normalize registry version_cmp (R L : list string) :
  normalize_requirements R = Ok L →
  (∀ r1 r2 nm c1 c2,
     r1 ∈ R → r2 ∈ R →
     parse_requirement r1 = Some (nm, Some c1) →
     parse_requirement r2 = Some (nm, Some c2) → c1 ≠ c2 →
     ∀ pkgs, check_packages registry version_cmp L ≠ Ok pkgs) ∧
  (check_packages registry version_cmp L = Raise DuplicateRequirement →
   ∃ r1 r2 nm c1 c2,
     r1 ∈ R ∧ r2 ∈ R ∧
     parse_requirement r1 = Some (nm, Some c1) ∧
     parse_requirement r2 = Some (nm, Some c2) ∧ c1 ≠ c2).
Proof.
  intros HL.
  pose proof (normalize_requirements_Ok R L HL) as (_ & parsed & _ & _ & Hv & _).
  assert (Hjoin : ∀ r nm c, r ∈ R → parse_requirement r = Some (nm, Some c) →
            join " " [nm; c.1; c.2] ∈ L ∧
            parse_requirement (join " " [nm; c.1; c.2]) = Some (nm, Some c)).
  { intros r nm [op ver] Hr Hp. split.
    - apply (elem_of_normalize_requirements R L _ HL). left.
      by exists r, nm, op, ver.
    - apply parse_requirement_three in Hp.
      apply split_three_valid in Hp as (? & ? & ?).
      by apply parse_requirement_join. }
  split.
  - intros r1 r2 nm c1 c2 Hr1 Hr2 Hp1 Hp2 Hne pkgs Hok.
    destruct (Hjoin r1 nm c1 Hr1 Hp1) as [Hin1 Hq1].
    destruct (Hjoin r2 nm c2 Hr2 Hp2) as [Hin2 Hq2].
    apply check_packages_loop_Ok in Hok as [Hnd _].
    apply Hne.
    assert (join " " [nm; c1.1; c1.2] = join " " [nm; c2.1; c2.2]) as Heq.
    { apply (NoDup_fmap_eq requirement_name (uniq L)); try done.
      - by apply elem_of_uniq.
      - by apply elem_of_uniq.
      - by rewrite (parse_requirement_name _ _ _ Hq1),
                   (parse_requirement_name _ _ _ Hq2). }
    rewrite Heq in Hq1. congruence.
  - intros (s1 & s2 & Hs1 & Hs2 & Hne & Hname)%check_packages_Raise_duplicate.
    apply (elem_of_normalize_requirements R L _ HL) in Hs1, Hs2.
    destruct Hs1 as [(r1 & n1 & o1 & v1 & Hr1 & Hp1 & ->)|(Hin1 & Hb1 & Hnone1)];
      destruct Hs2 as [(r2 & n2 & o2 & v2 & Hr2 & Hp2 & ->)|(Hin2 & Hb2 & Hnone2)].
    + destruct (Hjoin r1 n1 (o1, v1) Hr1 Hp1) as [_ Hq1].
      destruct (Hjoin r2 n2 (o2, v2) Hr2 Hp2) as [_ Hq2]. cbn [fst snd] in *.
      rewrite (parse_requirement_name _ _ _ Hq1),
              (parse_requirement_name _ _ _ Hq2) in Hname. subst n2.
      exists r1, r2, n1, (o1, v1), (o2, v2). split_and!; try done.
      intros [= -> ->]. done.
    + destruct (Hjoin r1 n1 (o1, v1) Hr1 Hp1) as [_ Hq1]. cbn [fst snd] in *.
      rewrite (parse_requirement_name _ _ _ Hq1),
              (parse_requirement_name _ _ _ Hb2) in Hname. subst n1.
      by destruct (Hnone2 r1 (o1, v1) Hr1).
    + destruct (Hjoin r2 n2 (o2, v2) Hr2 Hp2) as [_ Hq2]. cbn [fst snd] in *.
      rewrite (parse_requirement_name _ _ _ Hq2),
              (parse_requirement_name _ _ _ Hb1) in Hname. subst n2.
      by destruct (Hnone1 r2 (o2, v2) Hr2).
    + rewrite (parse_requirement_name _ _ _ Hb1),
              (parse_requirement_name _ _ _ Hb2) in Hname. done.
Qed.

Lemma check_packages_after_normalize_witness :
  ∃ e, check_packages Sample.registry LooseVersion.compare
         ["pkga > 0.5"; "pkga < 2.0"] = Raise e.
Proof.
  assert (HL : normalize_requirements ["pkga>0.5"; "pkga  <  2.0"]
               = Ok ["pkga > 0.5"; "pkga < 2.0"]) by (vm_compute; reflexivity).
  destruct (check_packages_after_normalize Sample.registry LooseVersion.compare
              _ _ HL) as [Hnever _].
  destruct (check_packages Sample.registry LooseVersion.compare
              ["pkga > 0.5"; "pkga < 2.0"]) as [pkgs|e] eqn:Hc; [|by exists e].
  exfalso.
  apply (Hnever "pkga>0.5" "pkga  <  2.0" "pkga" (">", "0.5") ("<", "2.0")) with pkgs.
  - by left.
  - right; by left.
  - vm_compute; reflexivity.
  - vm_compute; reflexivity.
  - done.
  - reflexivity.
Defined.

(** ** [reorganize_isystem]: idempotence and rearrangement *)

Section IsystemMore.

Lemma isystem_parse_remainder args remainder includes :
  isystem_parse args remainder includes → "-isystem" ∉ remainder.
Proof.
  induction 1 as [| |arg args remainder includes Harg _ IH].
  - by intros ?%elem_of_nil.
  - done.
  - intros [?|?]%elem_of_cons; [by apply Harg|by apply IH].
Qed.

Lemma isystem_parse_pairs paths : isystem_parse (isystem_pairs paths) [] paths.
Proof.
  induction paths as [|p paths IH]; [constructor|].
  cbn. by constructor.
Qed.

(** The result of a reorganisation reads as the remainder and the paths
    it was built from. *)
Lemma isystem_parse_output remainder paths :
  "-isystem" ∉ remainder →
  isystem_parse (remainder ++ isystem_pairs paths) remainder paths.
Proof.
  induction remainder as [|arg remainder IH]; intros Hr.
  - apply isystem_parse_pairs.
  - cbn. constructor.
    + intros ->. apply Hr. left.
    + apply IH. intros ?. apply Hr. by right.
Qed.

Lemma isystem_parse_Permutation args remainder includes :
  isystem_parse args remainder includes →
  args ≡ₚ remainder ++ isystem_pairs includes.
Proof.
  induction 1 as [|path args remainder includes _ IH
                  |arg args remainder includes _ _ IH].
  - done.
  - rewrite IH. cbn. by rewrite !Permutation_middle.
  - by rewrite IH.
Qed.

Lemma isystem_pairs_Permutation paths paths' :
  paths ≡ₚ paths' → isystem_pairs paths ≡ₚ isystem_pairs paths'.
Proof.
  unfold isystem_pairs. induction 1 as [|x l l' _ IH|x y l|l l' l'' _ IH1 _ IH2].
  - done.
  - cbn. by rewrite IH.
  - cbn. constructor. etrans; [apply perm_swap|]. symmetry.
    etrans; [apply perm_swap|]. constructor. apply perm_swap.
  - by etrans.
Qed.

Lemma reorganize_isystem_parse args remainder includes :
  isystem_parse args remainder includes →
  reorganize_isystem args
  = Ok (remainder
        ++ isystem_pairs (merge_sort isystem_key_le (reverse (uniq (reverse includes))))).
Proof.
  intros Hp. unfold reorganize_isystem.
  by rewrite (isystem_scan_parse _ _ _ Hp [] []).
Qed.

Lemma NoDup_reverse {A} (l : list A) : NoDup l → NoDup (reverse l).
Proof. by rewrite reverse_Permutation. Qed.

Lemma merge_sort_sorted (paths : list string) :
  StronglySorted isystem_key_le paths → merge_sort isystem_key_le paths = paths.
Proof.
  intros Hs. apply (StronglySorted_unique isystem_key_le); [|done|].
  - apply StronglySorted_merge_sort; apply _.
  - apply merge_sort_Permutation.
Qed.

End IsystemMore.

(** X11: [reorganize_isystem] is idempotent: whatever it returns, it returns
    unchanged when applied to it again; in particular its result never ends
    in a flag without a path. *)
Theorem reorganize_isystem_idempotent (args out : list string) :
  reorganize_isystem args = Ok out →
  reorganize_isystem out = Ok out ∧
  ∃ remainder paths, isystem_parse out remainder paths.
Proof.
  intros Hout.
  destruct (proj1 (reorganize_isystem_Ok_iff args) (ex_intro _ out Hout))
    as (remainder & includes & Hp).
  rewrite (reorganize_isystem_parse _ _ _ Hp) in Hout. injection Hout as <-.
  set (paths := merge_sort isystem_key_le (reverse (uniq (reverse includes)))).
  pose proof (isystem_parse_output remainder paths
                (isystem_parse_remainder _ _ _ Hp)) as Hp'.
  split; [|by eauto].
  rewrite (reorganize_isystem_parse _ _ _ Hp'). do 3 f_equal.
  assert (Hnd : NoDup paths).
  { unfold paths. rewrite merge_sort_Permutation, reverse_uniq_reverse.
    apply NoDup_remove_dups. }
  rewrite uniq_NoDup by by apply NoDup_reverse.
  rewrite reverse_involutive. apply merge_sort_sorted.
  apply StronglySorted_merge_sort; apply _.
Qed.

Lemma reorganize_isystem_idempotent_witness :
  reorganize_isystem ["-O2"; "-isystem"; "/opt/x/include"; "-isystem"; "/usr/include"]
  = Ok ["-O2"; "-isystem"; "/opt/x/include"; "-isystem"; "/usr/include"].
Proof.
  apply (reorganize_isystem_idempotent
           ["-isystem"; "/usr/include"; "-O2"; "-isystem"; "/opt/x/include";
            "-isystem"; "/usr/include"]).
  vm_compute. reflexivity.
Defined.

(** X12: [reorganize_isystem] only rearranges: a list without the flag is
    returned as it is, and a list whose paths are pairwise different is
    returned as a permutation of itself; in general nothing but repeated
    pairs is dropped, so the result is never longer than the argument. *)
Theorem reorganize_isystem_rearranges (args : list string) :
  ("-isystem" ∉ args → reorganize_isystem args = Ok args) ∧
  (∀ remainder includes out,
     isystem_parse args remainder includes →
     reorganize_isystem args = Ok out →
     length out ≤ length args ∧ (NoDup includes → out ≡ₚ args)).
Proof.
  split.
  - intros Hno.
    assert (Hp : isystem_parse args args []).
    { induction args as [|a args IH]; [constructor|].
      constructor; [intros ->; apply Hno; left|].
      apply IH. intros ?. apply Hno. by right. }
    rewrite (reorganize_isystem_parse _ _ _ Hp). cbn. by rewrite app_nil_r.
  - intros remainder includes out Hp Hout.
    rewrite (reorganize_isystem_parse _ _ _ Hp) in Hout. injection Hout as <-.
    pose proof (isystem_parse_Permutation _ _ _ Hp) as Hperm.
    assert (Hlen : ∀ l, length (isystem_pairs l) = 2 * length l).
    { induction l as [|x l IH]; [done|].
      change (isystem_pairs (x :: l)) with ("-isystem" :: x :: isystem_pairs l).
      cbn [length]. lia. }
    split.
    + rewrite Hperm, !length_app, !Hlen, merge_sort_Permutation,
        reverse_uniq_reverse.
      assert (length (remove_dups includes) ≤ length includes); [|lia].
      apply sublist_length. clear. induction includes as [|x l IH]; [done|].
      simpl. case_decide; [by apply sublist_cons|by apply sublist_skip].
    + intros Hnd. rewrite Hperm. f_equiv. apply isystem_pairs_Permutation.
      rewrite merge_sort_Permutation, uniq_NoDup by by apply NoDup_reverse.
      by rewrite reverse_involutive.
Qed.

Lemma reorganize_isystem_rearranges_witness :
  reorganize_isystem ["-O2"; "-g"] = Ok ["-O2"; "-g"].
Proof.
  apply (reorganize_isystem_rearranges ["-O2"; "-g"]).
  intros [?|[?|?%elem_of_nil]%elem_of_cons]%elem_of_cons; done.
Defined.

(** ** [generate_self_macros]: the error case *)

Section SelfMacrosMore.

Lemma rpartition_dot_None s :
  rpartition_dot s = None → all_chars not_dot s = true.
Proof.
  induction s as [|c s IH]; [done|]. cbn [rpartition_dot].
  destruct (rpartition_dot s) as [[? ?]|]; [done|].
  destruct (decide (c = "."%char)) as [|Hc]; [done|]. intros _. cbn.
  rewrite IH by done. unfold not_dot. by rewrite bool_decide_eq_false_2.
Qed.

Lemma rpartition_dot_Some s a b :
  rpartition_dot s = Some (a, b) → s = a +:+ "." +:+ b ∧ all_chars not_dot b = true.
Proof.
  revert a. induction s as [|c s IH]; intros a; [done|]. cbn [rpartition_dot].
  destruct (rpartition_dot s) as [[a' b']|] eqn:Hs.
  - intros [= <- <-]. destruct (IH _ eq_refl) as [-> Hb]. by rewrite string_app_cons.
  - destruct (decide (c = "."%char)) as [->|]; [|done]. intros [= <- <-].
    split; [done|]. by apply rpartition_dot_None.
Qed.

End SelfMacrosMore.

(** X13: [generate_self_macros] raises only the index error, and it raises it
    exactly when a version is given and the name has no dot; without a
    version the name is not looked at.  When it returns macros for a
    version, the name is the module prefix, a dot and the module name, and
    the module name has no dot. *)
Theorem generate_self_macros_errors (python_major : nat) (extname : string)
        (version : option string) :
  (∀ e, generate_self_macros python_major extname version = Raise e ↔
        e = IndexError ∧ version ≠ None ∧ all_chars not_dot extname = true) ∧
  (∀ v macros,
     version = Some v →
     generate_self_macros python_major extname version = Ok macros →
     ∃ prefix leaf,
       extname = prefix +:+ "." +:+ leaf ∧ all_chars not_dot leaf = true ∧
       macros !! 0 = Some ("BOB_EXT_MODULE_PREFIX", quoted prefix) ∧
       macros !! 1 = Some ("BOB_EXT_MODULE_NAME", quoted leaf)).
Proof.
  unfold generate_self_macros, rsplit_dot. split.
  - intros e. destruct version as [v|].
    + destruct (rpartition_dot extname) as [[a b]|] eqn:Hs; cbn.
      * split; [done|]. intros (_ & _ & Hno%rpartition_dot_no_dot). congruence.
      * split; [intros [= <-]|by intros (-> & _)]. split_and!; try done.
        by apply rpartition_dot_None.
    + split; [done|]. by intros (_ & ? & _).
  - intros v macros -> Hm.
    destruct (rpartition_dot extname) as [[a b]|] eqn:Hs; [|done].
    apply rpartition_dot_Some in Hs as [-> Hb].
    exists a, b. revert Hm.
    destruct (3 <=? python_major); destruct (decide (v = "")); cbn;
      intros [= <-]; by split_and!.
Qed.

Lemma generate_self_macros_errors_witness :
  generate_self_macros 3 "nodot" (Some "1.0") = Raise IndexError.
Proof.
  apply (generate_self_macros_errors 3 "nodot" (Some "1.0")).
  split_and!; done.
Defined.

(** ** The filesystem probe *)

Section ProbeMore.
Context (sys : Probe.system).

Lemma string_app_nil_r (s : string) : s +:+ "" = s.
Proof. induction s as [|c s IH]; [done|]. by rewrite string_app_cons, IH. Qed.

Lemma path_join_ends_with a b : ends_with b (Probe.path_join a b).
Proof.
  unfold Probe.path_join, ends_with. repeat case_match.
  - by exists "".
  - by exists "".
  - by exists a.
  - exists (a +:+ "/"). by rewrite string_app_assoc.
Qed.

Lemma search_prefixes_uniq prefixes :
  Probe.search_prefixes sys prefixes
  = uniq (env_prefixes sys ++ default [] prefixes ++ Probe.DEFAULT_PREFIXES).
Proof.
  unfold Probe.search_prefixes, env_prefixes.
  destruct (Probe.environ sys !! "BOB_PREFIX_PATH") as [value|];
    destruct prefixes as [[|p prefixes]|]; simpl;
    by rewrite ?app_nil_r, <-?(assoc_L (++)).
Qed.

Lemma elem_of_search_prefixes prefixes p :
  p ∈ Probe.search_prefixes sys prefixes ↔
  p ∈ env_prefixes sys ∨ p ∈ default [] prefixes ∨ p ∈ Probe.DEFAULT_PREFIXES.
Proof. by rewrite search_prefixes_uniq, elem_of_uniq, !elem_of_app. Qed.

(** The directories searched, before the expansion by [glob]. *)
Lemma find_file_dirs name subpaths prefixes c :
  c ∈ Probe.find_file sys name subpaths prefixes ↔
  Probe.path_exists sys c = true ∧
  ∃ prefix dir expanded,
    prefix ∈ Probe.search_prefixes sys prefixes ∧
    (dir = prefix ∨ ∃ sub, sub ∈ default [] subpaths ∧ dir = Probe.path_join prefix sub) ∧
    expanded ∈ Probe.glob sys dir ∧ c = Probe.path_join expanded name.
Proof.
  unfold Probe.find_file.
  rewrite list_elem_of_filter, list_elem_of_fmap.
  apply and_iff_compat_l.
  setoid_rewrite elem_of_concat. setoid_rewrite list_elem_of_fmap. split.
  - intros (expanded & -> & g & (dir & -> & Hdir) & Hexp).
    destruct subpaths as [[|sub subpaths]|].
    + exists dir, dir, expanded. by split_and!; [|left|..].
    + apply elem_of_concat in Hdir as (ds & (prefix & -> & Hp)%list_elem_of_fmap & Hd).
      exists prefix, dir, expanded. split_and!; try done.
      apply elem_of_app in Hd as [(s & -> & Hs)%list_elem_of_fmap|Hd%list_elem_of_singleton];
        [right; by exists s|by left].
    + exists dir, dir, expanded. by split_and!; [|left|..].
  - intros (prefix & dir & expanded & Hp & Hdir & Hexp & ->).
    exists expanded. split; [done|]. exists (Probe.glob sys dir).
    split; [|done]. exists dir. split; [done|].
    destruct subpaths as [[|sub subpaths]|]; cbn in Hdir.
    + destruct Hdir as [->|(s & ?%elem_of_nil & _)]; done.
    + apply elem_of_concat. eexists. split; [by apply list_elem_of_fmap_2|].
      apply elem_of_app.
      destruct Hdir as [->|(s & Hs & ->)];
        [right; by apply list_elem_of_singleton|left; by apply list_elem_of_fmap_2].
    + destruct Hdir as [->|(s & ?%elem_of_nil & _)]; done.
Qed.

End ProbeMore.

(** X14: [find_file] returns exactly the files that exist and are called [name]
    in a directory that [glob] gives for a prefix, or for a prefix joined
    with one of the subpaths, the prefix being one of the environment
    variable, one of the caller or one of the defaults.  Every path it
    returns ends with [name]. *)
Theorem find_file_finds (sys : Probe.system) (name : string)
        (subpaths prefixes : option (list string)) (c : string) :
  (c ∈ Probe.find_file sys name subpaths prefixes ↔
   Probe.path_exists sys c = true ∧
   ∃ prefix dir expanded,
     (prefix ∈ env_prefixes sys ∨ prefix ∈ default [] prefixes ∨
      prefix ∈ Probe.DEFAULT_PREFIXES) ∧
     (dir = prefix ∨
      ∃ sub, sub ∈ default [] subpaths ∧ dir = Probe.path_join prefix sub) ∧
     expanded ∈ Probe.glob sys dir ∧ c = Probe.path_join expanded name) ∧
  (c ∈ Probe.find_file sys name subpaths prefixes → ends_with name c).
Proof.
  split.
  - rewrite find_file_dirs. apply and_iff_compat_l.
    split; intros (prefix & dir & expanded & Hp & Hrest);
      exists prefix, dir, expanded; (split; [|done]);
      by apply elem_of_search_prefixes.
  - intros (_ & _ & _ & expanded & _ & _ & _ & ->)%find_file_dirs.
    apply path_join_ends_with.
Qed.

(** X15: [find_library] lists the files with the version in their name first
    and ends with what it returns when no version is asked for.  Every path
    it returns exists; its file name is [lib], the name and an extension,
    with the version after the extension, or before it on the Apple
    platform, for the versioned ones; the extension is [.a], or, unless
    only static libraries are asked for, the shared extension of the
    platform. *)
Theorem find_library_results (sys : Probe.system) (name : string)
        (version : option string) (subpaths prefixes : option (list string))
        (only_static : bool) :
  Probe.find_library sys name None subpaths prefixes only_static
    `suffix_of` Probe.find_library sys name version subpaths prefixes only_static ∧
  ∀ c,
    c ∈ Probe.find_library sys name version subpaths prefixes only_static →
    Probe.path_exists sys c = true ∧
    ∃ ext,
      (ext = ".a" ∨ (only_static = false ∧ ext = shared_extension sys)) ∧
      (ends_with ("lib" +:+ name +:+ ext) c ∨
       ∃ v, version = Some v ∧ v ≠ "" ∧ ends_with (versioned_name sys name v ext) c).
Proof.
  unfold Probe.find_library.
  set (my_subpaths := match subpaths with
                      | Some (_ :: _ as sp) => _
                      | _ => _
                      end).
  set (extensions := if only_static then _ else _).
  assert (Hext : ∀ ext, ext ∈ extensions →
            ext = ".a" ∨ (only_static = false ∧ ext = shared_extension sys)).
  { intros ext. unfold extensions, shared_extension.
    destruct only_static; repeat case_decide;
      rewrite ?elem_of_cons, elem_of_nil; naive_solver. }
  split.
  - cbn [app]. by apply suffix_app_r.
  - intros c [Hc|Hc]%elem_of_app.
    + destruct version as [[|a v]|]; try by apply elem_of_nil in Hc.
      apply elem_of_concat in Hc as (g & (ext & -> & Hin)%list_elem_of_fmap & Hc).
      apply find_file_dirs in Hc as (Hex & _ & _ & expanded & _ & _ & _ & ->).
      split; [done|]. exists ext. split; [by apply Hext|]. right.
      exists (String a v). split_and!; try done.
      unfold versioned_name. case_decide; apply path_join_ends_with.
    + apply elem_of_concat in Hc as (g & (ext & -> & Hin)%list_elem_of_fmap & Hc).
      apply find_file_dirs in Hc as (Hex & _ & _ & expanded & _ & _ & _ & ->).
      split; [done|]. exists ext. split; [by apply Hext|]. left.
      apply path_join_ends_with.
Qed.

(** ** [get_bob_libraries] *)

Section BobLibrariesMore.
Context (sys : Probe.system) (resource_filename : string → string → string).



End BobLibrariesMore.


(** ** [Extension.__init__]: the loop that extracts the Boost requirement *)

Section ExtractBoostMore.
Import Extension.

Lemma boost_scan_props n packages boost_req :
  length packages ≤ n →
  (boost_scan packages boost_req).2 `sublist_of` packages ∧
  filter (λ pkg, startswith "boost" pkg = false) (boost_scan packages boost_req).2
  = filter (λ pkg, startswith "boost" pkg = false) packages ∧
  ((boost_scan packages boost_req).1 = boost_req ∧
   Forall (λ pkg, startswith "boost" pkg = false) packages
   ∨ (boost_scan packages boost_req).1 ∈ packages ∧
     startswith "boost" (boost_scan packages boost_req).1 = true).
Proof.
  revert packages boost_req.
  induction n as [|n IH]; intros packages boost_req Hlen.
  { destruct packages; [|simpl in Hlen; lia]. cbn [boost_scan fst snd]. split_and!; auto. }
  destruct packages as [|pkg packages]; [cbn [boost_scan fst snd]; split_and!; auto|].
  cbn [boost_scan]. destruct (startswith "boost" pkg) eqn:Hpkg.
  - destruct packages as [|next packages].
    + cbn [fst snd]. split_and!.
      * by apply sublist_nil_l.
      * by rewrite filter_cons_False by (by rewrite Hpkg).
      * right. split; [apply list_elem_of_here|done].
    + destruct (IH packages pkg ltac:(simpl in Hlen; lia)) as (Hsub & Hfil & Hreq).
      destruct (boost_scan packages pkg) as [req kept]. cbn [fst snd] in *. split_and!.
      * by apply sublist_cons, sublist_skip.
      * rewrite (filter_cons_False _ pkg) by (by rewrite Hpkg).
        rewrite !filter_cons, Hfil. done.
      * right. destruct Hreq as [[-> _]|[Hin Hb]].
        -- split; [apply list_elem_of_here|done].
        -- split; [|done]. by do 2 apply list_elem_of_further.
  - destruct (IH packages boost_req ltac:(simpl in Hlen; lia)) as (Hsub & Hfil & Hreq).
    destruct (boost_scan packages boost_req) as [req kept]. cbn [fst snd] in *. split_and!.
    + by apply sublist_skip.
    + by rewrite !filter_cons, Hfil.
    + destruct Hreq as [[-> Hall]|[Hin Hb]].
      * left. split; [done|]. by constructor.
      * right. split; [|done]. by apply list_elem_of_further.
Qed.

Lemma extract_boost_any_fuel fuel packages boost_req :
  length packages ≤ fuel →
  extract_boost fuel 0 packages boost_req
  = extract_boost (length packages) 0 packages boost_req.
Proof.
  intros Hlen.
  pose proof (extract_boost_scan fuel [] packages boost_req Hlen) as H1.
  pose proof (extract_boost_scan (length packages) [] packages boost_req
                ltac:(done)) as H2.
  cbn [length app] in H1, H2. by rewrite H1, H2.
Qed.

End ExtractBoostMore.

(** X17: The loop that takes the Boost requirement out of the package list
    never runs past the bound of its model; it keeps the entries in their
    order and keeps every entry that does not start with [boost]; and the
    requirement it returns is empty exactly when no entry starts with
    [boost], and is otherwise one of the entries that do. *)
Theorem extract_boost_keeps_other_packages (packages : list string) :
  (∀ fuel, length packages ≤ fuel →
     Extension.extract_boost fuel 0 packages ""
     = Extension.extract_boost (length packages) 0 packages "") ∧
  (Extension.extract_boost (length packages) 0 packages "").2 `sublist_of` packages ∧
  filter (λ pkg, startswith "boost" pkg = false)
         (Extension.extract_boost (length packages) 0 packages "").2
  = filter (λ pkg, startswith "boost" pkg = false) packages ∧
  ((Extension.extract_boost (length packages) 0 packages "").1 = ""
   ↔ Forall (λ pkg, startswith "boost" pkg = false) packages) ∧
  ((Extension.extract_boost (length packages) 0 packages "").1 ≠ "" →
   (Extension.extract_boost (length packages) 0 packages "").1 ∈ packages ∧
   startswith "boost" (Extension.extract_boost (length packages) 0 packages "").1
   = true).
Proof.
  pose proof (extract_boost_scan (length packages) [] packages "" ltac:(done)) as Hs.
  cbn [length app] in Hs. rewrite Hs.
  destruct (boost_scan_props (length packages) packages "" ltac:(done))
    as (Hsub & Hfil & Hreq).
  destruct (boost_scan packages "") as [req kept]. cbn [fst snd app] in *.
  split_and!; try done.
  - intros fuel Hlen. by rewrite extract_boost_any_fuel, Hs.
  - split.
    + intros ->. destruct Hreq as [[_ ?]|[_ ?]]; done.
    + intros Hall. destruct Hreq as [[? _]|[Hin Hb]]; [done|].
      rewrite Forall_forall in Hall. by rewrite (Hall _ Hin) in Hb.
  - intros Hne. destruct Hreq as [[? _]|?]; done.
Qed.

(** A list with two Boost entries in a row: the second one stays. *)
Lemma extract_boost_keeps_other_packages_witness :
  (Extension.extract_boost 3 0 ["boost"; "boost-b"; "pkga"] "").1 ≠ "" ∧
  (Extension.extract_boost 3 0 ["boost"; "boost-b"; "pkga"] "").1
    ∈ ["boost"; "boost-b"; "pkga"].
Proof.
  destruct (extract_boost_keeps_other_packages ["boost"; "boost-b"; "pkga"])
    as (_ & _ & _ & _ & H).
  split; [by vm_compute|].
  apply H. by vm_compute.
Defined.

(** ** [Library.compile] and [build_ext.run]: errors and untouched state *)

Section RunMore.
Import BuildExt.
Context (build_lib : string) (call : list string → string → Z).

Lemma compile_cases l dir :
  (compile call l dir = Ok () ∧
   call [c_cmake l; c_package_directory l] dir = 0%Z ∧ call ["make"] dir = 0%Z)
  ∨ (compile call l dir = Raise (OSError "Could not generate makefiles with CMake") ∧
     call [c_cmake l; c_package_directory l] dir ≠ 0%Z)
  ∨ (compile call l dir
     = Raise (OSError "CMake compilation stopped with an error; stopping ...") ∧
     call [c_cmake l; c_package_directory l] dir = 0%Z ∧ call ["make"] dir ≠ 0%Z).
Proof.
  unfold compile.
  destruct (decide (call [c_cmake l; c_package_directory l] dir = 0%Z)) as [H1|H1];
    destruct (decide (call ["make"] dir = 0%Z)) as [H2|H2];
    repeat case_decide; try done; auto.
Qed.

Lemma library_targets_cons objs r extensions :
  library_targets objs (r :: extensions)
  = match objs !! r with
    | Some (Target e (Some l)) => (e, l) :: library_targets objs extensions
    | _ => library_targets objs extensions
    end.
Proof.
  unfold library_targets. cbn [omap list_omap].
  by destruct (objs !! r) as [[e [l|]]|].
Qed.

(** The first loop stops at the first library target that does not
    compile, and with its error. *)
Lemma build_libraries_Raise extensions objs libs lib_dirs include_dirs err :
  build_libraries build_lib call extensions objs libs lib_dirs include_dirs = Raise err →
  ∃ before e l after,
    library_targets objs extensions = before ++ (e, l) :: after ∧
    (∀ e' l', (e', l') ∈ before →
       compile call l' (Probe.path_join build_lib (Extension.name e')) = Ok ()) ∧
    compile call l (Probe.path_join build_lib (Extension.name e)) = Raise err.
Proof.
  revert libs lib_dirs include_dirs.
  induction extensions as [|r extensions IH]; intros libs lib_dirs include_dirs; [done|].
  rewrite library_targets_cons. cbn [build_libraries].
  destruct (objs !! r) as [[e [l|]]|]; try apply IH.
  destruct (compile call l (Probe.path_join build_lib (Extension.name e)))
    as [[]|err'] eqn:Hc; cbn.
  - intros (before & e0 & l0 & after & -> & Hb & He)%IH.
    exists ((e, l) :: before), e0, l0, after. split_and!; try done.
    intros e' l' [[= -> ->]|Hin]%elem_of_cons; [done|by apply Hb].
  - intros [= <-]. exists [], e, l, (library_targets objs extensions).
    split_and!; try done. by intros e' l' ?%elem_of_nil.
Qed.

Lemma build_libraries_Ok_inv extensions objs libs lib_dirs include_dirs res :
  build_libraries build_lib call extensions objs libs lib_dirs include_dirs = Ok res →
  ∀ e l, (e, l) ∈ library_targets objs extensions →
         compile call l (Probe.path_join build_lib (Extension.name e)) = Ok ().
Proof.
  revert libs lib_dirs include_dirs.
  induction extensions as [|r extensions IH]; intros libs lib_dirs include_dirs.
  { by intros _ e l ?%elem_of_nil. }
  rewrite library_targets_cons. cbn [build_libraries].
  destruct (objs !! r) as [[e0 [l0|]]|]; try apply IH.
  destruct (compile call l0 (Probe.path_join build_lib (Extension.name e0)))
    as [[]|err0] eqn:Hc0; cbn; [|done].
  intros Hb e l [[= -> ->]|Hin]%elem_of_cons; [done|by eapply IH].
Qed.

Lemma occurrences_not_elem_of r extensions :
  r ∉ extensions → occurrences r extensions = 0.
Proof.
  unfold occurrences. intros Hr.
  destruct (filter (λ x, x = r) extensions) as [|y ys] eqn:Hf; [done|].
  assert (y ∈ filter (λ x, x = r) extensions) as [-> ?]%list_elem_of_filter
    by (rewrite Hf; left). done.
Qed.

Lemma set_defaults_same libs lib_dirs include_dirs t :
  same_but_search_lists t (set_defaults libs lib_dirs include_dirs t).
Proof. by repeat split. Qed.

Lemma same_but_search_lists_iter n libs lib_dirs include_dirs t :
  same_but_search_lists t (Nat.iter n (set_defaults libs lib_dirs include_dirs) t).
Proof.
  induction n as [|n IH]; [by repeat split|].
  rewrite Nat.iter_succ.
  pose proof (set_defaults_same libs lib_dirs include_dirs
                (Nat.iter n (set_defaults libs lib_dirs include_dirs) t)) as Hs.
  unfold same_but_search_lists in *.
  destruct IH as (?&?&?&?&?&?&?&?&?&?&?&?), Hs as (?&?&?&?&?&?&?&?&?&?&?&?).
  split_and!; congruence.
Qed.

Lemma set_defaults_nil t : set_defaults [] [] [] t = t.
Proof.
  destruct t as [[] ?]. unfold set_defaults. cbn. by rewrite !or_empty_id.
Qed.

Lemma propagate_nil extensions (objs : objects) :
  propagate extensions [] [] [] objs = objs.
Proof.
  apply map_eq. intros r. rewrite propagate_lookup.
  destruct (objs !! r) as [t|]; [|done]. cbn. f_equal.
  induction (occurrences r extensions) as [|n IH]; [done|].
  by rewrite Nat.iter_succ, IH, set_defaults_nil.
Qed.

Lemma library_targets_nil objs extensions :
  library_targets objs extensions = [] →
  filter (λ r, ¬ is_library objs r) extensions = extensions.
Proof.
  induction extensions as [|r extensions IH]; [done|].
  rewrite library_targets_cons.
  destruct (objs !! r) as [[e [l|]]|] eqn:Hr; [done|..]; intros Hnil.
  - rewrite filter_cons_True; [by rewrite IH|].
    intros (t & l & Ht & Hl). rewrite Hr in Ht. by simplify_eq.
  - rewrite filter_cons_True; [by rewrite IH|].
    intros (t & l & Ht & Hl). by rewrite Hr in Ht.
Qed.

Lemma run_Ok extensions objs res :
  run build_lib call extensions objs = Ok res →
  ∃ libs lib_dirs include_dirs,
    res = (filter (λ r, ¬ is_library objs r) extensions,
           propagate (filter (λ r, ¬ is_library objs r) extensions)
                     libs lib_dirs include_dirs objs) ∧
    (library_targets objs extensions = [] →
     libs = [] ∧ lib_dirs = [] ∧ include_dirs = []).
Proof.
  unfold run.
  destruct (build_libraries build_lib call extensions objs [] [] [])
    as [[[libs lib_dirs] include_dirs]|err] eqn:Hb; [|done].
  cbn. intros [= <-]. exists libs, lib_dirs, include_dirs. split; [done|].
  intros Hnil. rewrite build_libraries_Ok in Hb.
  - rewrite Hnil in Hb. by simplify_eq.
  - rewrite Hnil. by intros e l ?%elem_of_nil.
Qed.

End RunMore.

(** X18: [build_ext.run] succeeds exactly when the two processes of every
    library target end with exit code 0.  Otherwise it raises the error
    of the first library target, in the order of the list, for which one
    of them does not: the makefile generation error when the configure
    process fails, and the compilation error when the configure process
    succeeds and the [make] process fails; the library targets before it
    have been compiled.  The creation of the build directory and the
    generation of the descriptor file are taken to succeed, as in the
    model of [compile]. *)
Theorem run_stops_at_first_failed_library (build_lib : string)
        (call : list string → string → Z)
        (extensions : list Heap.ref) (objs : BuildExt.objects) :
  let dir e := Probe.path_join build_lib (Extension.name e) in
  let configure l := [BuildExt.c_cmake l; BuildExt.c_package_directory l] in
  ((∃ res, BuildExt.run build_lib call extensions objs = Ok res) ↔
   ∀ e l, (e, l) ∈ library_targets objs extensions →
          call (configure l) (dir e) = 0%Z ∧ call ["make"] (dir e) = 0%Z) ∧
  (∀ err, BuildExt.run build_lib call extensions objs = Raise err →
     ∃ before e l after,
       library_targets objs extensions = before ++ (e, l) :: after ∧
       (∀ e' l', (e', l') ∈ before →
          call (configure l') (dir e') = 0%Z ∧ call ["make"] (dir e') = 0%Z) ∧
       (call (configure l) (dir e) ≠ 0%Z ∧
        err = OSError "Could not generate makefiles with CMake"
        ∨ call (configure l) (dir e) = 0%Z ∧ call ["make"] (dir e) ≠ 0%Z ∧
          err = OSError "CMake compilation stopped with an error; stopping ...")).
Proof.
  intros dir configure.
  assert (Hcompile : ∀ e l,
            BuildExt.compile call l (dir e) = Ok () ↔
            call (configure l) (dir e) = 0%Z ∧ call ["make"] (dir e) = 0%Z).
  { intros e l.
    destruct (compile_cases call l (dir e)) as [(-> & ? & ?)|[(-> & ?)|(-> & ? & ?)]];
      split; try done; intros [? ?]; done. }
  split.
  - split.
    + intros [res Hres] e l Hin. apply Hcompile.
      destruct (BuildExt.compile call l (dir e)) as [[]|err] eqn:Hc; [done|].
      exfalso. revert Hres. unfold BuildExt.run.
      destruct (BuildExt.build_libraries build_lib call extensions objs [] [] [])
        as [r|err'] eqn:Hb; [|done]. intros _.
      pose proof (build_libraries_Ok_inv _ _ _ _ _ _ _ _ Hb e l Hin) as Hok.
      unfold dir in Hc. congruence.
    + intros Hall. unfold BuildExt.run. rewrite build_libraries_Ok.
      * cbn. by eexists.
      * intros e l Hin. apply Hcompile. by apply Hall.
  - intros err. unfold BuildExt.run.
    destruct (BuildExt.build_libraries build_lib call extensions objs [] [] [])
      as [[[libs lib_dirs] include_dirs]|err'] eqn:Hb; [done|].
    cbn. intros [= <-].
    apply build_libraries_Raise in Hb as (before & e & l & after & Hlt & Hbefore & He).
    exists before, e, l, after. split_and!; try done.
    + intros e' l' Hin. apply Hcompile. by apply Hbefore.
    + destruct (compile_cases call l (dir e))
        as [(Hc & ? & ?)|[(Hc & ?)|(Hc & ? & ?)]]; unfold dir in Hc;
        rewrite Hc in He; simplify_eq; auto.
Qed.

(** X19: A successful [build_ext.run] hands over the targets that are not
    libraries, in their order.  It keeps every object; it leaves alone
    the library targets and the objects that are not listed; of a listed
    extension it changes at most the libraries, the library directories
    and the include directories; and when no library target is listed it
    changes nothing. *)
Theorem run_changes_only_search_lists (build_lib : string)
        (call : list string → string → Z)
        (extensions extensions' : list Heap.ref) (objs objs' : BuildExt.objects) :
  BuildExt.run build_lib call extensions objs = Ok (extensions', objs') →
  extensions' `sublist_of` extensions ∧
  (∀ r, r ∈ extensions' ↔ r ∈ extensions ∧ ¬ BuildExt.is_library objs r) ∧
  dom objs' = dom objs ∧
  (∀ r, r ∉ extensions' → objs' !! r = objs !! r) ∧
  (∀ r t', objs' !! r = Some t' →
     ∃ t, objs !! r = Some t ∧ same_but_search_lists t t') ∧
  (library_targets objs extensions = [] → extensions' = extensions ∧ objs' = objs).
Proof.
  intros (libs & lib_dirs & include_dirs & [= -> ->] & Hnil)%run_Ok.
  split_and!.
  - apply sublist_filter.
  - intros r. by rewrite list_elem_of_filter, (comm (∧)).
  - apply set_eq. intros r.
    by rewrite !elem_of_dom, propagate_lookup, fmap_is_Some.
  - intros r Hr. rewrite propagate_lookup, occurrences_not_elem_of by done.
    by destruct (objs !! r).
  - intros r t'. rewrite propagate_lookup.
    destruct (objs !! r) as [t|]; [|done]. intros [= <-].
    exists t. split; [done|]. apply same_but_search_lists_iter.
  - intros Hl. destruct (Hnil Hl) as (-> & -> & ->).
    by rewrite propagate_nil, library_targets_nil.
Qed.

Lemma run_changes_only_search_lists_witness :
  ∃ extensions' objs',
    BuildExt.run "build/lib" (λ _ _, 0%Z) [1; 0] Sample.targets
    = Ok (extensions', objs') ∧
    objs' !! 0 = Sample.targets !! 0 ∧ dom objs' = dom Sample.targets.
Proof.
  eexists _, _. split; [by vm_compute|].
  destruct (run_changes_only_search_lists "build/lib" (λ _ _, 0%Z) [1; 0] [1]
              Sample.targets _ ltac:(by vm_compute))
    as (_ & _ & Hdom & Hframe & _).
  split; [|exact Hdom].
  apply Hframe. apply (bool_decide_unpack _). by vm_compute.
Defined.

(** ** [Extension.__init__]: the parameters it assembles *)

Section InitMore.
Import Extension Heap.
Context (w : world).

Lemma ref_or_new_contents (o : option ref) h r h' :
  match o with Some r => mret r | None => new_list [] end h = Ok (r, h') →
  (∀ r', contents h' r' = contents h r') ∧
  (∀ r', r' ∈ dom h → h' !! r' = h !! r') ∧
  dom h ⊆ dom h' ∧
  (o = None → r ∉ dom h) ∧
  (∀ r0, o = Some r0 → r = r0 ∧ h' = h).
Proof.
  destruct o as [r0|].
  - intros [= <- <-]. split_and!; try done. by intros ? [= <-].
  - intros [= <- <-]. pose proof (is_fresh (dom h)) as Hf. split_and!; try done.
    + intros r'. unfold contents.
      destruct (decide (r' = fresh (dom h))) as [->|Hne].
      * rewrite lookup_insert_eq. by rewrite (not_elem_of_dom_1 h _ Hf).
      * by rewrite lookup_insert_ne.
    + intros r' Hr'. rewrite lookup_insert_ne; [done|]. by intros <-.
    + rewrite dom_insert. set_solver.
Qed.

Lemma extend_contents r l h u h' :
  extend r l h = Ok (u, h') →
  contents h' r = contents h r ++ l ∧
  (∀ r', r' ≠ r → h' !! r' = h !! r') ∧
  dom h ⊆ dom h'.
Proof.
  intros [= _ <-]. unfold contents. split_and!.
  - by rewrite lookup_insert_eq.
  - intros r' Hne. by rewrite lookup_insert_ne.
  - rewrite dom_insert. set_solver.
Qed.

Lemma contents_frame h h' r :
  h' !! r = h !! r → contents h' r = contents h r.
Proof. unfold contents. by intros ->. Qed.

(** The user's list after a step that appends [added] to the system
    list: it has at least the entries it had. *)
Lemma contents_user_grows h h' ui si added k :
  contents h' si = contents h si ++ added →
  (∀ r, r ≠ si → h' !! r = h !! r) →
  k ∈ contents h ui → k ∈ contents h' ui.
Proof.
  intros Hsi Hframe Hk. destruct (decide (ui = si)) as [->|Hne].
  - rewrite Hsi, elem_of_app. by left.
  - by rewrite (contents_frame _ _ _ (Hframe ui Hne)).
Qed.

Lemma add_includes_spec dirs ui si pkg_includes h incs h' :
  add_includes dirs ui si pkg_includes h = Ok (incs, h') →
  ∃ added,
    incs = pkg_includes ++ added ∧
    contents h' si = contents h si ++ added ∧
    (∀ r, r ≠ si → h' !! r = h !! r) ∧
    dom h ⊆ dom h' ∧
    (NoDup pkg_includes → NoDup incs) ∧
    (∀ k, k ∈ dirs → k ∈ contents h' ui ∨ k ∈ incs) ∧
    (ui ≠ si → ∀ k, k ∈ added → k ∉ contents h ui).
Proof.
  revert pkg_includes h.
  induction dirs as [|k dirs IH]; intros pkg_includes h.
  - intros [= <- <-]. exists []. rewrite !app_nil_r. split_and!; try done.
    + by intros k ?%elem_of_nil.
    + by intros _ k ?%elem_of_nil.
  - cbn [add_includes]. intros (user & h1 & [= <- <-] & Hk)%heap_bind_Ok.
    case_decide as Hskip.
    + apply IH in Hk as (added & -> & Hsi & Hframe & Hdom & Hnd & Hall & Hnew).
      exists added. split_and!; try done.
      intros k' [->|Hk']%elem_of_cons; [|by apply Hall].
      destruct Hskip as [Hu|Hp].
      * left. by eapply contents_user_grows.
      * right. rewrite elem_of_app. by left.
    + apply heap_bind_Ok in Hk as ([] & h2 & (Hsi2 & Hframe2 & Hdom2)%extend_contents & Hk).
      apply IH in Hk as (added & -> & Hsi & Hframe & Hdom & Hnd & Hall & Hnew).
      exists (k :: added). split_and!.
      * by rewrite <-(assoc_L (++)).
      * by rewrite Hsi, Hsi2, <-(assoc_L (++)).
      * intros r Hr. by rewrite Hframe, Hframe2.
      * set_solver.
      * intros Hp. apply Hnd. apply NoDup_app. split_and!; [done| |apply NoDup_singleton].
        intros x Hx ->%list_elem_of_singleton. apply Hskip. by right.
      * intros k' [->|Hk']%elem_of_cons; [|by apply Hall].
        right. rewrite !elem_of_app, list_elem_of_singleton. auto.
      * intros Hne k' [->|Hk']%elem_of_cons.
        -- intros Hu. apply Hskip. by left.
        -- rewrite <-(contents_frame _ _ _ (Hframe2 ui Hne)). by apply Hnew.
Qed.

Lemma add_packages_spec pkgs ui si p h p' h' :
  add_packages w pkgs ui si p h = Ok (p', h') →
  ∃ added,
    p_pkg_includes p' = p_pkg_includes p ++ added ∧
    contents h' si = contents h si ++ added ∧
    (∀ r, r ≠ si → h' !! r = h !! r) ∧
    dom h ⊆ dom h' ∧
    (NoDup (p_pkg_includes p) → NoDup (p_pkg_includes p')) ∧
    (∀ pkg k, pkg ∈ pkgs → k ∈ PkgConfig.include_directories pkg →
              k ∈ contents h' ui ∨ k ∈ p_pkg_includes p') ∧
    (ui ≠ si → ∀ k, k ∈ added → k ∉ contents h ui) ∧
    p_define_macros p'
    = p_define_macros p ++ concat (PkgConfig.package_macros <$> pkgs) ∧
    p_pkg_macros p' = p_pkg_macros p ++ concat (PkgConfig.package_macros <$> pkgs) ∧
    p_library_dirs p'
    = p_library_dirs p ++ concat (PkgConfig.library_directories <$> pkgs) ∧
    p_pkg_library_directories p'
    = p_pkg_library_directories p ++ concat (PkgConfig.library_directories <$> pkgs) ∧
    p_extra_compile_args p' = p_extra_compile_args p.
Proof.
  revert p h. induction pkgs as [|pkg pkgs IH]; intros p h.
  - intros [= <- <-]. exists []. rewrite !app_nil_r. split_and!; try done.
    + by intros pkg k ?%elem_of_nil.
    + by intros _ k ?%elem_of_nil.
  - cbn [add_packages]. intros (incs & h1 & Hinc & Hk)%heap_bind_Ok.
    apply add_includes_spec in Hinc
      as (added1 & -> & Hsi1 & Hframe1 & Hdom1 & Hnd1 & Hall1 & Hnew1).
    apply heap_bind_Ok in Hk as (libs & h2 & [_ ->]%lift_Ok & Hk).
    apply IH in Hk
      as (added & Hinc & Hsi & Hframe & Hdom & Hnd & Hall & Hnew
          & Hmac & Hpmac & Hdirs & Hpdirs & Hargs).
    cbn [p_pkg_includes p_define_macros p_pkg_macros p_library_dirs
         p_pkg_library_directories p_extra_compile_args] in *.
    exists (added1 ++ added). split_and!.
    + by rewrite Hinc, <-(assoc_L (++)).
    + by rewrite Hsi, Hsi1, <-(assoc_L (++)).
    + intros r Hr. by rewrite Hframe, Hframe1.
    + set_solver.
    + intros Hp. by apply Hnd, Hnd1.
    + intros pkg' k [->|Hin]%elem_of_cons Hk; [|by eapply Hall].
      destruct (Hall1 k Hk) as [Hu|Hi].
      * left. by eapply contents_user_grows.
      * right. rewrite Hinc, elem_of_app. by left.
    + intros Hne k [Hk|Hk]%elem_of_app; [by apply Hnew1|].
      rewrite <-(contents_frame _ _ _ (Hframe1 ui Hne)). by apply Hnew.
    + by rewrite Hmac, fmap_cons, <-(assoc_L (++)).
    + by rewrite Hpmac, fmap_cons, <-(assoc_L (++)).
    + by rewrite Hdirs, fmap_cons, <-(assoc_L (++)).
    + by rewrite Hpdirs, fmap_cons, <-(assoc_L (++)).
    + done.
Qed.

Lemma add_boost_spec boost_req boost_modules ui si p h p' h' :
  add_boost w boost_req boost_modules ui si p h = Ok (p', h') →
  ∃ added macros libdirs libs,
    p_pkg_includes p' = p_pkg_includes p ++ added ∧
    contents h' si = contents h si ++ added ∧
    (∀ r, r ≠ si → h' !! r = h !! r) ∧
    dom h ⊆ dom h' ∧
    length added ≤ 1 ∧
    (∀ k, k ∈ added → k ∉ contents h ui) ∧
    p_define_macros p' = p_define_macros p ++ macros ∧
    p_pkg_macros p' = p_pkg_macros p ∧
    p_library_dirs p' = p_library_dirs p ++ libdirs ∧
    p_pkg_library_directories p' = p_pkg_library_directories p ++ libdirs ∧
    p_libraries p' = p_libraries p ++ libs ∧
    p_pkg_libraries p' = p_pkg_libraries p ++ libs ∧
    p_extra_compile_args p' = p_extra_compile_args p.
Proof.
  unfold add_boost. case_decide.
  { intros [= <- <-]. exists [], [], [], []. rewrite !app_nil_r.
    split_and!; try done; [simpl; lia|by intros k ?%elem_of_nil]. }
  intros (b & h1 & [_ ->]%lift_Ok & Hk)%heap_bind_Ok.
  apply heap_bind_Ok in Hk as (user & h2 & [= <- <-] & Hk).
  apply heap_bind_Ok in Hk as (incs & h3 & Hincs & Hk).
  destruct (match boost_modules with
            | [] => ([], [])
            | _ :: _ => Boost.libconfig b boost_modules
            end) as [libdirs libs].
  injection Hk as <- <-.
  cbn [p_pkg_includes p_define_macros p_pkg_macros p_library_dirs
       p_pkg_library_directories p_extra_compile_args p_libraries p_pkg_libraries].
  case_decide as Hin.
  - injection Hincs as <- <-. exists [], (Boost.macros b), libdirs, libs.
    rewrite !app_nil_r. split_and!; try done; [simpl; lia|by intros k ?%elem_of_nil].
  - apply heap_bind_Ok in Hincs as ([] & h4 & (Hsi & Hframe & Hdom)%extend_contents & Hincs).
    injection Hincs as <- <-.
    exists [Boost.include_directory b], (Boost.macros b), libdirs, libs.
    split_and!; try done.
    intros k ->%list_elem_of_singleton. done.
Qed.

(** What the Boost block adds to the parameters is what Boost gives. *)
Lemma add_boost_contribution boost_req boost_modules ui si p h p' h' :
  add_boost w boost_req boost_modules ui si p h = Ok (p', h') →
  ∃ macros libdirs libs,
    boost_contribution w boost_req boost_modules = Ok (macros, libdirs, libs) ∧
    p_define_macros p' = p_define_macros p ++ macros ∧
    p_pkg_macros p' = p_pkg_macros p ∧
    p_library_dirs p' = p_library_dirs p ++ libdirs ∧
    p_pkg_library_directories p' = p_pkg_library_directories p ++ libdirs ∧
    p_libraries p' = p_libraries p ++ libs ∧
    p_pkg_libraries p' = p_pkg_libraries p ++ libs.
Proof.
  unfold add_boost, boost_contribution. case_decide.
  { intros [= <- <-]. exists [], [], []. by rewrite !app_nil_r. }
  intros (b & h1 & [Hb ->]%lift_Ok & Hk)%heap_bind_Ok. rewrite Hb. cbn.
  apply heap_bind_Ok in Hk as (user & h2 & [= <- <-] & Hk).
  apply heap_bind_Ok in Hk as (incs & h3 & Hincs & Hk).
  destruct (match boost_modules with
            | [] => ([], [])
            | _ :: _ => Boost.libconfig b boost_modules
            end) as [libdirs libs].
  injection Hk as <- <-. by exists (Boost.macros b), libdirs, libs.
Qed.

Lemma runtime_block_Ok (kwr : option ref) (library_dirs : list string) h rld h' :
  (if decide (platform_system w = "Linux") then
     runtime ←
       match kwr with
       | Some r => mret r
       | None => new_list []
       end;
     extend runtime library_dirs;;
     dirs ← read runtime;
     mret (Some (uniq dirs))
   else
     match kwr with
     | Some r => dirs ← read r; mret (Some dirs)
     | None => mret None
     end) h = Ok (rld, h') →
  dom h ⊆ dom h' ∧
  if decide (platform_system w = "Linux") then
    ∃ rt,
      (∀ r, kwr = Some r → rt = r) ∧ (kwr = None → rt ∉ dom h) ∧
      rld = Some (uniq (contents h rt ++ library_dirs)) ∧
      contents h' rt = contents h rt ++ library_dirs ∧
      (∀ r', r' ≠ rt → contents h' r' = contents h r') ∧
      (∀ r', r' ∈ dom h → r' ≠ rt → h' !! r' = h !! r')
  else h' = h ∧ rld = contents h <$> kwr.
Proof.
  case_decide.
  - intros (rt & h1 & (Hc & Hl & Hdom & Hnone & Hsome)%ref_or_new_contents
            & Hk)%heap_bind_Ok.
    apply heap_bind_Ok in Hk as ([] & h2 & (Hrt & Hframe & Hdom2)%extend_contents & Hk).
    apply heap_bind_Ok in Hk as (dirs & h3 & [= <- <-] & Hk).
    injection Hk as <- <-. split; [set_solver|].
    exists rt. split_and!.
    + intros r Hr. by destruct (Hsome r Hr).
    + done.
    + fold (contents h2 rt). by rewrite Hrt, Hc.
    + by rewrite Hrt, Hc.
    + intros r' Hr'. by rewrite (contents_frame _ _ _ (Hframe r' Hr')), Hc.
    + intros r' Hd Hr'. by rewrite Hframe, Hl.
  - destruct kwr as [r|].
    + intros (dirs & h1 & [= <- <-] & Hk)%heap_bind_Ok. by injection Hk as <- <-.
    + by intros [= <- <-].
Qed.

Lemma isystem_scan_prefix args skip rem inc r i :
  isystem_scan args skip rem inc = Ok (r, i) → rem `prefix_of` r.
Proof.
  revert skip rem inc. induction args as [|arg args IH]; intros skip rem inc.
  - by intros [= <- <-].
  - cbn [isystem_scan]. destruct skip; [apply IH|].
    case_decide.
    + destruct (index args 0) as [path|e]; [|done]. cbn. apply IH.
    + intros Hs%IH. etrans; [|done]. by apply prefix_app_r.
Qed.

Lemma reorganize_isystem_head arg args out :
  arg ≠ "-isystem" →
  reorganize_isystem (arg :: args) = Ok out → head out = Some arg.
Proof.
  intros Harg. unfold reorganize_isystem. cbn [isystem_scan].
  rewrite decide_False by done.
  destruct (isystem_scan args false ([] ++ [arg]) []) as [[r i]|e] eqn:Hs; [|done].
  cbn. intros [= <-]. apply isystem_scan_prefix in Hs as [k ->]. done.
Qed.

Lemma reorganize_isystem_Ok_parse args out :
  reorganize_isystem args = Ok out →
  ∃ remainder includes,
    isystem_parse args remainder includes ∧
    out = remainder
          ++ isystem_pairs (merge_sort isystem_key_le (reverse (uniq (reverse includes)))).
Proof.
  intros Hout.
  destruct (proj1 (reorganize_isystem_Ok_iff args)) as (remainder & includes & Hp);
    [by eexists|].
  exists remainder, includes. split; [done|].
  rewrite (reorganize_isystem_parse _ _ _ Hp) in Hout. by injection Hout as <-.
Qed.

(** A run of pairs inside an argument list is read as pairs when no flag
    without a path comes before it. *)
Lemma isystem_parse_pairs_inside pre paths post remainder includes :
  "-isystem" ∉ pre →
  isystem_parse (pre ++ isystem_pairs paths ++ post) remainder includes →
  ∀ k, k ∈ paths → k ∈ includes.
Proof.
  revert remainder. induction pre as [|arg pre IH]; intros remainder Hpre.
  - cbn [app]. revert remainder includes.
    induction paths as [|p paths IHp]; intros remainder includes Hp k.
    { by intros ?%elem_of_nil. }
    change (isystem_pairs (p :: paths) ++ post)
      with ("-isystem" :: p :: isystem_pairs paths ++ post) in Hp.
    inversion Hp as [|path args rem inc Hrest|arg args rem inc Harg Hrest];
      simplify_eq.
    intros [->|Hk]%elem_of_cons; [left|right]. by eapply IHp.
  - cbn [app]. intros Hp.
    inversion Hp as [|path args rem inc Hrest|arg' args rem inc Harg Hrest];
      simplify_eq.
    + exfalso. apply Hpre. left.
    + eapply IH; [|done]. intros ?. apply Hpre. by right.
Qed.

Lemma isystem_pairs_lookup remainder paths k :
  k ∈ paths →
  ∃ i, (remainder ++ isystem_pairs paths) !! i = Some "-isystem" ∧
       (remainder ++ isystem_pairs paths) !! S i = Some k.
Proof.
  intros Hk. induction paths as [|p paths IH] in remainder, Hk |- *.
  { by apply elem_of_nil in Hk. }
  apply elem_of_cons in Hk as [->|Hk].
  - exists (length remainder). split.
    + by rewrite lookup_app_r, Nat.sub_diag by lia.
    + rewrite lookup_app_r by lia.
      by replace (S (length remainder) - length remainder) with 1 by lia.
  - destruct (IH (remainder ++ ["-isystem"; p]) Hk) as (i & H1 & H2).
    exists i. change (isystem_pairs (p :: paths))
      with (["-isystem"; p] ++ isystem_pairs paths).
    by rewrite (assoc_L (++)).
Qed.

Lemma base_compile_args_eq :
  (if decide (platform_system w = "Darwin")
   then ["-std=c++0x"] ++ ["-Wno-#warnings"] else ["-std=c++0x"])
  = base_compile_args w.
Proof. unfold base_compile_args. by case_decide. Qed.

Lemma base_compile_args_cons :
  ∃ more, base_compile_args w = "-std=c++0x" :: more ∧
          "-isystem" ∉ base_compile_args w.
Proof.
  unfold base_compile_args. case_decide; eexists; (split; [done|]).
  - intros [?|[?|?%elem_of_nil]%elem_of_cons]%elem_of_cons; done.
  - intros [?|?%elem_of_nil]%elem_of_cons; done.
Qed.

Lemma merged_app {A} (ours : list A) theirs :
  merged ours theirs = ours ++ default [] theirs.
Proof. destruct theirs; [done|]. cbn. by rewrite app_nil_r. Qed.

End InitMore.

(** The steps a successful run of the constructor has gone through. *)
Ltac init_invert H :=
  unfold Extension.init in H;
  apply heap_bind_Ok in H as (packages & h1 & [Hnorm ->]%lift_Ok & H);
  apply heap_bind_Ok in H
    as ([[bob_includes bob_libraries] bob_library_dirs] & h2 & [Hbob ->]%lift_Ok & H);
  apply heap_bind_Ok in H as (si & h3 & Hsi & H);
  destruct (Extension.extract_boost (length packages) 0 packages "")
    as [boost_req rest] eqn:Hex;
  cbv zeta in H;
  apply heap_bind_Ok in H as (self & h4 & [Hself ->]%lift_Ok & H);
  apply heap_bind_Ok in H as (ui & h5 & Hui & H);
  apply heap_bind_Ok in H as (p1 & h6 & Hboost & H);
  apply heap_bind_Ok in H as (pkgs & h7 & [Hcheck ->]%lift_Ok & H);
  apply heap_bind_Ok in H as (p2 & h8 & Hpkgs & H);
  apply heap_bind_Ok in H as (isys & h9 & [= <- <-] & H);
  apply heap_bind_Ok in H as (inc & h10 & Hinc & H);
  apply heap_bind_Ok in H as ([] & h11 & Hext & H);
  apply heap_bind_Ok in H as (user & h12 & [= <- <-] & H);
  apply heap_bind_Ok in H as (own & h13 & [= <- <-] & H);
  apply heap_bind_Ok in H as (eca & h14 & [Heca ->]%lift_Ok & H);
  apply heap_bind_Ok in H as (rld & h15 & Hrld & H);
  injection H as <- <-.


(** X20: What the constructor hands to the base class for linking, in
    terms of what it is given.  The packages are normalized, Boost is
    taken out of them, and the rest is resolved by [check_packages].  The
    attributes [pkg_macros], [pkg_library_directories] and [pkg_libraries]
    record the macros of the resolved packages, the library directories
    of Boost and then of the resolved packages, and the libraries of Boost
    and then of the resolved packages (decorated for sibling packages).
    The libraries are the sibling libraries of [bob_packages], then those
    recorded in [pkg_libraries], then the caller's, without repetitions;
    the library directories are those recorded in
    [pkg_library_directories], then the caller's, without repetitions, and
    after them the directories of the sibling libraries as they are; the
    macros are the macros of the extension itself, those the Boost adapter
    gives for the Boost requirement, those recorded in [pkg_macros] and
    the caller's, without repetitions.  The name, the sources and
    [bob_packages] are passed on, and the language is C++. *)
Theorem init_link_parameters (w : Extension.world) (name : string)
        (sources : list string) (kw : Extension.kwargs)
        (h h' : Heap.heap) (e : Extension.t) :
  Extension.init w name sources kw h = Ok (e, h') →
  let boost_modules := Extension.str_or_list (Extension.kw_boost_modules kw) in
  ∃ bob_includes bob_libraries bob_library_dirs self requested pkgs libss
    boost_macros boost_dirs boost_libs,
    get_bob_libraries (Extension.sys w) (Extension.resource_filename w)
                      (Extension.kw_bob_packages kw)
    = Ok (bob_includes, bob_libraries, bob_library_dirs) ∧
    generate_self_macros (Extension.python_major w) name (Extension.kw_version kw)
    = Ok self ∧
    normalize_requirements
      ((λ k, lower (strip k)) <$> Extension.str_or_list (Extension.kw_packages kw))
    = Ok requested ∧
    boost_contribution w (boost_requirement requested boost_modules) boost_modules
    = Ok (boost_macros, boost_dirs, boost_libs) ∧
    check_packages (Extension.registry w) (Extension.version_cmp w)
      (Extension.extract_boost (length requested) 0 requested "").2 = Ok pkgs ∧
    Forall2 (λ pkg libs, Extension.package_libs w pkg = Ok libs) pkgs libss ∧
    Extension.name e = name ∧ Extension.sources e = sources ∧
    Extension.language e = "c++" ∧
    Extension.bob_packages e = Extension.kw_bob_packages kw ∧
    Extension.pkg_macros e = concat (PkgConfig.package_macros <$> pkgs) ∧
    Extension.pkg_library_directories e
    = boost_dirs ++ concat (PkgConfig.library_directories <$> pkgs) ∧
    Extension.pkg_libraries e = boost_libs ++ concat libss ∧
    Extension.libraries e
    = uniq (Extension.merged (bob_libraries ++ Extension.pkg_libraries e)
                             (Extension.kw_libraries kw)) ∧
    Extension.library_dirs e
    = uniq (Extension.merged (Extension.pkg_library_directories e)
                             (Extension.kw_library_dirs kw)) ++ bob_library_dirs ∧
    Extension.define_macros e
    = uniq (Extension.merged (self ++ boost_macros ++ Extension.pkg_macros e)
                             (Extension.kw_define_macros kw)).
Proof.
  intros H boost_modules. init_invert H.
  apply add_boost_contribution in Hboost
    as (macros & libdirs & libs & Hb & Hm1 & Hpm1 & Hd1 & Hpd1 & Hl1 & Hpl1).
  pose proof (add_packages_Ok _ _ _ _ _ _ _ _ Hpkgs) as (libss & Hall & Hl2 & Hpl2 & _).
  apply add_packages_spec in Hpkgs
    as (added2 & _ & _ & _ & _ & _ & _ & _ & Hm2 & Hpm2 & Hd2 & Hpd2 & _).
  cbn [Extension.p_define_macros Extension.p_pkg_macros Extension.p_library_dirs
       Extension.p_pkg_library_directories Extension.p_libraries
       Extension.p_pkg_libraries] in *.
  exists bob_includes, bob_libraries, bob_library_dirs, self, packages, pkgs, libss,
         macros, libdirs, libs.
  unfold boost_requirement. rewrite Hex. cbn [fst snd].
  cbn [Extension.name Extension.sources Extension.language Extension.bob_packages
       Extension.libraries Extension.library_dirs Extension.define_macros
       Extension.pkg_libraries Extension.pkg_library_directories Extension.pkg_macros].
  split_and!; try done.
  - by rewrite Hpm2, Hpm1.
  - by rewrite Hpd2, Hpd1.
  - by rewrite Hpl2, Hpl1.
  - by rewrite Hl2, Hpl2, Hl1, Hpl1, <-!(assoc_L (++)).
  - by rewrite Hd2, Hpd2, Hd1, Hpd1.
  - by rewrite Hm2, Hpm2, Hm1, Hpm1, <-!(assoc_L (++)).
Qed.

(** X21: The include directories of the packages.  Every include directory of
    a resolved package reaches the compiler: it is one the user lists in
    [include_dirs], or it is recorded in [pkg_includes].  The directories
    recorded in [pkg_includes] are distinct; they are appended to the
    system include directories the caller gave, and each of them comes
    after an [-isystem] flag in the compile arguments, which are the
    reorganisation of the standard flags, these pairs and the caller's
    arguments, and start with the flag of the C++ standard. *)
Theorem init_system_include_flags (w : Extension.world) (name : string)
        (sources : list string) (kw : Extension.kwargs)
        (h h' : Heap.heap) (e : Extension.t) :
  Extension.init w name sources kw h = Ok (e, h') →
  let given := from_option (contents h) [] (Extension.kw_system_include_dirs kw) in
  NoDup (Extension.pkg_includes e) ∧
  reorganize_isystem
    (Extension.merged
       (base_compile_args w ++ isystem_pairs (given ++ Extension.pkg_includes e))
       (Extension.kw_extra_compile_args kw))
  = Ok (Extension.extra_compile_args e) ∧
  head (Extension.extra_compile_args e) = Some "-std=c++0x" ∧
  (∀ k, k ∈ given ++ Extension.pkg_includes e →
     ∃ i, Extension.extra_compile_args e !! i = Some "-isystem" ∧
          Extension.extra_compile_args e !! S i = Some k) ∧
  (∃ packages pkgs,
     normalize_requirements
       ((λ k, lower (strip k)) <$> Extension.str_or_list (Extension.kw_packages kw))
     = Ok packages ∧
     check_packages (Extension.registry w) (Extension.version_cmp w)
       (Extension.extract_boost (length packages) 0 packages "").2 = Ok pkgs ∧
     ∀ pkg k, pkg ∈ pkgs → k ∈ PkgConfig.include_directories pkg →
              k ∈ Extension.include_dirs e ∨ k ∈ Extension.pkg_includes e).
Proof.
  intros H given. init_invert H.
  apply ref_or_new_contents in Hsi as (Hc3 & _ & _ & Hsi_new & Hsi_kw).
  apply ref_or_new_contents in Hui as (Hc5 & _ & _ & _ & _).
  apply add_boost_spec in Hboost
    as (added1 & macros & libdirs & libs & Hi1 & Hs1 & _ & _ & Hlen1 & _
        & _ & _ & _ & _ & _ & _ & Ha1).
  apply add_packages_spec in Hpkgs
    as (added2 & Hi2 & Hs2 & _ & _ & Hnd2 & Hall2 & _ & _ & _ & _ & _ & Ha2).
  apply ref_or_new_contents in Hinc as (Hc10 & _ & _ & _ & _).
  apply extend_contents in Hext as (Hown & Hframe11 & _).
  cbn [Extension.p_pkg_includes Extension.p_extra_compile_args] in *.
  rewrite app_nil_l in Hi1.
  cbn [Extension.pkg_includes Extension.extra_compile_args Extension.include_dirs].
  assert (Hgiven : contents h si = given).
  { unfold given. destruct (Extension.kw_system_include_dirs kw) as [r|] eqn:Hkw.
    - by destruct (Hsi_kw r eq_refl) as [-> _].
    - unfold contents. by rewrite (not_elem_of_dom_1 h si (Hsi_new eq_refl)). }
  assert (Hisys : contents h8 si = given ++ Extension.p_pkg_includes p2).
  { by rewrite Hs2, Hs1, Hc5, Hc3, Hgiven, Hi2, Hi1, <-(assoc_L (++)). }
  assert (Hargs : reorganize_isystem
                    (Extension.merged
                       (base_compile_args w
                        ++ isystem_pairs (given ++ Extension.p_pkg_includes p2))
                       (Extension.kw_extra_compile_args kw)) = Ok eca).
  { rewrite <-Heca, Ha2, Ha1, base_compile_args_eq. unfold contents in Hisys.
    by rewrite Hisys. }
  destruct (base_compile_args_cons w) as (more & Hbase & Hno).
  split_and!.
  - apply Hnd2. rewrite Hi1. destruct added1 as [|a [|b l]]; simpl in Hlen1; try lia.
    + constructor.
    + apply NoDup_singleton.
  - done.
  - rewrite merged_app, Hbase in Hargs.
    by apply reorganize_isystem_head in Hargs.
  - intros k Hk. rewrite merged_app, <-(assoc_L (++)) in Hargs.
    apply reorganize_isystem_Ok_parse in Hargs as (remainder & includes & Hp & ->).
    apply isystem_pairs_lookup.
    rewrite merge_sort_Permutation, elem_of_reverse, elem_of_uniq, elem_of_reverse.
    by eapply isystem_parse_pairs_inside.
  - exists packages, pkgs. rewrite Hex. split_and!; try done.
    intros pkg k Hpkg Hk. destruct (Hall2 pkg k Hpkg Hk) as [Hu|Hi]; [left|by right].
    apply elem_of_uniq. rewrite elem_of_app. left.
    fold (contents h11 ui). destruct (decide (ui = inc)) as [->|Hne].
    + rewrite Hown, elem_of_app, Hc10. by left.
    + by rewrite (contents_frame _ _ _ (Hframe11 ui Hne)), Hc10.
Qed.

(** X22: The runtime library directories.  On Linux they are the caller's list
    after the library directories searched at link time (those of the
    packages and the caller's, not those of the sibling libraries) have
    been appended to it, without repetitions; without a list from the
    caller they are these directories.  On other platforms the caller's
    list is passed on as it is, and nothing is set without one. *)
Theorem init_runtime_library_dirs (w : Extension.world) (name : string)
        (sources : list string) (kw : Extension.kwargs)
        (h h' : Heap.heap) (e : Extension.t) :
  Extension.init w name sources kw h = Ok (e, h') →
  let searched :=
    uniq (Extension.merged (Extension.pkg_library_directories e)
                           (Extension.kw_library_dirs kw)) in
  match Extension.kw_runtime_library_dirs kw with
  | Some r =>
      if decide (Extension.platform_system w = "Linux")
      then Extension.runtime_library_dirs e = Some (uniq (contents h' r)) ∧
           ∃ before, contents h' r = before ++ searched
      else Extension.runtime_library_dirs e = Some (contents h' r)
  | None =>
      Extension.runtime_library_dirs e
      = if decide (Extension.platform_system w = "Linux") then Some searched else None
  end.
Proof.
  intros H searched. init_invert H.
  apply add_boost_spec in Hboost
    as (added1 & macros & libdirs & libs & _ & _ & _ & _ & _ & _
        & _ & _ & Hd1 & Hpd1 & _ & _ & _).
  apply add_packages_spec in Hpkgs
    as (added2 & _ & _ & _ & _ & _ & _ & _ & _ & _ & Hd2 & Hpd2 & _).
  cbn [Extension.p_library_dirs Extension.p_pkg_library_directories] in *.
  assert (Hsame : Extension.p_library_dirs p2 = Extension.p_pkg_library_directories p2)
    by by rewrite Hd2, Hpd2, Hd1, Hpd1.
  rewrite Hsame in Hrld.
  apply runtime_block_Ok in Hrld as [_ Hrld].
  unfold searched. cbn [Extension.runtime_library_dirs Extension.pkg_library_directories].
  destruct (decide (Extension.platform_system w = "Linux")) as [Hlinux|Hother].
  - destruct Hrld as (rt & Hkw & Hnew & -> & Hrt & _).
    destruct (Extension.kw_runtime_library_dirs kw) as [r|].
    + rewrite <-(Hkw r eq_refl). split; [by rewrite Hrt|]. by eexists.
    + unfold contents at 1. rewrite (not_elem_of_dom_1 _ _ (Hnew eq_refl)).
      cbn [default app]. by rewrite uniq_idemp.
  - destruct Hrld as [-> ->]. by destruct (Extension.kw_runtime_library_dirs kw).
Qed.

(** The constructor writes to the list objects it is given and to list
    objects it creates, and to no other. *)
Lemma init_frame (w : Extension.world) (name : string) (sources : list string)
      (kw : Extension.kwargs) (h h' : Heap.heap) (e : Extension.t) :
  Extension.init w name sources kw h = Ok (e, h') →
  dom h ⊆ dom h' ∧
  ∀ r, r ∈ dom h →
       Extension.kw_include_dirs kw ≠ Some r →
       Extension.kw_system_include_dirs kw ≠ Some r →
       Extension.kw_runtime_library_dirs kw ≠ Some r →
       h' !! r = h !! r.
Proof.
  intros H. init_invert H.
  apply ref_or_new_contents in Hsi as (_ & Hl3 & Hdom3 & Hsi_new & Hsi_kw).
  apply ref_or_new_contents in Hui as (_ & Hl5 & Hdom5 & _ & _).
  apply add_boost_spec in Hboost
    as (added1 & macros & libdirs & libs & _ & _ & Hf6 & Hdom6 & _).
  apply add_packages_spec in Hpkgs as (added2 & _ & _ & Hf8 & Hdom8 & _).
  apply ref_or_new_contents in Hinc as (_ & Hl10 & Hdom10 & Hinc_new & Hinc_kw).
  apply extend_contents in Hext as (_ & Hf11 & Hdom11).
  apply runtime_block_Ok in Hrld as [Hdom15 Hrld].
  split; [set_solver|].
  intros r Hr Hne_inc Hne_si Hne_rt.
  assert (r ≠ si).
  { intros ->. destruct (Extension.kw_system_include_dirs kw) as [r0|].
    - destruct (Hsi_kw r0 eq_refl) as [-> _]. done.
    - by apply (Hsi_new eq_refl). }
  assert (r ≠ inc).
  { intros ->. destruct (Extension.kw_include_dirs kw) as [r0|].
    - destruct (Hinc_kw r0 eq_refl) as [-> _]. done.
    - apply (Hinc_new eq_refl). set_solver. }
  trans (h11 !! r).
  - destruct (decide (Extension.platform_system w = "Linux")).
    + destruct Hrld as (rt & Hrt_kw & Hrt_new & _ & _ & _ & Hf15).
      apply Hf15; [set_solver|]. intros ->.
      destruct (Extension.kw_runtime_library_dirs kw) as [r0|].
      * by rewrite (Hrt_kw r0 eq_refl) in Hne_rt.
      * apply (Hrt_new eq_refl). set_solver.
    + by destruct Hrld as [-> _].
  - rewrite Hf11, Hl10, Hf8, Hf6, Hl5, Hl3 by set_solver. done.
Qed.

(** X23: The list objects of the caller.  The constructor creates list objects
    and appends to the three lists it is given as [include_dirs],
    [system_include_dirs] and [runtime_library_dirs]; every other list
    object is as before.  When the three are distinct objects, the system
    include directories get the directories recorded in [pkg_includes],
    none of which the user lists; the include directories get the include
    directory of bob.extension; and the runtime library directories get,
    on Linux, the library directories searched at link time, a directory
    again when it is there already. *)
Theorem init_caller_lists (w : Extension.world) (name : string)
        (sources : list string) (kw : Extension.kwargs)
        (h h' : Heap.heap) (e : Extension.t) :
  Extension.init w name sources kw h = Ok (e, h') →
  let given (r : Heap.ref) :=
    Extension.kw_include_dirs kw = Some r ∨
    Extension.kw_system_include_dirs kw = Some r ∨
    Extension.kw_runtime_library_dirs kw = Some r in
  dom h ⊆ dom h' ∧
  (∀ r, r ∈ dom h → ¬ given r → h' !! r = h !! r) ∧
  (∀ r, r ∈ dom h →
     Extension.kw_system_include_dirs kw = Some r →
     Extension.kw_include_dirs kw ≠ Some r →
     Extension.kw_runtime_library_dirs kw ≠ Some r →
     contents h' r = contents h r ++ Extension.pkg_includes e) ∧
  (∀ r, r ∈ dom h →
     Extension.kw_include_dirs kw = Some r →
     Extension.kw_system_include_dirs kw ≠ Some r →
     Extension.kw_runtime_library_dirs kw ≠ Some r →
     contents h' r
     = contents h r ++ [Extension.resource_filename w "bob.extension" "include"] ∧
     ∀ k, k ∈ Extension.pkg_includes e → k ∉ contents h r) ∧
  (∀ r, r ∈ dom h →
     Extension.kw_runtime_library_dirs kw = Some r →
     Extension.kw_include_dirs kw ≠ Some r →
     Extension.kw_system_include_dirs kw ≠ Some r →
     contents h' r
     = contents h r
       ++ if decide (Extension.platform_system w = "Linux")
          then uniq (Extension.merged (Extension.pkg_library_directories e)
                                      (Extension.kw_library_dirs kw))
          else []).
Proof.
  intros H given. destruct (init_frame _ _ _ _ _ _ _ H) as [Hdom Hframe].
  init_invert H.
  apply ref_or_new_contents in Hsi as (Hc3 & Hl3 & Hdom3 & Hsi_new & Hsi_kw).
  apply ref_or_new_contents in Hui as (Hc5 & Hl5 & Hdom5 & Hui_new & Hui_kw).
  apply add_boost_spec in Hboost
    as (added1 & macros & libdirs & libs & Hi1 & Hs1 & Hf6 & Hdom6 & _ & Hnew1
        & _ & _ & Hd1 & Hpd1 & _ & _ & _).
  apply add_packages_spec in Hpkgs
    as (added2 & Hi2 & Hs2 & Hf8 & Hdom8 & _ & _ & Hnew2 & _ & _ & Hd2 & Hpd2 & _).
  apply ref_or_new_contents in Hinc as (Hc10 & Hl10 & Hdom10 & Hinc_new & Hinc_kw).
  apply extend_contents in Hext as (Hown & Hf11 & Hdom11).
  cbn [Extension.p_pkg_includes Extension.p_library_dirs
       Extension.p_pkg_library_directories] in *.
  rewrite app_nil_l in Hi1.
  assert (Hsame : Extension.p_library_dirs p2 = Extension.p_pkg_library_directories p2)
    by by rewrite Hd2, Hpd2, Hd1, Hpd1.
  rewrite Hsame in Hrld.
  apply runtime_block_Ok in Hrld as [Hdom15 Hrld].
  cbn [Extension.pkg_includes Extension.pkg_library_directories].
  (* where each of the three lists lives *)
  assert (Hsi_out : ∀ r, r ∈ dom h →
            Extension.kw_system_include_dirs kw ≠ Some r → r ≠ si).
  { intros r Hr Hkw ->. destruct (Extension.kw_system_include_dirs kw) as [r0|].
    - destruct (Hsi_kw r0 eq_refl) as [-> _]. done.
    - by apply (Hsi_new eq_refl). }
  assert (Hui_out : ∀ r, r ∈ dom h →
            Extension.kw_include_dirs kw ≠ Some r → r ≠ ui).
  { intros r Hr Hkw ->. destruct (Extension.kw_include_dirs kw) as [r0|].
    - destruct (Hui_kw r0 eq_refl) as [-> _]. done.
    - apply (Hui_new eq_refl). set_solver. }
  assert (Hinc_out : ∀ r, r ∈ dom h →
            Extension.kw_include_dirs kw ≠ Some r → r ≠ inc).
  { intros r Hr Hkw ->. destruct (Extension.kw_include_dirs kw) as [r0|].
    - destruct (Hinc_kw r0 eq_refl) as [-> _]. done.
    - apply (Hinc_new eq_refl). set_solver. }
  assert (Hlast : ∀ r, r ∈ dom h →
            Extension.kw_runtime_library_dirs kw ≠ Some r → h15 !! r = h11 !! r).
  { intros r Hr Hkw. destruct (decide (Extension.platform_system w = "Linux")).
    - destruct Hrld as (rt & Hrt_kw & Hrt_new & _ & _ & _ & Hf15).
      apply Hf15; [set_solver|]. intros ->.
      destruct (Extension.kw_runtime_library_dirs kw) as [r0|].
      + by rewrite (Hrt_kw r0 eq_refl) in Hkw.
      + apply (Hrt_new eq_refl). set_solver.
    - by destruct Hrld as [-> _]. }
  assert (Hto11 : ∀ r, r ∈ dom h → r ≠ si → r ≠ inc → h11 !! r = h !! r).
  { intros r Hr Hsi Hinc.
    rewrite Hf11, Hl10, Hf8, Hf6, Hl5, Hl3 by set_solver. done. }
  split_and!.
  - done.
  - intros r Hr Hgiven. apply Hframe; [done|..]; intros ?; apply Hgiven;
      unfold given; auto.
  - intros r Hr Hkw Hne_inc Hne_rt.
    destruct (Hsi_kw r Hkw) as [<- _].
    rewrite (contents_frame _ _ _ (Hlast si Hr Hne_rt)).
    rewrite (contents_frame _ _ _ (Hf11 si (Hinc_out si Hr Hne_inc))).
    by rewrite Hc10, Hs2, Hs1, Hc5, Hc3, Hi2, Hi1, <-(assoc_L (++)).
  - intros r Hr Hkw Hne_si Hne_rt.
    destruct (Hinc_kw r Hkw) as [<- _]. destruct (Hui_kw inc Hkw) as [Hui _].
    pose proof (Hsi_out inc Hr Hne_si) as Hdiff.
    assert (Hkeep6 : contents h6 inc = contents h inc).
    { by rewrite (contents_frame _ _ _ (Hf6 inc Hdiff)), Hc5, Hc3. }
    assert (Hkeep : contents h8 inc = contents h inc).
    { by rewrite (contents_frame _ _ _ (Hf8 inc Hdiff)). }
    split.
    + rewrite (contents_frame _ _ _ (Hlast inc Hr Hne_rt)).
      by rewrite Hown, Hc10, Hkeep.
    + intros k. rewrite Hi2, Hi1. intros [Hk|Hk]%elem_of_app.
      * rewrite <-(Hc3 inc), <-(Hc5 inc), <-Hui. by apply Hnew1.
      * rewrite <-Hkeep6, <-Hui. apply Hnew2; [|done]. rewrite Hui. by intros <-.
  - intros r Hr Hkw Hne_inc Hne_si.
    assert (Hbefore : contents h11 r = contents h r).
    { apply contents_frame, Hto11; [done|by apply Hsi_out|by apply Hinc_out]. }
    destruct (decide (Extension.platform_system w = "Linux")).
    + destruct Hrld as (rt & Hrt_kw & _ & _ & Hrt & _).
      rewrite <-(Hrt_kw r Hkw). rewrite Hrt. by rewrite (Hrt_kw r Hkw), Hbefore.
    + destruct Hrld as [-> _]. by rewrite app_nil_r.
Qed.

Lemma init_caller :
  ∃ e h',
    Extension.init (Sample.world "Linux") "bob.example._library" ["a.cpp"]
      Caller.kwargs Caller.lists = Ok (e, h').
Proof.
  destruct (Extension.init (Sample.world "Linux") "bob.example._library" ["a.cpp"]
              Caller.kwargs Caller.lists) as [[e h']|err] eqn:Hinit.
  - by exists e, h'.
  - revert Hinit. by vm_compute.
Defined.

(** With Boost asked for, its macro, its library directory and the
    library of its module are among what is handed over. *)
Lemma init_link_parameters_witness :
  ∃ e h',
    Extension.init (Sample.world "Linux") "bob.example._library" ["a.cpp"]
      Caller.with_boost ∅ = Ok (e, h') ∧
    Extension.language e = "c++" ∧
    Extension.pkg_libraries e = ["boost_system"; "pkga"] ∧
    Extension.pkg_library_directories e = ["/usr/lib"; "/opt/pkga/lib"] ∧
    ("BOOST_VERSION", "1.55.0") ∈ Extension.define_macros e.
Proof.
  destruct (Extension.init (Sample.world "Linux") "bob.example._library" ["a.cpp"]
              Caller.with_boost ∅) as [[e h']|err] eqn:Hinit;
    [|revert Hinit; by vm_compute].
  exists e, h'. split; [done|].
  destruct (init_link_parameters _ _ _ _ _ _ _ Hinit)
    as (bi & bl & bd & self & requested & pkgs & libss & bm & bdirs & blibs
        & _ & _ & Hreq & Hboost & Hpkgs & Hlibss & _ & _ & Hlang & _
        & _ & Hpd & Hpl & _ & _ & Hmac).
  vm_compute in Hreq. injection Hreq as <-.
  vm_compute in Hboost. injection Hboost as <- <- <-.
  vm_compute in Hpkgs. injection Hpkgs as <-.
  apply Forall2_cons_inv_l in Hlibss as (libs & libss' & Hlibs & Hnil & ->).
  apply Forall2_nil_inv_l in Hnil as ->.
  vm_compute in Hlibs. injection Hlibs as <-.
  split_and!.
  - exact Hlang.
  - rewrite Hpl. reflexivity.
  - rewrite Hpd. reflexivity.
  - rewrite Hmac. apply elem_of_uniq. cbn [Extension.kw_define_macros Caller.with_boost
      Extension.merged]. rewrite !elem_of_app. right. left. left.
Defined.

Lemma init_system_include_flags_witness :
  ∃ e h',
    Extension.init (Sample.world "Linux") "bob.example._library" ["a.cpp"]
      Caller.kwargs Caller.lists = Ok (e, h') ∧
    NoDup (Extension.pkg_includes e) ∧
    head (Extension.extra_compile_args e) = Some "-std=c++0x" ∧
    ∃ i, Extension.extra_compile_args e !! i = Some "-isystem" ∧
         Extension.extra_compile_args e !! S i = Some "/sys/include".
Proof.
  destruct init_caller as (e & h' & Hinit). exists e, h'. split; [exact Hinit|].
  destruct (init_system_include_flags _ _ _ _ _ _ _ Hinit)
    as (Hnd & _ & Hhead & Hflag & _).
  split_and!; [done..|]. apply Hflag. left.
Defined.

Lemma init_runtime_library_dirs_witness :
  ∃ e h',
    Extension.init (Sample.world "Linux") "bob.example._library" ["a.cpp"]
      Caller.kwargs Caller.lists = Ok (e, h') ∧
    Extension.runtime_library_dirs e = Some (uniq (contents h' 2)).
Proof.
  destruct init_caller as (e & h' & Hinit). exists e, h'. split; [exact Hinit|].
  by destruct (init_runtime_library_dirs _ _ _ _ _ _ _ Hinit) as [? _].
Defined.

Lemma init_caller_lists_witness :
  ∃ e h',
    Extension.init (Sample.world "Linux") "bob.example._library" ["a.cpp"]
      Caller.kwargs Caller.lists = Ok (e, h') ∧
    h' !! 3 = Some ["untouched"] ∧
    contents h' 1 = ["/sys/include"] ++ Extension.pkg_includes e ∧
    contents h' 0 = ["/my/include"; "/site-packages/bob.extension/include"] ∧
    contents h' 2
    = ["/my/lib"]
      ++ uniq (Extension.pkg_library_directories e ++ ["/my/lib"]).
Proof.
  destruct init_caller as (e & h' & Hinit). exists e, h'. split; [exact Hinit|].
  destruct (init_caller_lists _ _ _ _ _ _ _ Hinit) as (_ & Hother & Hsi & Hinc & Hrt).
  assert (Hdom : ∀ r, bool_decide (r ∈ dom Caller.lists) = true → r ∈ dom Caller.lists)
    by (intros r; apply bool_decide_eq_true_1).
  split_and!.
  - rewrite Hother; [reflexivity|by apply Hdom|].
    intros [[=]|[[=]|[=]]].
  - apply (Hsi 1); [by apply Hdom|reflexivity|by intros [=]..].
  - apply (Hinc 0); [by apply Hdom|reflexivity|by intros [=]..].
  - apply (Hrt 2); [by apply Hdom|reflexivity|by intros [=]..].
Defined.

(** ** [Library.__init__] *)

Section LibraryMore.

Lemma str_split_nonempty sep s : str_split sep s ≠ [].
Proof.
  destruct s as [|c s]; [done|]. cbn [str_split].
  case_decide; [done|]. by destruct (str_split sep s).
Qed.

Lemma str_split_no_dot s :
  all_chars not_dot s = true → str_split "."%char s = [s].
Proof.
  induction s as [|c s IH]; [done|]. cbn [all_chars str_split].
  intros [Hc Hs]%andb_true_iff. rewrite (IH Hs).
  unfold not_dot in Hc. apply negb_true_iff, bool_decide_eq_false in Hc.
  by rewrite decide_False.
Qed.

Lemma str_split_dot_app package leaf :
  all_chars not_dot leaf = true →
  str_split "."%char (package +:+ "." +:+ leaf) = str_split "."%char package ++ [leaf].
Proof.
  intros Hl. induction package as [|c package IH].
  - change ("" +:+ "." +:+ leaf) with (String "."%char leaf).
    cbn [str_split]. rewrite decide_True by done. by rewrite str_split_no_dot.
  - rewrite string_app_cons. cbn [str_split]. rewrite IH. case_decide; [done|].
    pose proof (str_split_nonempty "."%char package).
    by destruct (str_split "."%char package).
Qed.

Lemma str_split_one s :
  length (str_split "."%char s) ≤ 1 ↔ all_chars not_dot s = true.
Proof.
  split.
  - intros Hlen. destruct (rpartition_dot s) as [[a b]|] eqn:Hs.
    + apply rpartition_dot_Some in Hs as [-> Hb].
      rewrite str_split_dot_app, length_app in Hlen by done.
      pose proof (str_split_nonempty "."%char a).
      destruct (str_split "."%char a); [done|]. simpl in Hlen. lia.
    + by apply rpartition_dot_None.
  - intros Hs. by rewrite str_split_no_dot.
Qed.

(** The name of a library is split at its last dot. *)
Lemma library_name_split s :
  all_chars not_dot s ≠ true →
  ∃ package leaf,
    s = package +:+ "." +:+ leaf ∧ all_chars not_dot leaf = true ∧
    last (str_split "."%char s) = Some leaf ∧
    take (length (str_split "."%char s) - 1) (str_split "."%char s)
    = str_split "."%char package.
Proof.
  intros Hs. destruct (rpartition_dot s) as [[a b]|] eqn:Hr.
  - apply rpartition_dot_Some in Hr as [-> Hb]. exists a, b.
    rewrite str_split_dot_app by done. split_and!; try done.
    + by rewrite last_snoc.
    + rewrite length_app. cbn [length].
      replace (length (str_split "."%char a) + 1 - 1)
        with (length (str_split "."%char a)) by lia.
      by rewrite take_app_length.
  - by apply rpartition_dot_None in Hr.
Qed.

End LibraryMore.

(** X24: The errors of [Library.__init__], in the order in which it meets
    them.  It raises its [ValueError] exactly when the name has no dot,
    before anything else is looked at.  For a name with a dot it raises
    the error of [get_bob_libraries]; failing that, the error that CMake
    cannot be found, when [find_executable] finds nothing, whatever the
    packages are; and failing that, the error of the constructor of
    [Extension]. *)
Theorem library_init_errors (w : Extension.world) (realpath_dot : string)
        (find_executable : string → list string)
        (name : string) (sources : list string) (version : string)
        (bob_packages : list string) (packages boost_modules : string + list string)
        (include_dirs : list string) (system_include_dirs : Heap.ref)
        (libraries library_dirs : list string)
        (define_macros : list Extension.macro) (h : Heap.heap) :
  let built :=
    Library.init w realpath_dot find_executable name sources version bob_packages
      packages boost_modules include_dirs system_include_dirs libraries library_dirs
      define_macros h in
  let siblings :=
    get_bob_libraries (Extension.sys w) (Extension.resource_filename w)
                      (Some bob_packages) in
  ((∃ msg, built = Library.Failed (Library.ValueError msg)) ↔
   all_chars not_dot name = true) ∧
  (∀ e, built = Library.Failed (Library.Raised e) ↔
        all_chars not_dot name ≠ true ∧
        (siblings = Raise e
         ∨ is_ok siblings = true ∧
           (find_executable "cmake" = [] ∧
            e = OSError
              "The Library class needs CMake version >= 2.8 to be installed, but CMake cannot be found"
            ∨ find_executable "cmake" ≠ [] ∧
              Extension.init w name sources
                (Library.base_kwargs packages boost_modules) h = Raise e))).
Proof.
  intros built siblings. unfold built, Library.init. fold siblings.
  pose proof (str_split_one name) as Hone.
  destruct (decide (length (str_split "."%char name) ≤ 1)) as [Hlen|Hlen].
  { apply Hone in Hlen. split.
    - split; [done|]. intros _. by eexists.
    - intros e. split; [done|]. by intros [? _]. }
  assert (Hdot : all_chars not_dot name ≠ true) by (by rewrite <-Hone).
  destruct siblings as [[[bi bl] bd]|e0].
  - destruct (find_executable "cmake") as [|cmake0 found].
    + split.
      * split; [by intros [? ?]|done].
      * intros e. split.
        -- intros [= <-]. split; [done|]. right. split; [done|]. by left.
        -- intros [_ [?|[_ [[_ ->]|[? _]]]]]; done.
    + destruct (Extension.init w name sources
                  (Library.base_kwargs packages boost_modules) h)
        as [[self h1]|e1].
      * cbn. split.
        -- split; [by intros [? ?]|done].
        -- intros e. split; [done|]. intros [_ [?|[_ [[? _]|[_ ?]]]]]; done.
      * split.
        -- split; [by intros [? ?]|done].
        -- intros e. split.
           ++ intros [= <-]. split; [done|]. right. split; [done|]. by right.
           ++ intros [_ [?|[_ [[? _]|[_ [= <-]]]]]]; done.
  - split.
    + split; [by intros [? ?]|done].
    + intros e. split.
      * intros [= <-]. split; [done|]. by left.
      * intros [_ [[= <-]|[? _]]]; done.
Qed.

Lemma library_init_Built (w : Extension.world) (realpath_dot : string)
      (find_executable : string → list string)
      (name : string) (sources : list string) (version : string)
      (bob_packages : list string) (packages boost_modules : string + list string)
      (include_dirs : list string) (system_include_dirs : Heap.ref)
      (libraries library_dirs : list string)
      (define_macros : list Extension.macro) (h h' : Heap.heap) (l : Library.t) :
  Library.init w realpath_dot find_executable name sources version bob_packages
    packages boost_modules include_dirs system_include_dirs libraries library_dirs
    define_macros h = Library.Built (l, h') →
  ∃ bob_includes bob_libraries bob_library_dirs cmake0 found self h1,
    all_chars not_dot name ≠ true ∧
    get_bob_libraries (Extension.sys w) (Extension.resource_filename w)
                      (Some bob_packages)
    = Ok (bob_includes, bob_libraries, bob_library_dirs) ∧
    find_executable "cmake" = cmake0 :: found ∧
    Extension.init w name sources (Library.base_kwargs packages boost_modules) h
    = Ok (self, h1) ∧
    h' = <[system_include_dirs :=
             default [] (h1 !! system_include_dirs) ++ Extension.pkg_includes self]> h1 ∧
    l = Library.Lib self
          (default EmptyString (last (str_split "."%char name)))
          realpath_dot
          (Probe.path_join realpath_dot
             (Library.join_all
                (take (length (str_split "."%char name) - 1) (str_split "."%char name))))
          sources version
          (bob_includes
           ++ [Probe.path_join
                 (Probe.path_join realpath_dot
                    (Library.join_all
                       (take (length (str_split "."%char name) - 1)
                             (str_split "."%char name)))) "include"]
           ++ include_dirs)
          system_include_dirs
          ((bob_libraries ++ libraries) ++ Extension.pkg_libraries self)
          ((bob_library_dirs ++ library_dirs) ++ Extension.pkg_library_directories self)
          (define_macros ++ Extension.pkg_macros self)
          cmake0.
Proof.
  unfold Library.init. pose proof (str_split_one name) as Hone.
  case_decide as Hlen; [done|].
  destruct (get_bob_libraries _ _ _) as [[[bi bl] bd]|e0]; [|done].
  destruct (find_executable "cmake") as [|cmake0 found]; [done|].
  destruct (Extension.init w name sources _ h) as [[self h1]|e1]; [|done].
  cbn. intros [= <- <-].
  exists bi, bl, bd, cmake0, found, self, h1. split_and!; try done.
  by rewrite <-Hone.
Qed.

(** X25: What a constructed library records.  Its name is the part of the
    qualified name after the last dot, and its target directory is the
    working directory joined with the parts before it.  Its include
    directories are those of the sibling packages, the include directory
    of the target and the caller's, in this order; its libraries, library
    directories and macros are those of the sibling packages, the caller's
    and those the constructor of [Extension] recorded for the packages, in
    this order; and CMake is the first executable found. *)
Theorem library_init_attributes (w : Extension.world) (realpath_dot : string)
        (find_executable : string → list string)
        (name : string) (sources : list string) (version : string)
        (bob_packages : list string) (packages boost_modules : string + list string)
        (include_dirs : list string) (system_include_dirs : Heap.ref)
        (libraries library_dirs : list string)
        (define_macros : list Extension.macro) (h h' : Heap.heap) (l : Library.t) :
  Library.init w realpath_dot find_executable name sources version bob_packages
    packages boost_modules include_dirs system_include_dirs libraries library_dirs
    define_macros h = Library.Built (l, h') →
  ∃ package bob_includes bob_libraries bob_library_dirs h1,
    name = package +:+ "." +:+ Library.c_name l ∧
    all_chars not_dot (Library.c_name l) = true ∧
    Library.c_package_directory l = realpath_dot ∧
    Library.c_target_directory l
    = Probe.path_join realpath_dot (Library.join_all (str_split "."%char package)) ∧
    get_bob_libraries (Extension.sys w) (Extension.resource_filename w)
                      (Some bob_packages)
    = Ok (bob_includes, bob_libraries, bob_library_dirs) ∧
    Extension.init w name sources (Library.base_kwargs packages boost_modules) h
    = Ok (Library.base l, h1) ∧
    Library.c_include_directories l
    = bob_includes ++ [Probe.path_join (Library.c_target_directory l) "include"]
      ++ include_dirs ∧
    Library.c_libraries l
    = bob_libraries ++ libraries ++ Extension.pkg_libraries (Library.base l) ∧
    Library.c_library_directories l
    = bob_library_dirs ++ library_dirs
      ++ Extension.pkg_library_directories (Library.base l) ∧
    Library.c_define_macros l = define_macros ++ Extension.pkg_macros (Library.base l) ∧
    head (find_executable "cmake") = Some (Library.c_cmake l) ∧
    Library.c_system_include_directories l = system_include_dirs.
Proof.
  intros (bi & bl & bd & cmake0 & found & self & h1 & Hdot & Hbob & Hcmake & Hinit
          & _ & ->)%library_init_Built.
  destruct (library_name_split name Hdot) as (package & leaf & Hname & Hleaf & Hlast & Htake).
  exists package, bi, bl, bd, h1. cbn. rewrite Hlast, Htake, Hcmake. cbn.
  split_and!; try done; by rewrite <-?(assoc_L (++)).
Qed.

Lemma library_init_attributes_witness :
  ∃ l h' package,
    Example.library Example.lists = Library.Built (l, h') ∧
    "bob.example.bob_example" = package +:+ "." +:+ "bob_example" ∧
    Library.c_target_directory l
    = Probe.path_join "/src" (Library.join_all (str_split "."%char package)) ∧
    Library.c_cmake l = "/usr/bin/cmake".
Proof.
  destruct (Example.library Example.lists) as [[l h']|err] eqn:Hlib;
    [|revert Hlib; by vm_compute].
  destruct (library_init_attributes (Sample.world "Linux") "/src"
              Example.find_executable "bob.example.bob_example" ["a.cpp"] "1.0" []
              (inr ["pkga"]) (inr []) [] 0 [] [] [] Example.lists h' l Hlib)
    as (package & bi & bl & bd & h1 & Hname & _ & _ & Htarget & _ & _ & _ & _ & _ & _
        & Hcmake & _).
  exists l, h', package. split; [done|].
  revert Hlib. vm_compute. intros [= <- <-]. split_and!.
  - exact Hname.
  - exact Htarget.
  - reflexivity.
Defined.

(** X26: The list object given as [system_include_dirs] is not copied: the
    constructor appends to it the include directories recorded for the
    packages, and changes no other list object of the caller.  An object
    that is given twice, as the default object of the function is, holds
    the directories of both constructions. *)
Theorem library_init_system_include_dirs (w : Extension.world)
        (realpath_dot : string) (find_executable : string → list string)
        (name : string) (sources : list string) (version : string)
        (bob_packages : list string) (packages boost_modules : string + list string)
        (include_dirs : list string) (system_include_dirs : Heap.ref)
        (libraries library_dirs : list string)
        (define_macros : list Extension.macro)
        (h h1 : Heap.heap) (l1 : Library.t) :
  let construct :=
    Library.init w realpath_dot find_executable name sources version bob_packages
      packages boost_modules include_dirs system_include_dirs libraries library_dirs
      define_macros in
  system_include_dirs ∈ dom h →
  construct h = Library.Built (l1, h1) →
  contents h1 system_include_dirs
  = contents h system_include_dirs ++ Extension.pkg_includes (Library.base l1) ∧
  (∀ r, r ∈ dom h → r ≠ system_include_dirs → h1 !! r = h !! r) ∧
  dom h ⊆ dom h1 ∧
  (∀ l2 h2, construct h1 = Library.Built (l2, h2) →
     contents h2 system_include_dirs
     = contents h system_include_dirs ++ Extension.pkg_includes (Library.base l1)
       ++ Extension.pkg_includes (Library.base l2)).
Proof.
  intros construct Hin Hbuilt.
  assert (Hone : ∀ h h' l,
            system_include_dirs ∈ dom h → construct h = Library.Built (l, h') →
            contents h' system_include_dirs
            = contents h system_include_dirs ++ Extension.pkg_includes (Library.base l) ∧
            (∀ r, r ∈ dom h → r ≠ system_include_dirs → h' !! r = h !! r) ∧
            dom h ⊆ dom h').
  { clear. intros h h' l Hin
      (bi & bl & bd & cmake0 & found & self & h1 & _ & _ & _ & Hinit & -> & ->)%library_init_Built.
    destruct (init_frame _ _ _ _ _ _ _ Hinit) as [Hdom Hframe].
    cbn [Library.base]. split_and!.
    - unfold contents. rewrite lookup_insert_eq. cbn. by rewrite Hframe.
    - intros r Hr Hne. rewrite lookup_insert_ne by done. by apply Hframe.
    - rewrite dom_insert. set_solver. }
  destruct (Hone h h1 l1 Hin Hbuilt) as (Hc1 & Hf1 & Hd1).
  split_and!; try done.
  intros l2 h2 Hsecond.
  destruct (Hone h1 h2 l2 ltac:(set_solver) Hsecond) as (Hc2 & _ & _).
  by rewrite Hc2, Hc1, <-(assoc_L (++)).
Qed.

Lemma library_init_system_include_dirs_witness :
  ∃ l h',
    Example.library Example.lists = Library.Built (l, h') ∧
    Example.lists !! 0 = Some ["/sys/include"] ∧
    contents h' 0 = ["/sys/include"; "/opt/pkga/include"].
Proof.
  eexists _, _. split; [by vm_compute|]. split; [by vm_compute|].
  destruct (library_init_system_include_dirs (Sample.world "Linux") "/src"
              Example.find_executable "bob.example.bob_example" ["a.cpp"] "1.0" []
              (inr ["pkga"]) (inr []) [] 0 [] [] [] Example.lists _ _
              ltac:(apply (bool_decide_unpack _); by vm_compute)
              ltac:(by vm_compute))
    as (Hc & _).
  exact Hc.
Defined.

(** ** The self-identifying macros of the targets *)




(** ** [find_header] *)

(** X27: [find_header] returns the files that exist and are called [name] in
    a directory that [glob] gives for a prefix itself, or for the
    [include] directory of a prefix when no subpaths are given, or, when
    subpaths are given, for a subpath of the [include] directory of a
    prefix, and then not for the [include] directory itself. *)
Theorem find_header_finds (sys : Probe.system) (name : string)
        (subpaths prefixes : option (list string)) (c : string) :
  c ∈ Probe.find_header sys name subpaths prefixes ↔
  Probe.path_exists sys c = true ∧
  ∃ prefix dir expanded,
    (prefix ∈ env_prefixes sys ∨ prefix ∈ default [] prefixes ∨
     prefix ∈ Probe.DEFAULT_PREFIXES) ∧
    (dir = prefix
     ∨ default [] subpaths = [] ∧ dir = Probe.path_join prefix "include"
     ∨ ∃ sub, sub ∈ default [] subpaths ∧
              dir = Probe.path_join prefix (Probe.path_join "include" sub)) ∧
    expanded ∈ Probe.glob sys dir ∧ c = Probe.path_join expanded name.
Proof.
  unfold Probe.find_header. rewrite find_file_dirs. apply and_iff_compat_l.
  split.
  - intros (prefix & dir & expanded & Hp%elem_of_search_prefixes & Hdir & Hexp & ->).
    exists prefix, dir, expanded. split_and!; try done.
    destruct Hdir as [->|(sub & Hsub & ->)]; [by left|right].
    destruct subpaths as [[|s subpaths]|]; cbn [default] in *.
    + apply list_elem_of_singleton in Hsub as ->. by left.
    + apply list_elem_of_fmap in Hsub as (sub' & -> & Hsub'). right. by exists sub'.
    + apply list_elem_of_singleton in Hsub as ->. by left.
  - intros (prefix & dir & expanded & Hp%elem_of_search_prefixes & Hdir & Hexp & ->).
    exists prefix, dir, expanded. split_and!; try done.
    destruct Hdir as [->|[[Hnil ->]|(sub & Hsub & ->)]]; [by left|right..].
    + exists "include". split; [|done].
      destruct subpaths as [[|s subpaths]|]; cbn [default] in *;
        [apply list_elem_of_singleton; done|done|apply list_elem_of_singleton; done].
    + exists (Probe.path_join "include" sub). split; [|done].
      destruct subpaths as [[|s subpaths]|]; cbn [default] in *;
        [by apply elem_of_nil in Hsub| |by apply elem_of_nil in Hsub].
      by apply list_elem_of_fmap_2.
Qed.

(** ** [Extension.__init__]: the errors *)

Section InitErrors.
Import Extension Heap.
Context (w : world).

Lemma heap_bind_Raise {A B} (m : M A) (k : A → M B) h e :
  (m ≫= k) h = Raise e →
  m h = Raise e ∨ ∃ a h1, m h = Ok (a, h1) ∧ k a h1 = Raise e.
Proof.
  unfold mbind, heap_bind, Heap.bind.
  destruct (m h) as [[a h1]|e']; [|intros [= <-]; by left].
  intros Hk. right. by exists a, h1.
Qed.

Lemma lift_Raise {A} (r : result A) h e : lift r h = Raise e → r = Raise e.
Proof. unfold lift. by destruct r; [|intros [= <-]]. Qed.

Lemma ref_or_new_Ok (o : option ref) h :
  ∃ r h', match o with Some r => mret r | None => new_list [] end h = Ok (r, h').
Proof. destruct o; by eexists _, _. Qed.

Lemma package_libs_Raise pkg e :
  package_libs w pkg = Raise e →
  e = UnsupportedPlatform ∧ platform_system w ≠ "Darwin" ∧ platform_system w ≠ "Linux".
Proof.
  unfold package_libs. repeat case_match; try done. by intros [= <-].
Qed.

Lemma add_packages_Raise pkgs ui si p h e :
  add_packages w pkgs ui si p h = Raise e →
  e = UnsupportedPlatform ∧ platform_system w ≠ "Darwin" ∧ platform_system w ≠ "Linux".
Proof.
  revert p h. induction pkgs as [|pkg pkgs IH]; intros p h; [done|].
  cbn [add_packages]. unfold mbind, heap_bind, Heap.bind at 1.
  destruct (add_includes_Ok (PkgConfig.include_directories pkg) ui si
              (p_pkg_includes p) h) as [[incs h1] ->].
  unfold Heap.bind, lift.
  destruct (package_libs w pkg) as [libs|e'] eqn:Hl.
  - apply IH.
  - intros [= <-]. by apply package_libs_Raise in Hl.
Qed.

Lemma add_boost_Raise boost_req boost_modules ui si p h e :
  add_boost w boost_req boost_modules ui si p h = Raise e →
  boost_req ≠ "" ∧ boost w (strip (remove_all "boost" 0 boost_req)) = Raise e.
Proof.
  unfold add_boost. case_decide; [done|].
  intros [Hb%lift_Raise|(b & h1 & _ & Hk)]%heap_bind_Raise; [done|].
  exfalso. revert Hk. unfold mbind, heap_bind, Heap.bind, read, extend, mret, heap_ret, ret.
  case_decide; by destruct (match boost_modules with [] => _ | _ => _ end).
Qed.

Lemma runtime_block_total (kwr : option ref) (library_dirs : list string) h :
  ∃ res,
    (if decide (platform_system w = "Linux") then
       runtime ←
         match kwr with
         | Some r => mret r
         | None => new_list []
         end;
       extend runtime library_dirs;;
       dirs ← read runtime;
       mret (Some (uniq dirs))
     else
       match kwr with
       | Some r => dirs ← read r; mret (Some dirs)
       | None => mret None
       end) h = Ok res.
Proof. case_decide; destruct kwr; by eexists. Qed.

(** The scan fails or not whatever has been collected. *)
Lemma isystem_scan_Raise args skip rem inc rem' inc' e :
  isystem_scan args skip rem inc = Raise e →
  isystem_scan args skip rem' inc' = Raise e.
Proof.
  revert skip rem inc rem' inc'.
  induction args as [|arg args IH]; intros skip rem inc rem' inc'; [done|].
  cbn [isystem_scan]. destruct skip; [apply IH|].
  case_decide; [|apply IH].
  destruct (index args 0) as [path|e']; [|done]. cbn. apply IH.
Qed.

Lemma isystem_scan_app pre post remainder includes :
  isystem_parse pre remainder includes →
  ∀ rem inc,
    isystem_scan (pre ++ post) false rem inc
    = isystem_scan post false (rem ++ remainder) (inc ++ includes).
Proof.
  induction 1 as [|path args remainder includes _ IH
                  |arg args remainder includes Harg _ IH]; intros rem inc.
  - by rewrite !app_nil_r.
  - cbn. rewrite IH. by rewrite <-(assoc_L (++)).
  - cbn [app isystem_scan]. rewrite decide_False by done.
    rewrite IH. by rewrite <-(assoc_L (++)).
Qed.

Lemma reorganize_isystem_Raise_app pre post remainder includes e :
  isystem_parse pre remainder includes →
  reorganize_isystem (pre ++ post) = Raise e → reorganize_isystem post = Raise e.
Proof.
  intros Hp. unfold reorganize_isystem.
  rewrite (isystem_scan_app _ _ _ _ Hp).
  destruct (isystem_scan post false ([] ++ remainder) ([] ++ includes))
    as [[r i]|e'] eqn:Hs; [done|].
  intros [= <-]. by rewrite (isystem_scan_Raise _ _ _ _ [] [] _ Hs).
Qed.

End InitErrors.

(** X28: The errors of the constructor of [Extension].  It raises what the
    code it calls raises: the normalisation of the packages, the lookup of
    the sibling libraries, the macros of the extension, the Boost adapter,
    the check of the remaining packages, and the reorganisation of the
    compile arguments, which fails only on the arguments of the caller.
    Of its own it raises one error, for a sibling package on a platform
    that is neither Linux nor the Apple platform. *)
Theorem init_errors (w : Extension.world) (name : string) (sources : list string)
        (kw : Extension.kwargs) (h : Heap.heap) (err : exn) :
  Extension.init w name sources kw h = Raise err →
  let requested :=
    normalize_requirements
      ((λ k, lower (strip k)) <$> Extension.str_or_list (Extension.kw_packages kw)) in
  requested = Raise err
  ∨ get_bob_libraries (Extension.sys w) (Extension.resource_filename w)
                      (Extension.kw_bob_packages kw) = Raise err
  ∨ generate_self_macros (Extension.python_major w) name (Extension.kw_version kw)
    = Raise err
  ∨ (∃ req, Extension.boost w req = Raise err)
  ∨ (∃ packages,
       requested = Ok packages ∧
       check_packages (Extension.registry w) (Extension.version_cmp w)
         (Extension.extract_boost (length packages) 0 packages "").2 = Raise err)
  ∨ (err = UnsupportedPlatform ∧ Extension.platform_system w ≠ "Darwin" ∧
     Extension.platform_system w ≠ "Linux")
  ∨ reorganize_isystem (default [] (Extension.kw_extra_compile_args kw)) = Raise err.
Proof.
  intros H requested. unfold Extension.init in H. fold requested in H.
  apply heap_bind_Raise in H as [H%lift_Raise|(packages & h1 & [Hnorm ->]%lift_Ok & H)];
    [by left|].
  right.
  apply heap_bind_Raise in H
    as [H%lift_Raise|([[bob_includes bob_libraries] bob_library_dirs] & h2
                      & [Hbob ->]%lift_Ok & H)]; [by left|].
  right.
  apply heap_bind_Raise in H as [H|(si & h3 & Hsi & H)].
  { destruct (ref_or_new_Ok (Extension.kw_system_include_dirs kw) h)
      as (? & ? & Hok). by rewrite Hok in H. }
  destruct (Extension.extract_boost (length packages) 0 packages "")
    as [boost_req rest] eqn:Hex.
  cbv zeta in H.
  apply heap_bind_Raise in H as [H%lift_Raise|(self & h4 & [Hself ->]%lift_Ok & H)];
    [by left|].
  right.
  apply heap_bind_Raise in H as [H|(ui & h5 & Hui & H)].
  { destruct (ref_or_new_Ok (Extension.kw_include_dirs kw) h3) as (? & ? & Hok).
    by rewrite Hok in H. }
  apply heap_bind_Raise in H as [[_ H]%add_boost_Raise|(p1 & h6 & Hboost & H)].
  { left. by eexists. }
  right.
  apply heap_bind_Raise in H as [H%lift_Raise|(pkgs & h7 & [Hcheck ->]%lift_Ok & H)].
  { left. exists packages. by rewrite Hex. }
  right.
  apply heap_bind_Raise in H as [H%add_packages_Raise|(p2 & h8 & Hpkgs & H)];
    [by left|].
  right.
  apply heap_bind_Raise in H as [H|(isys & h9 & [= <- <-] & H)]; [done|].
  apply heap_bind_Raise in H as [H|(inc & h10 & Hinc & H)].
  { destruct (ref_or_new_Ok (Extension.kw_include_dirs kw) h8) as (? & ? & Hok).
    by rewrite Hok in H. }
  apply heap_bind_Raise in H as [H|([] & h11 & Hext & H)]; [done|].
  apply heap_bind_Raise in H as [H|(user & h12 & [= <- <-] & H)]; [done|].
  apply heap_bind_Raise in H as [H|(own & h13 & [= <- <-] & H)]; [done|].
  apply heap_bind_Raise in H as [H%lift_Raise|(eca & h14 & [_ ->]%lift_Ok & H)].
  - apply add_boost_spec in Hboost
      as (? & ? & ? & ? & _ & _ & _ & _ & _ & _ & _ & _ & _ & _ & _ & _ & Ha1).
    apply add_packages_spec in Hpkgs
      as (? & _ & _ & _ & _ & _ & _ & _ & _ & _ & _ & _ & Ha2).
    cbn [Extension.p_extra_compile_args] in *.
    rewrite Ha2, Ha1, base_compile_args_eq, merged_app in H.
    destruct (base_compile_args_cons w) as (more & _ & Hno).
    eapply reorganize_isystem_Raise_app; [|exact H].
    by apply isystem_parse_output.
  - exfalso. apply heap_bind_Raise in H as [H|(rld & h15 & _ & H)]; [|done].
    destruct (runtime_block_total w (Extension.kw_runtime_library_dirs kw)
                (uniq (Extension.merged (Extension.p_library_dirs p2)
                                        (Extension.kw_library_dirs kw)))
                h11) as [res Hok].
    by rewrite Hok in H.
Qed.

Lemma init_errors_witness :
  Extension.init (Sample.world "Windows") "bob.example._library" ["a.cpp"]
    (Sample.with_packages ["bob-core"]) ∅ = Raise UnsupportedPlatform ∧
  Extension.platform_system (Sample.world "Windows") ≠ "Linux".
Proof.
  assert (He : Extension.init (Sample.world "Windows") "bob.example._library" ["a.cpp"]
                 (Sample.with_packages ["bob-core"]) ∅ = Raise UnsupportedPlatform)
    by (vm_compute; reflexivity).
  split; [exact He|].
  destruct (init_errors _ _ _ _ _ _ He)
    as [H|[H|[H|[[req H]|[(packages & Hreq & H)|[(_ & _ & H)|H]]]]]].
  - revert H. by vm_compute.
  - revert H. by vm_compute.
  - revert H. by vm_compute.
  - revert H. by vm_compute.
  - revert Hreq. vm_compute. intros [= <-]. revert H. by vm_compute.
  - exact H.
  - revert H. by vm_compute.
Defined.

(** ** A library handed to [build_ext.run] *)

Lemma init_name (w : Extension.world) (name : string) (sources : list string)
      (kw : Extension.kwargs) (h h' : Heap.heap) (e : Extension.t) :
  Extension.init w name sources kw h = Ok (e, h') →
  Extension.name e = name ∧ Extension.sources e = sources.
Proof. intros H. init_invert H. done. Qed.

(** X29: A library made by [Library.__init__] and then built by
    [build_ext.run] together with an extension.  The two processes run in
    the build directory named after the qualified name of the library, the
    first one being the CMake found by the constructor on the working
    directory.  When both end with exit code 0, the extension alone is
    handed over; it gets, in front of its own, the part of the qualified
    name after the last dot as a library, the target directory of the
    library (the working directory joined with the parts of the name
    before the last dot) as a library directory, and the [include]
    directory in it as an include directory.  The library object is as
    before. *)
Theorem library_then_run (w : Extension.world) (realpath_dot : string)
        (find_executable : string → list string)
        (name : string) (sources : list string) (version : string)
        (bob_packages : list string) (packages boost_modules : string + list string)
        (include_dirs : list string) (system_include_dirs : Heap.ref)
        (libraries library_dirs : list string)
        (define_macros : list Extension.macro) (h h' : Heap.heap) (l : Library.t)
        (build_lib : string) (call : list string → string → Z)
        (objs : BuildExt.objects) (r_lib r_ext : Heap.ref) (t : BuildExt.target) :
  Library.init w realpath_dot find_executable name sources version bob_packages
    packages boost_modules include_dirs system_include_dirs libraries library_dirs
    define_macros h = Library.Built (l, h') →
  objs !! r_lib = Some (Library.target l) →
  objs !! r_ext = Some t → BuildExt.as_library t = None →
  call [Library.c_cmake l; realpath_dot] (Probe.path_join build_lib name) = 0%Z →
  call ["make"] (Probe.path_join build_lib name) = 0%Z →
  ∃ package objs' t',
    name = package +:+ "." +:+ Library.c_name l ∧
    BuildExt.run build_lib call [r_lib; r_ext] objs = Ok ([r_ext], objs') ∧
    objs' !! r_lib = Some (Library.target l) ∧
    objs' !! r_ext = Some t' ∧
    Extension.libraries (BuildExt.ext t')
    = Library.c_name l :: Extension.libraries (BuildExt.ext t) ∧
    Extension.library_dirs (BuildExt.ext t')
    = Probe.path_join realpath_dot (Library.join_all (str_split "."%char package))
      :: Extension.library_dirs (BuildExt.ext t) ∧
    Extension.include_dirs (BuildExt.ext t')
    = Probe.path_join
        (Probe.path_join realpath_dot (Library.join_all (str_split "."%char package)))
        "include"
      :: Extension.include_dirs (BuildExt.ext t).
Proof.
  intros (bi & bl & bd & cmake0 & found & self & h1 & Hdot & _ & _ & Hinit & _ & ->)%library_init_Built
         Hlib Hext Hnone Hcmake Hmake.
  destruct (library_name_split name Hdot)
    as (package & leaf & Hname & Hleaf & Hlast & Htake).
  destruct (init_name _ _ _ _ _ _ _ Hinit) as [Hself _].
  rewrite Hlast, Htake in *. cbn [default Library.c_name Library.c_cmake] in *.
  unfold Library.target in Hlib.
  cbn [Library.base Library.c_name Library.c_package_directory
       Library.c_target_directory Library.c_cmake] in Hlib.
  assert (Hne : r_lib ≠ r_ext).
  { intros ->. rewrite Hlib in Hext. injection Hext as <-. done. }
  assert (Hfilter : filter (λ r, ¬ BuildExt.is_library objs r) [r_lib; r_ext] = [r_ext]).
  { rewrite filter_cons_False, filter_cons_True; [done| |].
    - intros (t0 & l0 & Ht0 & Hl0). rewrite Hext in Ht0. injection Ht0 as <-.
      by rewrite Hnone in Hl0.
    - intros Hnot. apply Hnot. eexists _, _. split; [exact Hlib|done]. }
  exists package. eexists _, _. split; [done|].
  unfold BuildExt.run. cbn [BuildExt.build_libraries]. rewrite Hlib, Hext.
  destruct t as [e [l0|]]; [done|]. unfold BuildExt.compile.
  cbn [BuildExt.c_cmake BuildExt.c_package_directory BuildExt.c_name
       BuildExt.c_target_directory].
  rewrite Hself, Hcmake, Hmake.
  rewrite !decide_False by (by intros Hc; apply Hc).
  cbn [mbind result_bind Py.bind app]. rewrite Hfilter.
  cbn [BuildExt.propagate]. split_and!.
  - reflexivity.
  - by rewrite lookup_alter_ne.
  - rewrite lookup_alter_eq, Hext. reflexivity.
  - cbn. by rewrite or_empty_id.
  - cbn. by rewrite or_empty_id.
  - cbn. by rewrite or_empty_id.
Qed.

Lemma library_then_run_witness :
  ∃ l h' objs' t',
    Example.library Example.lists = Library.Built (l, h') ∧
    BuildExt.run "build/lib" (λ _ _, 0%Z) [0; 1]
      {[ 0 := Library.target l;
         1 := BuildExt.Target (Sample.extension_of "bob.example._library" ["m"]) None ]}
    = Ok ([1], objs') ∧
    objs' !! 1 = Some t' ∧
    Extension.libraries (BuildExt.ext t') = ["bob_example"; "m"].
Proof.
  destruct (Example.library Example.lists) as [[l h']|err] eqn:Hlib;
    [|revert Hlib; by vm_compute].
  destruct (library_then_run (Sample.world "Linux") "/src"
              Example.find_executable "bob.example.bob_example" ["a.cpp"] "1.0" []
              (inr ["pkga"]) (inr []) [] 0 [] [] [] Example.lists h' l
              "build/lib" (λ _ _, 0%Z)
              {[ 0 := Library.target l;
                 1 := BuildExt.Target
                        (Sample.extension_of "bob.example._library" ["m"]) None ]}
              0 1 _ Hlib ltac:(by vm_compute) ltac:(by vm_compute) eq_refl
              eq_refl eq_refl)
    as (package & objs' & t' & _ & Hrun & _ & Ht' & Hlibs & _).
  exists l, h', objs', t'. split_and!; try done.
  rewrite Hlibs. revert Hlib. vm_compute. by intros [= <- _].
Defined.
